(** * mysql-mcp: the request dispatcher, the query safety gate and the
      tabular renderer of cmd/main.go, embedded in Rocq.

    Go strings are byte sequences: they are modelled by [string] (a list of
    8-bit characters).  The functions of the Go standard library that
    main.go calls (strings.TrimSpace, strings.ToUpper, strings.HasPrefix,
    strings.Repeat, strings.Join, strconv.Itoa, the fmt verbs it uses) are
    embedded first, package by package, then the data types of main.go and
    its handlers. *)

From Stdlib Require Import ZArith NArith Ascii String List Lia Bool.
From Stdlib Require Import DecimalString DecimalPos SpecFloat.
From stdpp Require Import base strings list gmap.

(** ** Bytes and runes *)

Definition rune := Z.

Definition byte_val (c : ascii) : Z := Z.of_N (N_of_ascii c).

Definition byte_chr (z : Z) : ascii := ascii_of_N (Z.to_N (z mod 256)).

Fixpoint drop_bytes (n : nat) (s : string) : string :=
  match n, s with
  | O, _ => s
  | S n', String _ s' => drop_bytes n' s'
  | S _, EmptyString => EmptyString
  end.

Fixpoint take_bytes (n : nat) (s : string) : string :=
  match n, s with
  | O, _ => EmptyString
  | S n', String c s' => String c (take_bytes n' s')
  | S _, EmptyString => EmptyString
  end.

(** ** Package unicode/utf8 *)

Module utf8.
Local Open Scope Z_scope.

Definition RuneError : rune := 0xFFFD.
Definition RuneSelf : Z := 0x80.
Definition MaxRune : rune := 0x10FFFF.

(** The table [first] with [acceptRanges]: for a leading byte, the length of
    the sequence and the range allowed for its second byte. *)
Definition first (b : Z) : option (nat * Z * Z) :=
  if (0xC2 <=? b) && (b <=? 0xDF) then Some (2%nat, 0x80, 0xBF)
  else if b =? 0xE0 then Some (3%nat, 0xA0, 0xBF)
  else if (0xE1 <=? b) && (b <=? 0xEC) then Some (3%nat, 0x80, 0xBF)
  else if b =? 0xED then Some (3%nat, 0x80, 0x9F)
  else if (0xEE <=? b) && (b <=? 0xEF) then Some (3%nat, 0x80, 0xBF)
  else if b =? 0xF0 then Some (4%nat, 0x90, 0xBF)
  else if (0xF1 <=? b) && (b <=? 0xF3) then Some (4%nat, 0x80, 0xBF)
  else if b =? 0xF4 then Some (4%nat, 0x80, 0x8F)
  else None.

Definition is_cont (b : Z) : bool := (0x80 <=? b) && (b <=? 0xBF).

(** utf8.DecodeRuneInString: the first rune of [s] and its width in bytes;
    (RuneError, 0) on the empty string, (RuneError, 1) on a bad encoding. *)
Definition DecodeRuneInString (s : string) : rune * nat :=
  match s with
  | EmptyString => (RuneError, 0%nat)
  | String c0 t0 =>
    let s0 := byte_val c0 in
    if s0 <? RuneSelf then (s0, 1%nat) else
    match first s0 with
    | None => (RuneError, 1%nat)
    | Some (sz, lo, hi) =>
      if (String.length s <? sz)%nat then (RuneError, 1%nat) else
      match t0 with
      | EmptyString => (RuneError, 1%nat)
      | String c1 t1 =>
        let s1 := byte_val c1 in
        if (s1 <? lo) || (hi <? s1) then (RuneError, 1%nat) else
        if (sz <=? 2)%nat
        then (Z.lor (Z.shiftl (Z.land s0 0x1F) 6) (Z.land s1 0x3F), 2%nat) else
        match t1 with
        | EmptyString => (RuneError, 1%nat)
        | String c2 t2 =>
          let s2 := byte_val c2 in
          if negb (is_cont s2) then (RuneError, 1%nat) else
          if (sz <=? 3)%nat
          then (Z.lor (Z.lor (Z.shiftl (Z.land s0 0x0F) 12)
                             (Z.shiftl (Z.land s1 0x3F) 6))
                      (Z.land s2 0x3F), 3%nat) else
          match t2 with
          | EmptyString => (RuneError, 1%nat)
          | String c3 _ =>
            let s3 := byte_val c3 in
            if negb (is_cont s3) then (RuneError, 1%nat) else
            (Z.lor (Z.lor (Z.lor (Z.shiftl (Z.land s0 0x07) 18)
                                 (Z.shiftl (Z.land s1 0x3F) 12))
                          (Z.shiftl (Z.land s2 0x3F) 6))
                   (Z.land s3 0x3F), 4%nat)
          end
        end
      end
    end
  end.

(** utf8.RuneStart: the byte is not a continuation byte. *)
Definition RuneStart (b : Z) : bool := negb (Z.land b 0xC0 =? 0x80).

(** utf8.DecodeLastRuneInString: the last rune of [s] and its width.  It
    looks back over at most UTFMax bytes for the start of the rune. *)
Definition DecodeLastRuneInString (s : string) : rune * nat :=
  let e := String.length s in
  match e with
  | O => (RuneError, 0%nat)
  | S start0 =>
    match String.get start0 s with
    | None => (RuneError, 0%nat)
    | Some c =>
      if byte_val c <? RuneSelf then (byte_val c, 1%nat) else
      let lim := (e - 4)%nat in
      let is_start (i : nat) : bool :=
        match String.get i s with
        | Some b => RuneStart (byte_val b)
        | None => false
        end in
      (* for start--; start >= lim; start-- { if RuneStart(s[start]) break } *)
      let start :=
        if ((lim <=? e - 2) && (2 <=? e))%nat && is_start (e - 2)%nat then (e - 2)%nat
        else if ((lim <=? e - 3) && (3 <=? e))%nat && is_start (e - 3)%nat then (e - 3)%nat
        else if ((lim <=? e - 4) && (4 <=? e))%nat && is_start (e - 4)%nat then (e - 4)%nat
        else (e - 5)%nat (* lim - 1, or 0 after [if start < 0 { start = 0 }] *) in
      let '(r, size) := DecodeRuneInString (drop_bytes start s) in
      if (start + size =? e)%nat then (r, size) else (RuneError, 1%nat)
    end
  end.

(** utf8.AppendRune / EncodeRune. *)
Definition EncodeRune (r : rune) : string :=
  let three (r : Z) :=
    String (byte_chr (Z.lor 0xE0 (Z.shiftr r 12)))
      (String (byte_chr (Z.lor 0x80 (Z.land (Z.shiftr r 6) 0x3F)))
        (String (byte_chr (Z.lor 0x80 (Z.land r 0x3F))) EmptyString)) in
  if (0 <=? r) && (r <=? 0x7F) then String (byte_chr r) EmptyString
  else if (0 <=? r) && (r <=? 0x7FF) then
    String (byte_chr (Z.lor 0xC0 (Z.shiftr r 6)))
      (String (byte_chr (Z.lor 0x80 (Z.land r 0x3F))) EmptyString)
  else if (r <? 0) || (MaxRune <? r) || ((0xD800 <=? r) && (r <=? 0xDFFF))
  then three RuneError
  else if r <=? 0xFFFF then three r
  else
    String (byte_chr (Z.lor 0xF0 (Z.shiftr r 18)))
      (String (byte_chr (Z.lor 0x80 (Z.land (Z.shiftr r 12) 0x3F)))
        (String (byte_chr (Z.lor 0x80 (Z.land (Z.shiftr r 6) 0x3F)))
          (String (byte_chr (Z.lor 0x80 (Z.land r 0x3F))) EmptyString))).

(** The runes a [for _, c := range s] loop visits, with the byte width each
    one takes; the fuel is the number of bytes left, and every step takes at
    least one. *)
Fixpoint range_fuel (fuel : nat) (s : string) : list (rune * nat) :=
  match fuel with
  | O => []
  | S fuel' =>
    match s with
    | EmptyString => []
    | _ =>
      let '(r, w) := DecodeRuneInString s in
      (r, w) :: range_fuel fuel' (drop_bytes w s)
    end
  end.

Definition range (s : string) : list (rune * nat) :=
  range_fuel (String.length s) s.

(** utf8.RuneCountInString. *)
Definition RuneCountInString (s : string) : nat := List.length (range s).

End utf8.

(** ** Package unicode *)

Module unicode.
Local Open Scope Z_scope.

Definition MaxASCII : rune := 0x7F.
Definition MaxLatin1 : rune := 0xFF.

(** unicode.IsSpace: the Latin-1 switch, then the White_Space table. *)
Definition IsSpace (r : rune) : bool :=
  if (0 <=? r) && (r <=? MaxLatin1) then
    (r =? 0x09) || (r =? 0x0A) || (r =? 0x0B) || (r =? 0x0C) || (r =? 0x0D)
    || (r =? 0x20) || (r =? 0x85) || (r =? 0xA0)
  else
    (r =? 0x1680) || ((0x2000 <=? r) && (r <=? 0x200A))
    || (r =? 0x2028) || (r =? 0x2029) || (r =? 0x202F) || (r =? 0x205F)
    || (r =? 0x3000).

(** unicode.ToUpper.  Runes up to MaxASCII are handled by the function
    itself; above, it consults the table CaseRanges, which is data of the
    Unicode standard and is taken as the argument [CaseRanges]: the upper-case
    mapping [To(UpperCase, r)] of a rune above MaxASCII. *)
Definition ToUpper (CaseRanges : rune -> rune) (r : rune) : rune :=
  if r <=? MaxASCII then
    if (0x61 <=? r) && (r <=? 0x7A) then r - 0x20 else r
  else CaseRanges r.

End unicode.

(** ** Package strings *)

Module strings.

(** strings.HasPrefix(s, prefix). *)
Definition HasPrefix (s p : string) : bool := String.prefix p s.

(** strings.Repeat(s, count) for the counts main.go uses (never negative). *)
Fixpoint Repeat (s : string) (count : nat) : string :=
  match count with
  | O => EmptyString
  | S n => s +:+ Repeat s n
  end.

(** strings.Join(elems, sep). *)
Definition Join (elems : list string) (sep : string) : string :=
  String.concat sep elems.

(** The table [asciiSpace]. *)
Definition asciiSpace (b : Z) : bool :=
  ((b =? 0x09) || (b =? 0x0A) || (b =? 0x0B) || (b =? 0x0C) || (b =? 0x0D)
   || (b =? 0x20))%Z.

(** strings.TrimLeftFunc(s, unicode.IsSpace): drop runes while they are
    white space. *)
Fixpoint TrimLeftSpace_fuel (fuel : nat) (s : string) : string :=
  match fuel with
  | O => EmptyString
  | S fuel' =>
    match s with
    | EmptyString => EmptyString
    | _ =>
      let '(r, w) := utf8.DecodeRuneInString s in
      if unicode.IsSpace r then TrimLeftSpace_fuel fuel' (drop_bytes w s) else s
    end
  end.

Definition TrimLeftSpace (s : string) : string :=
  TrimLeftSpace_fuel (String.length s) s.

(** lastIndexFunc(s, unicode.IsSpace, false): the byte index at which the last
    rune that is not white space starts, reading runes from the end; [None]
    is the index -1.  The argument is the prefix s[0:i] still to be read. *)
Fixpoint lastIndexNotSpace_fuel (fuel : nat) (s : string) : option nat :=
  match fuel with
  | O => None
  | S fuel' =>
    match s with
    | EmptyString => None
    | _ =>
      let '(r, size) := utf8.DecodeLastRuneInString s in
      let i := (String.length s - size)%nat in
      if unicode.IsSpace r then lastIndexNotSpace_fuel fuel' (take_bytes i s)
      else Some i
    end
  end.

(** strings.TrimRightFunc(s, unicode.IsSpace). *)
Definition TrimRightSpace (s : string) : string :=
  match lastIndexNotSpace_fuel (String.length s) s with
  | None => EmptyString
  | Some i =>
    match String.get i s with
    | Some c =>
      if (byte_val c <? utf8.RuneSelf)%Z then take_bytes (S i) s
      else take_bytes (i + snd (utf8.DecodeRuneInString (drop_bytes i s))) s
    | None => take_bytes (S i) s
    end
  end.

(** strings.TrimFunc(s, unicode.IsSpace). *)
Definition TrimFuncSpace (s : string) : string :=
  TrimRightSpace (TrimLeftSpace s).

(** The second loop of strings.TrimSpace, which moves [stop] down from the
    end of s[start:].  It is written as a fold from the right: the result for
    [String c t] is decided by the result for [t]. *)
Inductive stop_scan : Type :=
  | ScanAllSpace                 (* stop reached start: only ASCII spaces *)
  | ScanDone (kept : string)     (* s[start:stop], ending in a non-space ASCII byte *)
  | ScanNonASCII (kept : string) (* s[start:stop], ending in a byte >= RuneSelf *).

Fixpoint scan_stop (s : string) : stop_scan :=
  match s with
  | EmptyString => ScanAllSpace
  | String c t =>
    match scan_stop t with
    | ScanAllSpace =>
      if (utf8.RuneSelf <=? byte_val c)%Z then ScanNonASCII (String c EmptyString)
      else if asciiSpace (byte_val c) then ScanAllSpace
      else ScanDone (String c EmptyString)
    | ScanDone k => ScanDone (String c k)
    | ScanNonASCII k => ScanNonASCII (String c k)
    end
  end.

(** strings.TrimSpace: the ASCII fast path from both ends, falling back to
    the rune-wise functions at the first byte >= RuneSelf it meets. *)
Fixpoint TrimSpace (s : string) : string :=
  match s with
  | EmptyString => EmptyString
  | String c t =>
    if (utf8.RuneSelf <=? byte_val c)%Z then TrimFuncSpace s
    else if asciiSpace (byte_val c) then TrimSpace t
    else
      match scan_stop s with
      | ScanAllSpace => EmptyString
      | ScanDone k => k
      | ScanNonASCII k => TrimRightSpace k
      end
  end.

(** strings.Map(mapping, s): every rune of [s] (a byte that does not decode
    is read as RuneError) is replaced by the encoding of its image; a
    negative image drops the rune. *)
Definition Map (mapping : rune -> rune) (s : string) : string :=
  fold_right
    (fun rw acc =>
       let r := mapping (fst rw) in
       if (r <? 0)%Z then acc else utf8.EncodeRune r +:+ acc)
    EmptyString (utf8.range s).

Fixpoint isASCII (s : string) : bool :=
  match s with
  | EmptyString => true
  | String c t => (byte_val c <? utf8.RuneSelf)%Z && isASCII t
  end.

Fixpoint upperASCII (s : string) : string :=
  match s with
  | EmptyString => EmptyString
  | String c t =>
    let b := byte_val c in
    String (if (0x61 <=? b)%Z && (b <=? 0x7A)%Z then byte_chr (b - 0x20) else c)
           (upperASCII t)
  end.

(** strings.ToUpper: byte-wise on a string that is all ASCII, otherwise
    [Map(unicode.ToUpper, s)]. *)
Definition ToUpper (CaseRanges : rune -> rune) (s : string) : string :=
  if isASCII s then upperASCII s
  else Map (unicode.ToUpper CaseRanges) s.

End strings.

(** ** Package strconv *)

Module strconv.

(** strconv.Itoa: base 10, a leading minus sign for negative numbers. *)
Definition Itoa (i : Z) : string := NilZero.string_of_int (Z.to_int i).

End strconv.

(** ** Package fmt *)

Module fmt.

(** The verb [%-*s]: the operand, then spaces up to [width] runes
    (fmt pads by utf8.RuneCountInString). *)
Definition pad_left_justified (width : nat) (s : string) : string :=
  s +:+ strings.Repeat " " (width - utf8.RuneCountInString s).

End fmt.

(** ** Values decoded by encoding/json, and float64 *)

(** What encoding/json stores in an [interface{}]: nil, bool, float64,
    string, []interface{} and map[string]interface{}. *)
#[warnings="-register-all"]
Inductive JSON : Type :=
  | JNull
  | JBool (b : bool)
  | JNumber (f : spec_float)
  | JString (s : string)
  | JArray (elems : list JSON)
  | JObject (members : list (string * JSON)).

Definition min_int64 : Z := (- 2 ^ 63)%Z.
Definition max_int64 : Z := (2 ^ 63 - 1)%Z.

(** The conversion [int(f)] of a float64 (int is 64 bits wide): the
    fraction is discarded.  When the value does not fit, the Go
    specification leaves the result to the implementation; the amd64 result
    is used here. *)
Definition int_of_float64 (f : spec_float) : Z :=
  match f with
  | S754_zero _ => 0%Z
  | S754_finite sign m e =>
    let magnitude :=
      if (0 <=? e)%Z then (Z.pos m * 2 ^ e)%Z else (Z.pos m / 2 ^ (- e))%Z in
    let v := if sign then (- magnitude)%Z else magnitude in
    if ((min_int64 <=? v) && (v <=? max_int64))%Z then v else min_int64
  | S754_infinity _ | S754_nan => min_int64
  end.

(** The type assertion [v.(string)] in its two-result form, applied to a map
    lookup: [None] is ok == false (key absent, or a value of another type). *)
Definition assert_string (v : option JSON) : option string :=
  match v with
  | Some (JString s) => Some s
  | _ => None
  end.

(** [v.(float64)], two-result form. *)
Definition assert_float64 (v : JSON) : option spec_float :=
  match v with
  | JNumber f => Some f
  | _ => None
  end.

(** ** The MCP protocol structures of main.go *)

(** The anonymous struct of handleToolCall. *)
Record ToolCallParams : Type := {
  Name : string;
  Arguments : gmap string JSON
}.

(** json.RawMessage holds the undecoded bytes of the member "params".  Its
    only reader is handleToolCall, through json.Unmarshal into
    [ToolCallParams]; the bytes are represented by what that call makes of
    them: an error ([RawInvalid]: the member is absent, is not an object, or
    holds a member of the wrong type), or the decoded struct (a missing name
    decodes to the empty string, missing arguments to the empty map). *)
Inductive RawMessage : Type :=
  | RawInvalid
  | RawDecodes (params : ToolCallParams).

Definition json_Unmarshal (data : RawMessage) : option ToolCallParams :=
  match data with
  | RawInvalid => None
  | RawDecodes p => Some p
  end.

Record MCPRequest : Type := {
  req_Jsonrpc : string;
  req_ID : JSON;
  Method : string;
  Params : RawMessage
}.

Record MCPError : Type := {
  Code : Z;
  Message : string
}.

Record ToolInputSchema : Type := {
  schema_Type : string;
  Properties : list (string * (string * string)); (* name, type, description *)
  Required : list string
}.

Record Tool : Type := {
  tool_Name : string;
  Description : string;
  InputSchema : ToolInputSchema
}.

(** The values main.go stores in MCPResponse.Result. *)
Inductive ResultValue : Type :=
  | ResultInitialize (protocolVersion serverName serverVersion : string)
  | ResultTools (tools : list Tool)
  | ResultContent (text : string). (* content: [{type: text, text: ...}] *)

Record MCPResponse : Type := {
  Jsonrpc : string;
  ID : JSON;
  Result : option ResultValue;
  Error : option MCPError
}.

Record MySQLConfig : Type := {
  Host : string;
  Port : Z;
  User : string;
  Password : string;
  Database : string
}.

(** ** The database collaborator (database/sql) *)

(** A column value as the driver hands it over.  [VOther] stands for the
    remaining driver types (float64, bool, time.Time), carried with the two
    texts main.go can observe of them: what [%v] prints and what Scan stores
    into a string. *)
Inductive Value : Type :=
  | VNil
  | VBytes (b : string)
  | VString (s : string)
  | VInt64 (n : Z)
  | VOther (printed scanned : string).

Record Rows : Type := {
  rows_Columns : string + list string;  (* rows.Columns(): error text or names *)
  rows_data : list (list Value)        (* the rows rows.Next() steps through *)
}.

Inductive QueryOutcome : Type :=
  | QueryFails (err : string)
  | QueryReturns (rows : Rows).

(** The handle [s.db]: the outcome of db.Query depends on the statement and,
    since the database has state, on the statements sent before. *)
Definition DB : Type := list string -> string -> QueryOutcome.

Record MCPServer : Type := {
  db : DB;
  config : MySQLConfig
}.

(** [fmt.Sprintf("%v", v)] for a non-nil value. *)
Definition fmt_bytes (b : string) : string :=
  "[" +:+ String.concat " "
            (map (fun c => strconv.Itoa (byte_val c)) (list_ascii_of_string b))
      +:+ "]".

Definition fmt_v (v : Value) : string :=
  match v with
  | VNil => "<nil>"
  | VBytes b => fmt_bytes b
  | VString s => s
  | VInt64 n => strconv.Itoa n
  | VOther printed _ => printed
  end.

(** rows.Scan into a *string destination: NULL is refused. *)
Definition scan_string (v : Value) : option string :=
  match v with
  | VNil => None
  | VBytes b => Some b
  | VString s => Some s
  | VInt64 n => Some (strconv.Itoa n)
  | VOther _ scanned => Some scanned
  end.

Definition is_nil (v : Value) : bool :=
  match v with VNil => true | _ => false end.

(** ** The tabular renderer: the second half of executeQuery *)

Definition nl : string := String (ascii_of_nat 10) EmptyString.

(** The rows executeQuery collects: a row that Scan refuses (the number of
    destinations differs from the number of values) is skipped; a []byte
    value is stored as a string. *)
Definition store_value (val : Value) : Value :=
  match val with
  | VBytes b => VString b
  | _ => val
  end.

Definition make_row (columns : list string) (values : list Value)
  : gmap string Value :=
  foldl (fun row cv => <[cv.1 := store_value cv.2]> row) ∅ (zip columns values).

Fixpoint scan_results (columns : list string) (data : list (list Value))
  : list (gmap string Value) :=
  match data with
  | [] => []
  | values :: rest =>
    if (length values =? length columns)%nat
    then make_row columns values :: scan_results columns rest
    else scan_results columns rest
  end.

(** [valueStr] of the width loop: "NULL" for nil, [%v] otherwise. *)
Definition valueStr (row : gmap string Value) (col : string) : string :=
  match row !! col with
  | Some v => if is_nil v then "NULL" else fmt_v v
  | None => "NULL"
  end.

(** [valueStr] of the data-row loop: as above, cut to 27 bytes and "..."
    when it is longer than 30. *)
Definition cellStr (row : gmap string Value) (col : string) : string :=
  match row !! col with
  | Some v =>
    if is_nil v then "NULL"
    else
      let valueStr := fmt_v v in
      if (30 <? String.length valueStr)%nat
      then take_bytes 27 valueStr +:+ "..."
      else valueStr
  | None => "NULL"
  end.

(** [colWidths[col]]: a missing key reads as 0. *)
Definition width_of (colWidths : gmap string nat) (col : string) : nat :=
  default 0%nat (colWidths !! col).

Definition init_widths (columns : list string) : gmap string nat :=
  foldl (fun colWidths col => <[col := String.length col]> colWidths) ∅ columns.

Definition widen (row : gmap string Value) (colWidths : gmap string nat)
  (col : string) : gmap string nat :=
  let valueStr := valueStr row col in
  if (width_of colWidths col <? String.length valueStr)%nat
  then <[col := String.length valueStr]> colWidths
  else colWidths.

Definition compute_widths (columns : list string)
  (results : list (gmap string Value)) : gmap string nat :=
  foldl (fun colWidths row => foldl (widen row) colWidths columns)
        (init_widths columns) results.

(** [if width < 8 { width = 8 }; if width > 30 { width = 30 }]. *)
Definition clamp_width (width : nat) : nat :=
  let width := if (width <? 8)%nat then 8%nat else width in
  if (30 <? width)%nat then 30%nat else width.

Definition header_line (colWidths : gmap string nat) (columns : list string)
  (resultText : string) : string :=
  foldl (fun text col =>
           text +:+ fmt.pad_left_justified (clamp_width (width_of colWidths col)) col
                +:+ " ")
        resultText columns.

Definition total_width (colWidths : gmap string nat) (columns : list string) : nat :=
  foldl (fun totalWidth col =>
           (totalWidth + (clamp_width (width_of colWidths col) + 1))%nat)
        0%nat columns.

Definition data_row (colWidths : gmap string nat) (columns : list string)
  (resultText : string) (row : gmap string Value) : string :=
  foldl (fun text col =>
           text +:+ fmt.pad_left_justified (clamp_width (width_of colWidths col))
                                          (cellStr row col)
                +:+ " ")
        resultText columns
  +:+ nl.

Definition no_rows_line : string := "没有找到数据" +:+ nl.

Definition result_title (n : nat) : string :=
  "查询结果 (" +:+ strconv.Itoa (Z.of_nat n) +:+ " 行):" +:+ nl +:+ nl.

(** The text executeQuery builds from [columns] and [results]. *)
Definition render_result (columns : list string)
  (results : list (gmap string Value)) : string :=
  let resultText := result_title (length results) in
  if (0 <? length results)%nat then
    let colWidths := compute_widths columns results in
    let resultText := header_line colWidths columns resultText +:+ nl in
    let resultText :=
      resultText +:+ strings.Repeat "-" (total_width colWidths columns) +:+ nl in
    foldl (data_row colWidths columns) resultText results
  else
    resultText +:+ no_rows_line.

(** ** Effects: the statements sent to the database *)

(** What a handler does besides computing its response: it evaluates the
    allow-list test of executeQuery on a query ([EvGate]) and it sends a
    statement to the database with db.Query ([EvQuery]).  The trace lists
    these events in the order they happen. *)
Inductive Event : Type :=
  | EvGate (query : string)
  | EvQuery (stmt : string).

Definition Trace : Type := list Event.

Definition statements (t : Trace) : list string :=
  omap (fun e => match e with EvQuery q => Some q | EvGate _ => None end) t.

Definition M (A : Type) : Type := Trace -> A * Trace.

Definition ret {A : Type} (a : A) : M A := fun t => (a, t).

Definition bind {A B : Type} (m : M A) (k : A -> M B) : M B :=
  fun t => let '(a, t') := m t in k a t'.

Notation "x <- m ;; k" := (bind m (fun x => k))
  (at level 100, m at next level, right associativity).

Definition emit (e : Event) : M unit := fun t => (tt, t ++ [e]).

(** [s.db.Query(stmt)]. *)
Definition db_Query (s : MCPServer) (stmt : string) : M QueryOutcome :=
  fun t => (db s (statements t) stmt, t ++ [EvQuery stmt]).

(** ** The handlers of main.go *)

Definition errorResponse (id : JSON) (message : string) : MCPResponse :=
  {| Jsonrpc := "2.0";
     ID := id;
     Result := None;
     Error := Some {| Code := -32603; Message := message |} |}.

Definition contentResponse (id : JSON) (text : string) : MCPResponse :=
  {| Jsonrpc := "2.0";
     ID := id;
     Result := Some (ResultContent text);
     Error := None |}.

Definition listTables_rows (data : list (list Value)) : list string :=
  omap (fun values =>
          match values with
          | [v] => scan_string v
          | _ => None
          end) data.

Definition listTables (s : MCPServer) (id : JSON) : M MCPResponse :=
  out <- db_Query s "SHOW TABLES" ;;
  match out with
  | QueryFails err => ret (errorResponse id ("Database error: " +:+ err))
  | QueryReturns rows =>
    let tables := listTables_rows (rows_data rows) in
    ret (contentResponse id
           ("数据库 '" +:+ Database (config s) +:+ "' 中的表: "
            +:+ strings.Join tables ", "))
  end.

(** [fmt.Sprintf] with the verbs [%-Ns] separated by one space, then a line
    feed. *)
Fixpoint format_columns (cells : list (nat * string)) : string :=
  match cells with
  | [] => nl
  | [(w, s)] => fmt.pad_left_justified w s +:+ nl
  | (w, s) :: rest => fmt.pad_left_justified w s +:+ " " +:+ format_columns rest
  end.

Definition describeTable_row (values : list Value) : option string :=
  match values with
  | [f; t; n; k; defaultValue; extra] =>
    match scan_string f, scan_string t, scan_string n, scan_string k with
    | Some field, Some dataType, Some null, Some key =>
      let defaultStr := if is_nil defaultValue then "NULL" else fmt_v defaultValue in
      let extraStr := if is_nil extra then "" else fmt_v extra in
      Some (format_columns
              [(20%nat, field); (20%nat, dataType); (10%nat, null);
               (10%nat, key); (15%nat, defaultStr); (10%nat, extraStr)])
    | _, _, _, _ => None
    end
  | _ => None
  end.

Definition describeTable (s : MCPServer) (id : JSON) (tableName : string)
  : M MCPResponse :=
  out <- db_Query s ("DESCRIBE " +:+ tableName) ;;
  match out with
  | QueryFails err => ret (errorResponse id ("Database error: " +:+ err))
  | QueryReturns rows =>
    let result := "表 '" +:+ tableName +:+ "' 的结构:" +:+ nl +:+ nl in
    let result :=
      result +:+ format_columns
        [(20%nat, "字段名"); (20%nat, "数据类型"); (10%nat, "是否为空");
         (10%nat, "键"); (15%nat, "默认值"); (10%nat, "额外信息")] in
    let result := result +:+ strings.Repeat "-" 90 +:+ nl in
    let result :=
      foldl (fun result values =>
               match describeTable_row values with
               | Some line => result +:+ line
               | None => result
               end) result (rows_data rows) in
    ret (contentResponse id result)
  end.

Definition showTableIndexes_row (values : list Value) : option string :=
  match values with
  | [t; nu; kn; sq; cn; collation; cardinality; subPart; packed; null;
     indexType; comment; indexComment] =>
    match scan_string t, scan_string nu, scan_string kn, scan_string sq,
          scan_string cn with
    | Some table, Some nonUnique, Some keyName, Some seqInIndex, Some columnName =>
      let unique := if String.eqb nonUnique "0" then "是" else "否" in
      let indexTypeStr := if is_nil indexType then "" else fmt_v indexType in
      Some (format_columns
              [(20%nat, keyName); (15%nat, columnName); (15%nat, unique);
               (15%nat, indexTypeStr); (10%nat, seqInIndex)])
    | _, _, _, _, _ => None
    end
  | _ => None
  end.

Definition showTableIndexes (s : MCPServer) (id : JSON) (tableName : string)
  : M MCPResponse :=
  out <- db_Query s ("SHOW INDEX FROM " +:+ tableName) ;;
  match out with
  | QueryFails err => ret (errorResponse id ("Database error: " +:+ err))
  | QueryReturns rows =>
    let result := "表 '" +:+ tableName +:+ "' 的索引信息:" +:+ nl +:+ nl in
    let result :=
      result +:+ format_columns
        [(20%nat, "索引名"); (15%nat, "列名"); (15%nat, "是否唯一");
         (15%nat, "索引类型"); (10%nat, "序列")] in
    let result := result +:+ strings.Repeat "-" 80 +:+ nl in
    let result :=
      foldl (fun result values =>
               match showTableIndexes_row values with
               | Some line => result +:+ line
               | None => result
               end) result (rows_data rows) in
    ret (contentResponse id result)
  end.

Definition gate_message : string := "只允许执行SELECT、SHOW、DESCRIBE查询".

Section Handlers.

(** The upper-case mapping of the runes above MaxASCII (the table
    unicode.CaseRanges). *)
Variable CaseRanges : rune -> rune.

(** The condition of the safety check of executeQuery: [true] when the query
    is refused. *)
Definition gate_rejects (query : string) : bool :=
  let upperQuery := strings.ToUpper CaseRanges (strings.TrimSpace query) in
  negb (strings.HasPrefix upperQuery "SELECT") &&
  negb (strings.HasPrefix upperQuery "SHOW") &&
  negb (strings.HasPrefix upperQuery "DESCRIBE") &&
  negb (strings.HasPrefix upperQuery "DESC").

Definition executeQuery (s : MCPServer) (id : JSON) (query : string)
  : M MCPResponse :=
  _ <- emit (EvGate query) ;;
  if gate_rejects query then ret (errorResponse id gate_message)
  else
    out <- db_Query s query ;;
    match out with
    | QueryFails err => ret (errorResponse id ("查询错误: " +:+ err))
    | QueryReturns rows =>
      match rows_Columns rows with
      | inl err => ret (errorResponse id ("获取列信息错误: " +:+ err))
      | inr columns =>
        let results := scan_results columns (rows_data rows) in
        ret (contentResponse id (render_result columns results))
      end
    end.

(** The statement queryTable builds, once table_name is known to be a
    string. *)
Definition queryTable_statement (tableName : string) (args : gmap string JSON)
  : string :=
  let limit :=
    match args !! "limit" with
    | Some l =>
      match assert_float64 l with
      | Some lf => int_of_float64 lf
      | None => 10%Z
      end
    | None => 10%Z
    end in
  let query := "SELECT * FROM `" +:+ tableName +:+ "`" in
  let query :=
    match assert_string (args !! "where_clause") with
    | Some whereClause =>
      if negb (String.eqb whereClause "") then query +:+ " WHERE " +:+ whereClause
      else query
    | None => query
    end in
  query +:+ " LIMIT " +:+ strconv.Itoa limit.

Definition queryTable (s : MCPServer) (id : JSON) (args : gmap string JSON)
  : M MCPResponse :=
  match assert_string (args !! "table_name") with
  | None => ret (errorResponse id "table_name is required")
  | Some tableName => executeQuery s id (queryTable_statement tableName args)
  end.

Definition handleToolCall (s : MCPServer) (req : MCPRequest) : M MCPResponse :=
  match json_Unmarshal (Params req) with
  | None =>
    ret {| Jsonrpc := "2.0";
           ID := req_ID req;
           Result := None;
           Error := Some {| Code := -32602; Message := "Invalid params" |} |}
  | Some params =>
    if String.eqb (Name params) "list_tables" then listTables s (req_ID req)
    else if String.eqb (Name params) "describe_table" then
      match assert_string (Arguments params !! "table_name") with
      | None => ret (errorResponse (req_ID req) "table_name is required")
      | Some tableName => describeTable s (req_ID req) tableName
      end
    else if String.eqb (Name params) "query_table" then
      queryTable s (req_ID req) (Arguments params)
    else if String.eqb (Name params) "execute_query" then
      match assert_string (Arguments params !! "query") with
      | None => ret (errorResponse (req_ID req) "query is required")
      | Some query => executeQuery s (req_ID req) query
      end
    else if String.eqb (Name params) "show_table_indexes" then
      match assert_string (Arguments params !! "table_name") with
      | None => ret (errorResponse (req_ID req) "table_name is required")
      | Some tableName => showTableIndexes s (req_ID req) tableName
      end
    else ret (errorResponse (req_ID req) "Unknown tool")
  end.

Definition table_name_property : string * (string * string) :=
  ("table_name", ("string", "表名")).

Definition tools : list Tool :=
  [ {| tool_Name := "list_tables";
       Description := "列出数据库中的所有表";
       InputSchema := {| schema_Type := "object"; Properties := []; Required := [] |} |};
    {| tool_Name := "describe_table";
       Description := "获取指定表的结构信息";
       InputSchema := {| schema_Type := "object";
                         Properties := [table_name_property];
                         Required := ["table_name"] |} |};
    {| tool_Name := "query_table";
       Description := "查询表数据";
       InputSchema := {| schema_Type := "object";
                         Properties :=
                           [table_name_property;
                            ("limit", ("integer", "限制返回行数，默认10"));
                            ("where_clause", ("string", "WHERE条件子句（可选）"))];
                         Required := ["table_name"] |} |};
    {| tool_Name := "execute_query";
       Description := "执行自定义SQL查询（仅SELECT语句）";
       InputSchema := {| schema_Type := "object";
                         Properties := [("query", ("string", "SQL查询语句"))];
                         Required := ["query"] |} |};
    {| tool_Name := "show_table_indexes";
       Description := "显示表的索引信息";
       InputSchema := {| schema_Type := "object";
                         Properties := [table_name_property];
                         Required := ["table_name"] |} |} ].

Definition handleRequest (s : MCPServer) (req : MCPRequest) : M MCPResponse :=
  if String.eqb (Method req) "initialize" then
    ret {| Jsonrpc := "2.0";
           ID := req_ID req;
           Result := Some (ResultInitialize "2024-11-05" "mysql-mcp-server" "1.0.0");
           Error := None |}
  else if String.eqb (Method req) "tools/list" then
    ret {| Jsonrpc := "2.0";
           ID := req_ID req;
           Result := Some (ResultTools tools);
           Error := None |}
  else if String.eqb (Method req) "tools/call" then handleToolCall s req
  else
    ret {| Jsonrpc := "2.0";
           ID := req_ID req;
           Result := None;
           Error := Some {| Code := -32601; Message := "Method not found" |} |}.

End Handlers.

(** ** The session loop: run *)

(** The errors decoder.Decode returns in run. *)
Inductive DecodeError : Type :=
  | ErrEOF                           (* io.EOF *)
  | ErrUnexpectedEOF                 (* io.ErrUnexpectedEOF *)
  | ErrSyntax (detail : string)      (* *json.SyntaxError *)
  | ErrUnmarshalType (detail : string). (* *json.UnmarshalTypeError *)

(** err.Error(). *)
Definition Error_text (e : DecodeError) : string :=
  match e with
  | ErrEOF => "EOF"
  | ErrUnexpectedEOF => "unexpected EOF"
  | ErrSyntax detail => "invalid character " +:+ detail
  | ErrUnmarshalType detail => "json: cannot unmarshal " +:+ detail
  end.

(** Standard input as json.Decoder reads it: a sequence of units, each one
    the bytes the decoder looks at in one call of Decode. *)
Inductive InputUnit : Type :=
  | UnitRequest (req : MCPRequest)  (* a JSON value that decodes into MCPRequest *)
  | UnitMistyped (detail : string)  (* a complete JSON value of the wrong type *)
  | UnitMalformed (detail : string). (* bytes that are not JSON *)

(** json.Decoder.  [dec_err] is its field [err]: Decode returns it at once
    when it is set, and readValue sets it when the scanner reports a syntax
    error or the input ends.  An error of unmarshal is not stored: the value
    was read whole and the next call goes on behind it. *)
Record Decoder : Type := {
  input : list InputUnit;
  truncated : bool;           (* the input ends inside a JSON value *)
  dec_err : option DecodeError
}.

Definition NewDecoder (units : list InputUnit) (truncated : bool) : Decoder :=
  {| input := units; truncated := truncated; dec_err := None |}.

Definition Decode (dec : Decoder) : (DecodeError + MCPRequest) * Decoder :=
  match dec_err dec with
  | Some e => (inl e, dec)
  | None =>
    match input dec with
    | [] =>
      let e := if truncated dec then ErrUnexpectedEOF else ErrEOF in
      (inl e, {| input := []; truncated := truncated dec; dec_err := Some e |})
    | UnitRequest req :: rest =>
      (inr req, {| input := rest; truncated := truncated dec; dec_err := None |})
    | UnitMistyped detail :: rest =>
      (inl (ErrUnmarshalType detail),
       {| input := rest; truncated := truncated dec; dec_err := None |})
    | UnitMalformed detail :: rest =>
      (inl (ErrSyntax detail),
       {| input := input dec; truncated := truncated dec;
          dec_err := Some (ErrSyntax detail) |})
    end
  end.

(** The state of run: the decoder on standard input, the responses encoded
    to standard output, the lines logged, and the database trace. *)
Record Session : Type := {
  decoder : Decoder;
  stdout : list MCPResponse;
  logged : list string;
  trace : Trace
}.

Definition start (units : list InputUnit) (truncated : bool) : Session :=
  {| decoder := NewDecoder units truncated; stdout := []; logged := [];
     trace := [] |}.

Section Run.

Variable CaseRanges : rune -> rune.

(** One pass through the body of the [for] loop of run; [None] is [break].
    encoder.Encode appends the response to standard output (an error of
    Encode would only be logged: the loop goes on either way). *)
Definition iteration (s : MCPServer) (st : Session) : option Session :=
  match Decode (decoder st) with
  | (inl err, dec) =>
    if String.eqb (Error_text err) "EOF" then None
    else Some {| decoder := dec;
                 stdout := stdout st;
                 logged := logged st ++ ["解码请求错误: " +:+ Error_text err];
                 trace := trace st |}
  | (inr req, dec) =>
    let '(response, t) := handleRequest CaseRanges s req (trace st) in
    Some {| decoder := dec;
            stdout := stdout st ++ [response];
            logged := logged st;
            trace := t |}
  end.

(** run, with a bound on the number of passes: [(true, st)] when the loop
    was left within the bound, [(false, st)] when it is still going. *)
Fixpoint run (fuel : nat) (s : MCPServer) (st : Session) : bool * Session :=
  match fuel with
  | O => (false, st)
  | S fuel' =>
    match iteration s st with
    | None => (true, st)
    | Some st' => run fuel' s st'
    end
  end.

End Run.

(** ** Auxiliary definitions for the properties *)

(** A word of ASCII bytes none of which is an ASCII space, such as the
    keywords of the allow-list. *)
Fixpoint ascii_word (p : string) : bool :=
  match p with
  | EmptyString => true
  | String c t =>
    (byte_val c <? utf8.RuneSelf)%Z && negb (strings.asciiSpace (byte_val c))
    && ascii_word t
  end.

(** A response of a tool: a text block or an error of errorResponse, with
    the identifier it was given. *)
Definition tool_answer (id : JSON) (r : MCPResponse) : Prop :=
  (exists text, r = contentResponse id text) \/
  (exists message, r = errorResponse id message).

(** Every statement sent in a trace was the subject of the allow-list check
    of executeQuery earlier in the same trace; [seen] lists the queries
    checked so far. *)
Fixpoint checked_before (seen : list string) (t : Trace) : bool :=
  match t with
  | [] => true
  | EvGate q :: t' => checked_before (q :: seen) t'
  | EvQuery q :: t' => existsb (String.eqb q) seen && checked_before seen t'
  end.

(** The tools with a required argument, and its name. *)
Definition required_argument : list (string * string) :=
  [("describe_table", "table_name"); ("execute_query", "query");
   ("show_table_indexes", "table_name"); ("query_table", "table_name")].

(** The upper-case table left out: the identity on the runes above
    MaxASCII.  It serves where a property is evaluated on ASCII inputs,
    whose handling does not consult the table. *)
Definition no_case_table : rune -> rune := fun r => r.

(** A server whose database refuses every statement. *)
Definition unreachable_server : MCPServer :=
  {| db := fun _ _ => QueryFails "connection refused";
     config := {| Host := "localhost"; Port := 3306; User := "root";
                  Password := ""; Database := "mcp_test" |} |}.

Definition tool_call (id : JSON) (name : string) (args : gmap string JSON)
  : MCPRequest :=
  {| req_Jsonrpc := "2.0"; req_ID := id; Method := "tools/call";
     Params := RawDecodes {| Name := name; Arguments := args |} |}.

(** The renderer as section 4.4 of the specification words it. *)

(** Concatenation of a list of texts. *)
Definition flat (l : list string) : string := foldr String.append EmptyString l.

(** The longest stringified value of a column over all rows. *)
Definition longest_value (results : list (gmap string Value)) (col : string) : nat :=
  foldr (fun row acc => Nat.max (String.length (valueStr row col)) acc) 0%nat results.

(** The width of a column: the longer of its name and its longest value,
    clamped to the interval from 8 to 30. *)
Definition column_width (results : list (gmap string Value)) (col : string) : nat :=
  Nat.min 30 (Nat.max 8 (Nat.max (String.length col) (longest_value results col))).

(** A line of the table: every cell left-justified in its column, each one
    followed by one space. *)
Definition table_line (width : string -> nat) (columns : list string)
  (cell : string -> string) : string :=
  flat (map (fun col => fmt.pad_left_justified (width col) (cell col) +:+ " ") columns).

(** The byte before the last one. *)
Fixpoint penultimate (s : string) : option ascii :=
  match s with
  | EmptyString => None
  | String c EmptyString => None
  | String c (String _ EmptyString) => Some c
  | String _ t => penultimate t
  end.

(** The limit of query_table: the supplied number as an integer, or 10. *)
Definition limit_argument (args : gmap string JSON) : Z :=
  match args !! "limit" with
  | Some (JNumber f) => int_of_float64 f
  | _ => 10%Z
  end.

(** The statement of query_table as the tool table of the specification
    words it: SELECT * FROM <table_name>, then WHERE <where_clause> when a
    where_clause is supplied, then LIMIT <limit>. *)
Definition spec_query_table_statement (tableName : string)
  (args : gmap string JSON) : string :=
  "SELECT * FROM " +:+ tableName
  +:+ match args !! "where_clause" with
      | Some (JString whereClause) => " WHERE " +:+ whereClause
      | _ => ""
      end
  +:+ " LIMIT " +:+ strconv.Itoa (limit_argument args).

(** The WHERE part queryTable adds: for a where_clause that is a string and
    not empty. *)
Definition where_part (args : gmap string JSON) : string :=
  match args !! "where_clause" with
  | Some (JString whereClause) =>
    if String.eqb whereClause "" then "" else " WHERE " +:+ whereClause
  | _ => ""
  end.

(** The lines of a text: the pieces between its line feeds (a text that
    ends with a line feed has an empty last line). *)
Fixpoint lines (s : string) : list string :=
  match s with
  | EmptyString => [EmptyString]
  | String c t =>
    if Ascii.eqb c (ascii_of_nat 10) then EmptyString :: lines t
    else match lines t with
         | l :: ls => String c l :: ls
         | [] => [String c EmptyString]
         end
  end.

Fixpoint has_byte (b : ascii) (s : string) : bool :=
  match s with
  | EmptyString => false
  | String c t => Ascii.eqb c b || has_byte b t
  end.

Definition has_line_feed (s : string) : bool := has_byte (ascii_of_nat 10) s.

(** The line executeQuery writes for a result set without rows. *)
Definition sentinel : string := "没有找到数据".

(** The rows of a result set that rows.Scan accepts: those with as many
    values as there are columns. *)
Definition scanned_rows (columns : list string) (data : list (list Value))
  : list (list Value) :=
  List.filter (fun values => (length values =? length columns)%nat) data.

(** The responses run writes for a sequence of units none of which stops
    the decoder: every request is answered, in order, and a value of the
    wrong type is passed over. *)
Fixpoint serve (CaseRanges : rune -> rune) (s : MCPServer)
  (units : list InputUnit) (t : Trace) : list MCPResponse :=
  match units with
  | [] => []
  | UnitRequest req :: rest =>
    let '(response, t') := handleRequest CaseRanges s req t in
    response :: serve CaseRanges s rest t'
  | _ :: rest => serve CaseRanges s rest t
  end.

Definition is_malformed (u : InputUnit) : bool :=
  match u with UnitMalformed _ => true | _ => false end.

(** Sample inputs, from the testable properties of the specification. *)

Definition users_where_empty : gmap string JSON :=
  <["table_name" := JString "users"]> (<["where_clause" := JString ""]> ∅).

(** The number 2 as a float64: mantissa 2^52, exponent -51. *)
Definition float_two : spec_float := S754_finite false 4503599627370496 (-51).

Definition users_limit_two : gmap string JSON :=
  <["table_name" := JString "users"]> (<["limit" := JNumber float_two]> ∅).

Definition alice_row : gmap string Value :=
  <["id" := VInt64 1]> (<["name" := VString "Alice Smith"]> ∅).

(** A server whose database answers every statement with the column id and
    no row. *)
Definition empty_table_server : MCPServer :=
  {| db := fun _ _ => QueryReturns {| rows_Columns := inr ["id"]; rows_data := [] |};
     config := config unreachable_server |}.

(** A server whose database answers every statement with the columns id and
    name and the row of Alice Smith. *)
Definition alice_table_server : MCPServer :=
  {| db := fun _ _ =>
             QueryReturns {| rows_Columns := inr ["id"; "name"];
                             rows_data := [[VInt64 1; VString "Alice Smith"]] |};
     config := config unreachable_server |}.

(** A server whose database answers every statement with the column note
    and one row, whose value is the text of the sentinel between two line
    feeds. *)
Definition sentinel_value_server : MCPServer :=
  {| db := fun _ _ =>
             QueryReturns {| rows_Columns := inr ["note"];
                             rows_data := [[VString (nl +:+ sentinel +:+ nl)]] |};
     config := config unreachable_server |}.

(** The arguments table_name = users. *)
Definition users_table : gmap string JSON := <["table_name" := JString "users"]> ∅.

(** ** Further auxiliary definitions *)

(** A text made of ASCII space bytes only (the table asciiSpace). *)
Fixpoint ascii_spaces (ws : string) : bool :=
  match ws with
  | EmptyString => true
  | String c t => strings.asciiSpace (byte_val c) && ascii_spaces t
  end.

(** The requests among the units of an input, in order. *)
Definition requests (units : list InputUnit) : list MCPRequest :=
  omap (fun u => match u with UnitRequest req => Some req | _ => None end) units.

(** The lines run logs for the values of the wrong type of an input. *)
Definition mistyped_log (units : list InputUnit) : list string :=
  omap (fun u =>
          match u with
          | UnitMistyped detail =>
            Some ("解码请求错误: " +:+ Error_text (ErrUnmarshalType detail))
          | _ => None
          end) units.

(** A decoder that will never report a clean end of input: it holds an
    error other than io.EOF, or its input is cut inside a value or holds
    bytes that are not JSON. *)
Definition never_ends (dec : Decoder) : bool :=
  match dec_err dec with
  | Some e => negb (String.eqb (Error_text e) "EOF")
  | None => truncated dec || existsb is_malformed (input dec)
  end.

(** Boolean comparisons in the hypotheses, turned into propositions. *)
Ltac bool_hyps :=
  repeat match goal with
  | H : (_ <? _)%nat = true |- _ => apply Nat.ltb_lt in H
  | H : (_ <? _)%nat = false |- _ => apply Nat.ltb_ge in H
  | H : (_ <=? _)%nat = true |- _ => apply Nat.leb_le in H
  | H : (_ <=? _)%nat = false |- _ => apply Nat.leb_gt in H
  | H : (_ <? _)%Z = true |- _ => apply Z.ltb_lt in H
  | H : (_ <? _)%Z = false |- _ => apply Z.ltb_ge in H
  | H : (_ <=? _)%Z = true |- _ => apply Z.leb_le in H
  | H : (_ <=? _)%Z = false |- _ => apply Z.leb_gt in H
  | H : (_ =? _)%Z = true |- _ => apply Z.eqb_eq in H
  | H : (_ =? _)%Z = false |- _ => apply Z.eqb_neq in H
  | H : negb _ = true |- _ => apply negb_true_iff in H
  | H : negb _ = false |- _ => apply negb_false_iff in H
  | H : _ && _ = true |- _ => apply andb_true_iff in H as [? ?]
  | H : _ || _ = false |- _ => apply orb_false_iff in H as [? ?]
  | H : _ && _ = false |- _ => apply andb_false_iff in H as [?|?]
  | H : _ || _ = true |- _ => apply orb_true_iff in H as [?|?]
  end.

(** * Start-up: the configuration, the connection and the sample tables *)

(** ** Package os *)

Module os.

(** The environment of the process.  os.Getenv gives the empty string for a
    variable that is not set. *)
Abbreviation Environ := (gmap string string) (only parsing).

Definition Getenv (env : Environ) (key : string) : string :=
  default EmptyString (env !! key).

End os.

(** ** strconv.Atoi *)

(** The value of a decimal digit, [ch - '0'] with [ch <= 9]. *)
Definition digit (ch : ascii) : option Z :=
  let b := byte_val ch in
  if ((48 <=? b) && (b <=? 57))%Z then Some (b - 48)%Z else None.

(** The loop [n = n*10 + int(ch)] over the bytes of [s]; [None] is the
    syntax error of a byte that is no digit. *)
Fixpoint digits (n : Z) (s : string) : option Z :=
  match s with
  | EmptyString => Some n
  | String ch t =>
    match digit ch with
    | Some d => digits (n * 10 + d)%Z t
    | None => None
    end
  end.

(** strconv.Atoi(s): [Some n] when the error is nil, [None] when it is not
    (a syntax error: no digit, or a byte that is no digit after the optional
    sign; a range error: the number does not fit an int of 64 bits). *)
Definition strconv_Atoi (s0 : string) : option Z :=
  match s0 with
  | EmptyString => None
  | String c t =>
    (* if s[0] == '-' || s[0] == '+' { s = s[1:] } *)
    let s := if Ascii.eqb c "-" || Ascii.eqb c "+" then t else s0 in
    match s with
    | EmptyString => None
    | _ =>
      match digits 0 s with
      | None => None
      | Some un =>
        if Ascii.eqb c "-"
        then (if (2 ^ 63 <? un)%Z then None else Some (- un)%Z)
        else (if (2 ^ 63 <=? un)%Z then None else Some un)
      end
    end
  end.

(** ** loadConfig *)

Definition getEnv (env : os.Environ) (key defaultValue : string) : string :=
  let value := os.Getenv env key in
  if negb (String.eqb value "") then value else defaultValue.

Definition getEnvInt (env : os.Environ) (key : string) (defaultValue : Z) : Z :=
  let value := os.Getenv env key in
  if negb (String.eqb value "") then
    match strconv_Atoi value with
    | Some intValue => intValue
    | None => defaultValue
    end
  else defaultValue.

Definition loadConfig (env : os.Environ) : MySQLConfig :=
  {| Host := getEnv env "MYSQL_HOST" "localhost";
     Port := getEnvInt env "MYSQL_PORT" 3306;
     User := getEnv env "MYSQL_USER" "root";
     Password := getEnv env "MYSQL_PASSWORD" "Aa130069711";
     Database := getEnv env "MYSQL_DATABASE" "mcp_test" |}.

(** ** The driver: database/sql with go-sql-driver/mysql *)

(** The handle sql.Open returns.  db.Ping gives an error or none; the error
    of db.Exec depends on the statement and on the statements sent before;
    db.Query answers as the database stands after the statements that were
    executed. *)
Record Handle : Type := {
  Ping : option string;
  Exec : list string -> string -> option string;
  Query : list string -> DB
}.

(** sql.Open(driverName, dataSourceName): an error text or a handle. *)
Definition Driver : Type := string -> string -> string + Handle.

(** The connection string:
    [%s:%s@tcp(%s:%d)/%s?charset=utf8mb4&parseTime=true]. *)
Definition dsn (c : MySQLConfig) : string :=
  User c +:+ ":" +:+ Password c +:+ "@tcp(" +:+ Host c +:+ ":"
  +:+ strconv.Itoa (Port c) +:+ ")/" +:+ Database c
  +:+ "?charset=utf8mb4&parseTime=true".

(** ** createSampleTables *)

(** The four statements, as the raw string literals of main.go spell them. *)
Definition create_users_table : string :=
  "
		CREATE TABLE IF NOT EXISTS users (
			id INT AUTO_INCREMENT PRIMARY KEY,
			name VARCHAR(100) NOT NULL,
			email VARCHAR(100) UNIQUE NOT NULL,
			age INT,
			created_at TIMESTAMP DEFAULT CURRENT_TIMESTAMP
		) ENGINE=InnoDB DEFAULT CHARSET=utf8mb4
	".

Definition create_orders_table : string :=
  "
		CREATE TABLE IF NOT EXISTS orders (
			id INT AUTO_INCREMENT PRIMARY KEY,
			user_id INT,
			product_name VARCHAR(200) NOT NULL,
			amount DECIMAL(10,2),
			status VARCHAR(50) DEFAULT 'pending',
			created_at TIMESTAMP DEFAULT CURRENT_TIMESTAMP,
			FOREIGN KEY (user_id) REFERENCES users(id) ON DELETE CASCADE
		) ENGINE=InnoDB DEFAULT CHARSET=utf8mb4
	".

Definition insert_users : string :=
  "
		INSERT IGNORE INTO users (id, name, email, age) VALUES 
		(1, 'Alice Smith', 'alice@example.com', 30),
		(2, 'Bob Johnson', 'bob@example.com', 25),
		(3, 'Carol Brown', 'carol@example.com', 35)
	".

Definition insert_orders : string :=
  "
		INSERT IGNORE INTO orders (id, user_id, product_name, amount, status) VALUES 
		(1, 1, 'Laptop', 999.99, 'completed'),
		(2, 1, 'Mouse', 29.99, 'pending'),
		(3, 2, 'Keyboard', 79.99, 'completed'),
		(4, 3, 'Monitor', 299.99, 'shipped')
	".

(** [s.db.Exec(stmt)]: the statement joins the ones sent, whatever comes
    of it. *)
Definition db_Exec (h : Handle) (stmt : string) (sent : list string)
  : option string * list string :=
  (Exec h sent stmt, sent ++ [stmt]).

Definition createSampleTables (h : Handle) (sent : list string)
  : option string * list string :=
  let '(err, sent) := db_Exec h create_users_table sent in
  match err with
  | Some e => (Some e, sent)
  | None =>
    let '(err, sent) := db_Exec h create_orders_table sent in
    match err with
    | Some e => (Some e, sent)
    | None =>
      let '(err, sent) := db_Exec h insert_users sent in
      match err with
      | Some e => (Some e, sent)
      | None => db_Exec h insert_orders sent
      end
    end
  end.

(** ** initDatabase *)

(** The server after initDatabase, and what the call did. *)
Record Init : Type := {
  init_err : option string;     (* the error initDatabase returns *)
  init_config : MySQLConfig;    (* s.config *)
  init_db : option Handle;      (* s.db: nil when sql.Open failed *)
  init_sent : list string;      (* the statements passed to db.Exec *)
  init_log : list string        (* the lines of log.Printf *)
}.

Definition initDatabase (sql_Open : Driver) (env : os.Environ) : Init :=
  let config := loadConfig env in
  match sql_Open "mysql" (dsn config) with
  | inl err =>
    {| init_err := Some ("连接数据库失败: " +:+ err);
       init_config := config; init_db := None;
       init_sent := []; init_log := [] |}
  | inr h =>
    match Ping h with
    | Some err =>
      {| init_err := Some ("数据库连接测试失败: " +:+ err);
         init_config := config; init_db := Some h;
         init_sent := []; init_log := [] |}
    | None =>
      let '(err, sent) := createSampleTables h [] in
      {| init_err := None;
         init_config := config; init_db := Some h;
         init_sent := sent;
         init_log := match err with
                     | Some e => ["创建示例表失败: " +:+ e]
                     | None => []
                     end |}
    end
  end.

(** ** main *)

(** How the process stands: log.Fatalf has ended it with status 1, main has
    returned, the loop of run is still going at the bound, or the handle
    that run would use is nil. *)
Inductive Exit : Type :=
  | Fatal
  | Returned
  | Looping
  | NilHandle.

Record Process : Type := {
  exit : Exit;
  proc_stdout : list MCPResponse;  (* the responses written *)
  proc_log : list string;          (* the lines logged *)
  proc_sent : list string;         (* the statements passed to db.Exec *)
  proc_trace : Trace;              (* the trace of the tool calls *)
  closed : bool                    (* the deferred db.Close() has run *)
}.

Section Main.

Variable CaseRanges : rune -> rune.

Definition main (sql_Open : Driver) (env : os.Environ)
  (units : list InputUnit) (truncated : bool) (fuel : nat) : Process :=
  let init := initDatabase sql_Open env in
  match init_err init with
  | Some err =>
    {| exit := Fatal; proc_stdout := [];
       proc_log := init_log init ++ ["初始化数据库失败: " +:+ err];
       proc_sent := init_sent init; proc_trace := []; closed := false |}
  | None =>
    let log :=
      init_log init
      ++ ["MySQL MCP Server 启动...";
          "连接到: " +:+ Host (init_config init) +:+ ":"
          +:+ strconv.Itoa (Port (init_config init)) +:+ "/"
          +:+ Database (init_config init)] in
    match init_db init with
    | None =>
      {| exit := NilHandle; proc_stdout := []; proc_log := log;
         proc_sent := init_sent init; proc_trace := []; closed := false |}
    | Some h =>
      let server := {| db := Query h (init_sent init);
                       config := init_config init |} in
      let '(ended, session) :=
        run CaseRanges fuel server (start units truncated) in
      {| exit := if ended then Returned else Looping;
         proc_stdout := stdout session;
         proc_log := log ++ logged session;
         proc_sent := init_sent init;
         proc_trace := trace session;
         closed := ended |}
    end
  end.

End Main.

(** ** Auxiliary definitions for the start-up *)

(** The statements of createSampleTables, in the order of the source. *)
Definition sample_statements : list string :=
  [create_users_table; create_orders_table; insert_users; insert_orders].

(** The statement at position [k]. *)
Definition sample_statement (k : nat) : string :=
  nth k sample_statements EmptyString.

(** Sample inputs for the start-up and for the renderer. *)

(** A handle whose connection works and whose database refuses every
    query, as [unreachable_server] does. *)
Definition sample_handle : Handle :=
  {| Ping := None;
     Exec := fun _ _ => None;
     Query := fun _ => db unreachable_server |}.

Definition sample_driver : Driver := fun _ _ => inr sample_handle.

(** A row whose name is written in two characters of three bytes each. *)
Definition li_lei_row : gmap string Value := <["name" := VString "李雷"]> ∅.

(** A request of the method tools/list. *)
Definition tools_list_request : MCPRequest :=
  {| req_Jsonrpc := "2.0"; req_ID := JString "1"; Method := "tools/list";
     Params := RawInvalid |}.
(** * Properties *)

(** ** Strings and bytes *)

Lemma append_cons (c : ascii) (a b : string) :
  String c a +:+ b = String c (a +:+ b).
Proof. reflexivity. Qed.

Lemma append_nil_l (b : string) : "" +:+ b = b.
Proof. reflexivity. Qed.

Lemma append_nil_r (a : string) : a +:+ "" = a.
Proof. induction a as [|c a IH]; [reflexivity|]. rewrite append_cons, IH. reflexivity. Qed.

Lemma append_assoc (a b c : string) : (a +:+ b) +:+ c = a +:+ (b +:+ c).
Proof.
  induction a as [|x a IH]; [reflexivity|].
  rewrite !append_cons, IH. reflexivity.
Qed.

Lemma length_append (a b : string) :
  String.length (a +:+ b) = (String.length a + String.length b)%nat.
Proof.
  induction a as [|x a IH]; [reflexivity|].
  rewrite append_cons. simpl. rewrite IH. reflexivity.
Qed.

Lemma prefix_append (p s : string) : String.prefix p (p +:+ s) = true.
Proof.
  induction p as [|c p IH]; [destruct s; reflexivity|].
  rewrite append_cons. simpl. destruct (ascii_dec c c); [exact IH|congruence].
Qed.

Lemma prefix_append_l (p q s : string) :
  String.prefix p q = true -> String.prefix p (q +:+ s) = true.
Proof.
  revert q. induction p as [|c p IH]; intros q H.
  - destruct (q +:+ s); reflexivity.
  - destruct q as [|d q]; [discriminate|].
    rewrite append_cons. simpl in *.
    destruct (ascii_dec c d); [auto|discriminate].
Qed.

Lemma get_append_l (i : nat) (a b : string) :
  (i < String.length a)%nat -> String.get i (a +:+ b) = String.get i a.
Proof.
  revert i. induction a as [|c a IH]; intros i H; simpl in H; [lia|].
  rewrite append_cons. destruct i; simpl; [reflexivity|]. apply IH. lia.
Qed.

Lemma get_drop_bytes (n j : nat) (s : string) :
  String.get j (drop_bytes n s) = String.get (n + j) s.
Proof.
  revert s. induction n as [|n IH]; intros s; [reflexivity|].
  destruct s as [|c s]; simpl; [destruct j; reflexivity|]. apply IH.
Qed.

Lemma take_bytes_append (n : nat) (a b : string) :
  (String.length a <= n)%nat ->
  take_bytes n (a +:+ b) = a +:+ take_bytes (n - String.length a) b.
Proof.
  revert n. induction a as [|c a IH]; intros n H; simpl in *.
  - rewrite !append_nil_l. f_equal. lia.
  - destruct n; [lia|]. rewrite !append_cons. simpl. f_equal. apply IH. lia.
Qed.

Lemma length_take_bytes (n : nat) (s : string) :
  String.length (take_bytes n s) = Nat.min n (String.length s).
Proof.
  revert s. induction n as [|n IH]; intros [|c s]; simpl; auto.
Qed.

Lemma length_Repeat_char (c : ascii) (n : nat) :
  String.length (strings.Repeat (String c "") n) = n.
Proof.
  induction n as [|n IH]; [reflexivity|].
  change (strings.Repeat (String c "") (S n))
    with (String c (strings.Repeat (String c "") n)).
  simpl. rewrite IH. reflexivity.
Qed.

Lemma byte_val_range (c : ascii) : (0 <= byte_val c < 256)%Z.
Proof.
  unfold byte_val. pose proof (N_ascii_bounded c) as H. lia.
Qed.

Lemma byte_chr_val (c : ascii) : byte_chr (byte_val c) = c.
Proof.
  unfold byte_chr, byte_val. pose proof (N_ascii_bounded c) as H.
  rewrite Z.mod_small by lia. rewrite N2Z.id. apply ascii_N_embedding.
Qed.

(** ** The safety check on queries that begin with a keyword *)

Lemma get_Some_lt (i : nat) (s : string) :
  (i < String.length s)%nat -> exists c, String.get i s = Some c.
Proof.
  revert i. induction s as [|c s IH]; intros i H; simpl in H; [lia|].
  destruct i; simpl; [eauto|]. apply IH. lia.
Qed.

Lemma ascii_word_get (p : string) (i : nat) (c : ascii) :
  ascii_word p = true -> String.get i p = Some c ->
  (byte_val c < utf8.RuneSelf)%Z /\ strings.asciiSpace (byte_val c) = false.
Proof.
  revert i. induction p as [|d p IH]; intros i Hp Hg; [destruct i; discriminate|].
  simpl in Hp. apply andb_true_iff in Hp as [Hp1 Hp].
  apply andb_true_iff in Hp1 as [Ha Hs].
  destruct i; simpl in Hg.
  - inversion Hg; subst. split; [lia|]. destruct (strings.asciiSpace _); [discriminate|reflexivity].
  - eauto.
Qed.

Lemma scan_stop_keeps (p rest : string) :
  p <> "" -> ascii_word p = true ->
  exists k, strings.scan_stop (p +:+ rest) = strings.ScanDone (p +:+ k)
         \/ strings.scan_stop (p +:+ rest) = strings.ScanNonASCII (p +:+ k).
Proof.
  induction p as [|c p IH]; intros Hne Hp; [congruence|].
  simpl in Hp. apply andb_true_iff in Hp as [Hp1 Hp].
  apply andb_true_iff in Hp1 as [Ha Hs].
  rewrite append_cons. simpl.
  destruct p as [|d p].
  - rewrite append_nil_l.
    destruct (strings.scan_stop rest) as [|k|k].
    + exists "". left.
      destruct (utf8.RuneSelf <=? byte_val c)%Z eqn:E; [lia|].
      destruct (strings.asciiSpace (byte_val c)); [discriminate|reflexivity].
    + exists k. left. reflexivity.
    + exists k. right. reflexivity.
  - destruct IH as [k [H|H]]; [congruence|exact Hp| |]; rewrite H; exists k;
      rewrite !append_cons; auto.
Qed.

Lemma first_Some (b : Z) (sz : nat) (lo hi : Z) :
  utf8.first b = Some (sz, lo, hi) ->
  (0xC2 <= b)%Z /\ (2 <= sz <= 4)%nat /\ (0x80 <= lo)%Z.
Proof.
  unfold utf8.first.
  repeat match goal with
  | |- context [if ?c then _ else _] => destruct c eqn:?
  end; intros H; inversion H; subst; lia.
Qed.

Lemma DecodeRune_multi (s : string) (j : nat) :
  (2 <= snd (utf8.DecodeRuneInString s))%nat ->
  (j < snd (utf8.DecodeRuneInString s))%nat ->
  exists c, String.get j s = Some c /\ (utf8.RuneSelf <= byte_val c)%Z.
Proof.
  destruct s as [|c0 t0]; [simpl; lia|].
  unfold utf8.DecodeRuneInString.
  destruct (byte_val c0 <? utf8.RuneSelf)%Z eqn:H0; [simpl; lia|].
  apply Z.ltb_ge in H0.
  destruct (utf8.first (byte_val c0)) as [[[sz lo] hi]|] eqn:Hf; [|simpl; lia].
  apply first_Some in Hf as (_ & Hsz & Hlo).
  destruct (String.length (String c0 t0) <? sz)%nat eqn:Hl; [simpl; lia|].
  destruct t0 as [|c1 t1]; [simpl; lia|].
  destruct ((byte_val c1 <? lo) || (hi <? byte_val c1))%Z eqn:H1; [simpl; lia|].
  apply orb_false_iff in H1 as [H1 _]. apply Z.ltb_ge in H1.
  destruct (sz <=? 2)%nat.
  { simpl. intros _ Hj. destruct j as [|[|j]]; simpl; [eauto|eexists; split; eauto; unfold utf8.RuneSelf; lia|lia]. }
  destruct t1 as [|c2 t2]; [simpl; lia|].
  destruct (utf8.is_cont (byte_val c2)) eqn:H2; [|simpl; lia].
  apply andb_true_iff in H2 as [H2 _]. apply Z.leb_le in H2.
  simpl negb. cbv iota.
  destruct (sz <=? 3)%nat.
  { simpl. intros _ Hj.
    destruct j as [|[|[|j]]]; simpl; [eauto|eexists; split; eauto; unfold utf8.RuneSelf; lia|eauto|lia]. }
  destruct t2 as [|c3 t3]; [simpl; lia|].
  destruct (utf8.is_cont (byte_val c3)) eqn:H3; [|simpl; lia].
  apply andb_true_iff in H3 as [H3 _]. apply Z.leb_le in H3.
  simpl. intros _ Hj.
  destruct j as [|[|[|[|j]]]]; simpl; [eauto|eexists; split; eauto; unfold utf8.RuneSelf; lia|eauto|eauto|lia].
Qed.

(** The last rune: its width, and when it is wider than one byte, all its
    bytes are at or above RuneSelf. *)
Lemma DecodeLastRune_spec (s : string) (r : rune) (size : nat) :
  s <> "" -> utf8.DecodeLastRuneInString s = (r, size) ->
  (1 <= size <= String.length s)%nat /\
  ((2 <= size)%nat -> forall j, (String.length s - size <= j < String.length s)%nat ->
     exists c, String.get j s = Some c /\ (utf8.RuneSelf <= byte_val c)%Z) /\
  (size = 1%nat -> forall c, String.get (String.length s - 1) s = Some c ->
     (byte_val c < utf8.RuneSelf)%Z -> r = byte_val c).
Proof.
  intros Hne. unfold utf8.DecodeLastRuneInString.
  destruct (String.length s) as [|start0] eqn:He.
  { destruct s; [congruence|discriminate]. }
  destruct (get_Some_lt start0 s) as [c Hc]; [lia|]. rewrite Hc.
  destruct (byte_val c <? utf8.RuneSelf)%Z eqn:Hasc.
  { intros H; inversion H; subst. split; [lia|]. split; [lia|].
    intros _ c' Hc'. replace (S start0 - 1)%nat with start0 in Hc' by lia.
    congruence. }
  apply Z.ltb_ge in Hasc.
  match goal with
  | |- context [utf8.DecodeRuneInString (drop_bytes ?st s)] => set (start := st)
  end.
  assert (Hstart : (start < S start0)%nat).
  { subst start.
    repeat match goal with
    | |- context [if ?c then _ else _] => destruct c
    end; lia. }
  clearbody start.
  destruct (utf8.DecodeRuneInString (drop_bytes start s)) as [r' size'] eqn:Hd.
  destruct (start + size' =? S start0)%nat eqn:Hs.
  - apply Nat.eqb_eq in Hs. intros H; inversion H; subst r' size'.
    split; [lia|]. split.
    + intros H2 j Hj.
      destruct (DecodeRune_multi (drop_bytes start s) (j - start)) as [d [Hg Hd2]].
      * rewrite Hd. simpl. lia.
      * rewrite Hd. simpl. lia.
      * rewrite get_drop_bytes in Hg. replace (start + (j - start))%nat with j in Hg by lia.
        eauto.
    + intros -> c' Hc'. replace (S start0 - 1)%nat with start0 in Hc' by lia.
      assert (c' = c) by congruence. subst. lia.
  - intros H; inversion H; subst. split; [lia|]. split; [lia|].
    intros _ c' Hc'. replace (S start0 - 1)%nat with start0 in Hc' by lia.
    assert (c' = c) by congruence. subst. lia.
Qed.

Lemma ascii_not_IsSpace (b : Z) :
  (0 <= b < utf8.RuneSelf)%Z -> strings.asciiSpace b = false ->
  unicode.IsSpace b = false.
Proof.
  unfold unicode.IsSpace, strings.asciiSpace, unicode.MaxLatin1, utf8.RuneSelf.
  intros Hb H.
  destruct ((0 <=? b) && (b <=? 255))%Z eqn:E.
  - repeat (apply orb_false_iff in H as [H ?]).
    repeat (apply orb_false_iff; split); try assumption; apply Z.eqb_neq; lia.
  - apply andb_false_iff in E as [E|E]; [apply Z.leb_gt in E|apply Z.leb_gt in E]; lia.
Qed.

(** Reading from the end, the scan for the last rune that is not white space
    stops behind a word of ASCII letters at the latest. *)
Lemma lastIndexNotSpace_word (p : string) :
  p <> "" -> ascii_word p = true ->
  forall (fuel : nat) (k : string),
    (String.length (p +:+ k) <= fuel)%nat ->
    exists i, strings.lastIndexNotSpace_fuel fuel (p +:+ k) = Some i /\
              (String.length p <= S i)%nat /\ (i < String.length (p +:+ k))%nat.
Proof.
  intros Hne Hp fuel.
  induction fuel as [|fuel IH]; intros k Hlen.
  { destruct p; [congruence|]. rewrite append_cons in Hlen. simpl in Hlen. lia. }
  assert (Hpl : (1 <= String.length p)%nat).
  { destruct p; [congruence|simpl; lia]. }
  assert (Hs : p +:+ k <> "").
  { destruct p; [congruence|]. rewrite append_cons. discriminate. }
  simpl.
  destruct (p +:+ k) as [|c0 s0] eqn:Es; [congruence|]. rewrite <- Es in *.
  destruct (utf8.DecodeLastRuneInString (p +:+ k)) as [r size] eqn:Hd.
  destruct (DecodeLastRune_spec _ _ _ Hs Hd) as (Hsz & Hmulti & Hone).
  rewrite length_append in *.
  (* the last rune lies within k, unless k is empty *)
  assert (Hin : (size <= String.length k)%nat \/
                (k = "" /\ size = 1%nat /\ unicode.IsSpace r = false)).
  { destruct (Nat.le_gt_cases size (String.length k)) as [?|Hgt]; [left; assumption|].
    right.
    destruct (get_Some_lt (String.length p - 1) p) as [c Hc]; [lia|].
    destruct (ascii_word_get _ _ _ Hp Hc) as [Hca Hcs].
    destruct (Nat.le_gt_cases 2 size) as [H2|H1].
    - destruct (Hmulti H2 (String.length p - 1)%nat) as [d [Hg Hd2]]; [lia|].
      rewrite get_append_l in Hg by lia. assert (d = c) by congruence. subst. lia.
    - assert (size = 1%nat) by lia. subst size.
      assert (String.length k = 0%nat) by lia.
      assert (k = "") by (destruct k; [reflexivity|discriminate]). subst k.
      split; [reflexivity|]. split; [reflexivity|].
      rewrite (Hone eq_refl c).
      + apply ascii_not_IsSpace; [pose proof (byte_val_range c); lia|assumption].
      + rewrite get_append_l by (simpl in *; lia). simpl. rewrite Nat.add_0_r. exact Hc.
      + exact Hca. }
  destruct Hin as [Hin|(-> & -> & Hns)].
  - destruct (unicode.IsSpace r).
    + rewrite take_bytes_append by lia.
      destruct (IH (take_bytes (String.length p + String.length k - size
                                - String.length p) k)) as (i & Hi & Hi1 & Hi2).
      { rewrite length_append, length_take_bytes. lia. }
      exists i. split; [exact Hi|]. split; [exact Hi1|].
      rewrite length_append, length_take_bytes in Hi2. lia.
    + eexists. split; [reflexivity|]. lia.
  - rewrite Hns. eexists. split; [reflexivity|]. simpl. lia.
Qed.

Lemma TrimRightSpace_word (p k : string) :
  p <> "" -> ascii_word p = true ->
  exists k', strings.TrimRightSpace (p +:+ k) = p +:+ k'.
Proof.
  intros Hne Hp. unfold strings.TrimRightSpace.
  destruct (lastIndexNotSpace_word p Hne Hp _ k (Nat.le_refl _)) as (i & Hi & Hi1 & Hi2).
  rewrite Hi.
  destruct (get_Some_lt i (p +:+ k) Hi2) as [c Hc]. rewrite Hc.
  destruct (byte_val c <? utf8.RuneSelf)%Z eqn:Hasc.
  - rewrite take_bytes_append by lia. eauto.
  - apply Z.ltb_ge in Hasc.
    assert (String.length p <= i)%nat.
    { destruct (Nat.le_gt_cases (String.length p) i) as [?|Hlt]; [assumption|].
      rewrite get_append_l in Hc by lia.
      destruct (ascii_word_get _ _ _ Hp Hc). lia. }
    rewrite take_bytes_append by lia. eauto.
Qed.

Lemma TrimSpace_word (p rest : string) :
  p <> "" -> ascii_word p = true ->
  exists k, strings.TrimSpace (p +:+ rest) = p +:+ k.
Proof.
  intros Hne Hp.
  destruct (scan_stop_keeps p rest Hne Hp) as [k Hk].
  destruct p as [|c p]; [congruence|].
  pose proof Hp as Hp'.
  simpl in Hp. apply andb_true_iff in Hp as [Hp1 _].
  apply andb_true_iff in Hp1 as [Ha Hs].
  apply Z.ltb_lt in Ha. apply negb_true_iff in Hs.
  rewrite append_cons. rewrite append_cons in Hk.
  cbn [strings.TrimSpace].
  destruct (utf8.RuneSelf <=? byte_val c)%Z eqn:E; [apply Z.leb_le in E; lia|].
  rewrite Hs.
  destruct Hk as [Hk|Hk]; rewrite Hk.
  - exists k. reflexivity.
  - apply (TrimRightSpace_word (String c p) k); assumption.
Qed.

Lemma upperASCII_append (a b : string) :
  strings.upperASCII (a +:+ b) = strings.upperASCII a +:+ strings.upperASCII b.
Proof.
  induction a as [|c a IH]; [reflexivity|].
  rewrite append_cons. simpl. rewrite IH. reflexivity.
Qed.

Lemma Map_ascii_cons (f : rune -> rune) (c : ascii) (t : string) :
  (byte_val c < utf8.RuneSelf)%Z ->
  strings.Map f (String c t) =
  (if (f (byte_val c) <? 0)%Z then strings.Map f t
   else utf8.EncodeRune (f (byte_val c)) +:+ strings.Map f t).
Proof.
  intros Hc. unfold strings.Map, utf8.range.
  simpl String.length. cbn [utf8.range_fuel].
  unfold utf8.DecodeRuneInString.
  apply Z.ltb_lt in Hc. rewrite Hc. reflexivity.
Qed.

Lemma EncodeRune_ToUpper_ascii (CaseRanges : rune -> rune) (c : ascii) :
  (byte_val c < utf8.RuneSelf)%Z ->
  (unicode.ToUpper CaseRanges (byte_val c) <? 0)%Z = false /\
  utf8.EncodeRune (unicode.ToUpper CaseRanges (byte_val c)) =
  strings.upperASCII (String c "").
Proof.
  intros Hc. pose proof (byte_val_range c) as Hr.
  unfold unicode.ToUpper, unicode.MaxASCII, utf8.RuneSelf in *.
  destruct (byte_val c <=? 127)%Z eqn:E; [|apply Z.leb_gt in E; lia].
  simpl strings.upperASCII.
  destruct ((97 <=? byte_val c)%Z && (byte_val c <=? 122)%Z) eqn:El.
  - apply andb_true_iff in El as [E1 E2].
    apply Z.leb_le in E1. apply Z.leb_le in E2.
    split; [apply Z.ltb_ge; lia|].
    unfold utf8.EncodeRune.
    destruct ((0 <=? byte_val c - 32) && (byte_val c - 32 <=? 127))%Z eqn:E3;
      [reflexivity|].
    apply andb_false_iff in E3 as [E3|E3]; apply Z.leb_gt in E3; lia.
  - split; [apply Z.ltb_ge; lia|].
    unfold utf8.EncodeRune.
    destruct ((0 <=? byte_val c) && (byte_val c <=? 127))%Z eqn:E3.
    + rewrite byte_chr_val. reflexivity.
    + apply andb_false_iff in E3 as [E3|E3]; apply Z.leb_gt in E3; lia.
Qed.

Lemma Map_ToUpper_ascii_prefix (CaseRanges : rune -> rune) (p rest : string) :
  strings.isASCII p = true ->
  strings.Map (unicode.ToUpper CaseRanges) (p +:+ rest) =
  strings.upperASCII p +:+ strings.Map (unicode.ToUpper CaseRanges) rest.
Proof.
  induction p as [|c p IH]; intros Hp; [reflexivity|].
  simpl in Hp. apply andb_true_iff in Hp as [Hc Hp]. apply Z.ltb_lt in Hc.
  rewrite append_cons, Map_ascii_cons by assumption.
  destruct (EncodeRune_ToUpper_ascii CaseRanges c Hc) as [Hn He].
  rewrite Hn, He, IH by assumption. reflexivity.
Qed.

Lemma ToUpper_ascii_prefix (CaseRanges : rune -> rune) (p rest : string) :
  strings.isASCII p = true ->
  exists k, strings.ToUpper CaseRanges (p +:+ rest) = strings.upperASCII p +:+ k.
Proof.
  intros Hp. unfold strings.ToUpper.
  destruct (strings.isASCII (p +:+ rest)).
  - rewrite upperASCII_append. eauto.
  - rewrite Map_ToUpper_ascii_prefix by assumption. eauto.
Qed.

Lemma ascii_word_isASCII (p : string) : ascii_word p = true -> strings.isASCII p = true.
Proof.
  induction p as [|c p IH]; [reflexivity|]. simpl.
  intros H. apply andb_true_iff in H as [H1 H2].
  apply andb_true_iff in H1 as [H1 _]. rewrite H1, IH by assumption. reflexivity.
Qed.

(** A query that begins with one of the four keywords passes the check of
    executeQuery, whatever follows the keyword. *)
Lemma gate_accepts_keyword (CaseRanges : rune -> rune) (kw rest : string) :
  In kw ["SELECT"; "SHOW"; "DESCRIBE"; "DESC"] ->
  gate_rejects CaseRanges (kw +:+ rest) = false.
Proof.
  intros Hkw.
  assert (Hw : kw <> "" /\ ascii_word kw = true).
  { simpl in Hkw. destruct Hkw as [<-|[<-|[<-|[<-|[]]]]]; split; (discriminate || reflexivity). }
  destruct Hw as [Hne Hw].
  destruct (TrimSpace_word kw rest Hne Hw) as [k Hk].
  destruct (ToUpper_ascii_prefix CaseRanges kw k (ascii_word_isASCII _ Hw)) as [k' Hk'].
  unfold gate_rejects. rewrite Hk, Hk'. unfold strings.HasPrefix.
  simpl in Hkw. destruct Hkw as [<-|[<-|[<-|[<-|[]]]]].
  - rewrite (prefix_append_l "SELECT" _ k') by reflexivity. reflexivity.
  - rewrite (prefix_append_l "SHOW" _ k') by reflexivity.
    rewrite !andb_false_r. reflexivity.
  - rewrite (prefix_append_l "DESCRIBE" _ k') by reflexivity.
    rewrite !andb_false_r. reflexivity.
  - rewrite (prefix_append_l "DESC" _ k') by reflexivity.
    rewrite !andb_false_r. reflexivity.
Qed.

(** ** The query safety gate *)

Section GateClaims.

Variable CaseRanges : rune -> rune.

Lemma executeQuery_rejected (s : MCPServer) (id : JSON) (query : string) (t : Trace) :
  gate_rejects CaseRanges query = true ->
  executeQuery CaseRanges s id query t =
  (errorResponse id gate_message, t ++ [EvGate query]).
Proof.
  intros H. unfold executeQuery, bind, emit, ret. rewrite H. reflexivity.
Qed.

Lemma statements_app (t u : Trace) :
  statements (t ++ u) = statements t ++ statements u.
Proof. unfold statements. apply omap_app. Qed.

Lemma executeQuery_run (s : MCPServer) (id : JSON) (query : string) (t : Trace) :
  gate_rejects CaseRanges query = false ->
  exists response,
    executeQuery CaseRanges s id query t =
    (response, t ++ [EvGate query; EvQuery query]) /\
    match db s (statements t) query with
    | QueryFails err => response = errorResponse id ("查询错误: " +:+ err)
    | QueryReturns rows =>
      match rows_Columns rows with
      | inl err => response = errorResponse id ("获取列信息错误: " +:+ err)
      | inr columns =>
        response =
        contentResponse id
          (render_result columns (scan_results columns (rows_data rows)))
      end
    end.
Proof.
  intros H. unfold executeQuery, bind, emit, ret, db_Query. rewrite H.
  rewrite <- app_assoc. simpl app.
  rewrite statements_app. simpl. rewrite app_nil_r.
  destruct (db s (statements t) query) as [err|rows].
  - eexists. split; reflexivity.
  - destruct (rows_Columns rows) as [err|columns]; eexists; split; reflexivity.
Qed.

Lemma executeQuery_accepted (s : MCPServer) (id : JSON) (query : string) (t : Trace) :
  gate_rejects CaseRanges query = false ->
  exists response,
    executeQuery CaseRanges s id query t =
    (response, t ++ [EvGate query; EvQuery query]) /\
    (Error response = None \/
     exists message, response = errorResponse id message /\
                     message <> gate_message).
Proof.
  intros H. destruct (executeQuery_run s id query t H) as (r & Hr & Hm).
  exists r. split; [exact Hr|].
  destruct (db s (statements t) query) as [err|rows].
  - right. eexists. split; [exact Hm|]. unfold gate_message.
    cbv [String.append]. discriminate.
  - destruct (rows_Columns rows) as [err|columns].
    + right. eexists. split; [exact Hm|]. unfold gate_message.
      cbv [String.append]. discriminate.
    + left. subst r. reflexivity.
Qed.

(** C1.  The safety check of executeQuery accepts a query exactly when the
    query, trimmed of white space and put in upper case, starts with one of
    SELECT, SHOW, DESCRIBE, DESC.  It accepts the three sample queries of
    the specification and refuses the three others, the empty string among
    them.  A refused query is answered with the fixed message and no
    statement is sent to the database; an accepted one is sent as it is. *)
Theorem gate_accepts_iff_keyword_prefix :
  (forall query : string,
      gate_rejects CaseRanges query = false <->
      exists kw, In kw ["SELECT"; "SHOW"; "DESCRIBE"; "DESC"] /\
        strings.HasPrefix
          (strings.ToUpper CaseRanges (strings.TrimSpace query)) kw = true)
  /\ gate_rejects CaseRanges "select * from users" = false
  /\ gate_rejects CaseRanges "  SHOW TABLES" = false
  /\ gate_rejects CaseRanges "DESCRIBE orders" = false
  /\ gate_rejects CaseRanges "DELETE FROM users" = true
  /\ gate_rejects CaseRanges "DROP TABLE users" = true
  /\ gate_rejects CaseRanges "" = true
  /\ (forall (s : MCPServer) (id : JSON) (query : string) (t : Trace),
        if gate_rejects CaseRanges query
        then executeQuery CaseRanges s id query t =
               (errorResponse id gate_message, t ++ [EvGate query])
             /\ statements (snd (executeQuery CaseRanges s id query t)) =
                statements t
        else statements (snd (executeQuery CaseRanges s id query t)) =
             statements t ++ [query]).
Proof.
  split; [|repeat split; try reflexivity].
  - intros query. unfold gate_rejects.
    set (u := strings.ToUpper CaseRanges (strings.TrimSpace query)).
    split.
    + intros H.
      destruct (strings.HasPrefix u "SELECT") eqn:E1;
        [exists "SELECT"; simpl; auto|].
      destruct (strings.HasPrefix u "SHOW") eqn:E2;
        [exists "SHOW"; simpl; auto|].
      destruct (strings.HasPrefix u "DESCRIBE") eqn:E3;
        [exists "DESCRIBE"; simpl; auto|].
      destruct (strings.HasPrefix u "DESC") eqn:E4;
        [exists "DESC"; simpl; auto 6|].
      discriminate.
    + intros (kw & Hin & Hp). simpl in Hin.
      destruct Hin as [<-|[<-|[<-|[<-|[]]]]]; rewrite Hp;
        rewrite ?andb_false_r; reflexivity.
  - intros s id query t.
    destruct (gate_rejects CaseRanges query) eqn:E.
    + rewrite executeQuery_rejected by assumption. split; [reflexivity|].
      simpl. rewrite statements_app. simpl. apply app_nil_r.
    + destruct (executeQuery_accepted s id query t E) as (r & -> & _).
      simpl. rewrite statements_app. reflexivity.
Qed.

Lemma queryTable_statement_SELECT (tableName : string) (args : gmap string JSON) :
  exists rest, queryTable_statement tableName args = "SELECT" +:+ rest.
Proof.
  unfold queryTable_statement.
  destruct (assert_string (args !! "where_clause")) as [w|].
  - destruct (negb (w =? "")%string).
    + rewrite !append_assoc. eexists. reflexivity.
    + rewrite !append_assoc. eexists. reflexivity.
  - rewrite !append_assoc. eexists. reflexivity.
Qed.

Lemma queryTable_statement_accepted (tableName : string) (args : gmap string JSON) :
  gate_rejects CaseRanges (queryTable_statement tableName args) = false.
Proof.
  destruct (queryTable_statement_SELECT tableName args) as [rest ->].
  apply gate_accepts_keyword. simpl. auto.
Qed.

(** C9.  The statement queryTable builds starts with SELECT, whatever the
    table name, the limit and the where clause are; it passes the safety
    check of executeQuery, and queryTable never answers with the message of
    a refused statement. *)
Theorem queryTable_never_refused_by_gate
  (s : MCPServer) (id : JSON) (args : gmap string JSON) (t : Trace)
  (tableName : string) :
  strings.HasPrefix (queryTable_statement tableName args) "SELECT" = true
  /\ gate_rejects CaseRanges (queryTable_statement tableName args) = false
  /\ Error (fst (queryTable CaseRanges s id args t)) <>
     Some {| Code := -32603; Message := gate_message |}.
Proof.
  split; [|split].
  - destruct (queryTable_statement_SELECT tableName args) as [rest ->].
    apply prefix_append.
  - apply queryTable_statement_accepted.
  - unfold queryTable.
    destruct (assert_string (args !! "table_name")) as [name|].
    + destruct (executeQuery_accepted s id (queryTable_statement name args) t
                  (queryTable_statement_accepted name args))
        as (r & -> & [Hr|(m & -> & Hm)]); simpl.
      * rewrite Hr. discriminate.
      * intros H. inversion H. contradiction.
    + simpl. unfold gate_message. discriminate.
Qed.

End GateClaims.

(** ** The dispatcher: handleRequest and handleToolCall *)

(** What the three handlers that build their statement themselves do: they
    send it with db.Query, without the check of executeQuery. *)
Lemma listTables_run (s : MCPServer) (id : JSON) (t : Trace) :
  exists r, listTables s id t = (r, t ++ [EvQuery "SHOW TABLES"]) /\
    match db s (statements t) "SHOW TABLES" with
    | QueryFails err => r = errorResponse id ("Database error: " +:+ err)
    | QueryReturns _ => exists text, r = contentResponse id text
    end.
Proof.
  unfold listTables, bind, db_Query, ret.
  destruct (db s (statements t) "SHOW TABLES"); eexists; split; eauto.
Qed.

Lemma describeTable_run (s : MCPServer) (id : JSON) (tableName : string) (t : Trace) :
  exists r,
    describeTable s id tableName t = (r, t ++ [EvQuery ("DESCRIBE " +:+ tableName)]) /\
    match db s (statements t) ("DESCRIBE " +:+ tableName) with
    | QueryFails err => r = errorResponse id ("Database error: " +:+ err)
    | QueryReturns _ => exists text, r = contentResponse id text
    end.
Proof.
  unfold describeTable, bind, db_Query, ret.
  destruct (db s (statements t) ("DESCRIBE " +:+ tableName)); eexists; split; eauto.
Qed.

Lemma showTableIndexes_run (s : MCPServer) (id : JSON) (tableName : string) (t : Trace) :
  exists r,
    showTableIndexes s id tableName t =
      (r, t ++ [EvQuery ("SHOW INDEX FROM " +:+ tableName)]) /\
    match db s (statements t) ("SHOW INDEX FROM " +:+ tableName) with
    | QueryFails err => r = errorResponse id ("Database error: " +:+ err)
    | QueryReturns _ => exists text, r = contentResponse id text
    end.
Proof.
  unfold showTableIndexes, bind, db_Query, ret.
  destruct (db s (statements t) ("SHOW INDEX FROM " +:+ tableName));
    eexists; split; eauto.
Qed.

Lemma tool_answer_ID (id : JSON) (r : MCPResponse) : tool_answer id r -> ID r = id.
Proof. intros [[x ->]|[x ->]]; reflexivity. Qed.

Lemma tool_answer_error (id : JSON) (r : MCPResponse) (e : MCPError) :
  tool_answer id r -> Error r = Some e ->
  Code e = (-32603)%Z /\ r = errorResponse id (Message e).
Proof.
  intros [[x ->]|[x ->]]; simpl; intros H; inversion H; subst; auto.
Qed.

Section Dispatch.

Variable CaseRanges : rune -> rune.

(** The switch of handleToolCall, branch by branch. *)
Lemma handleToolCall_cases (s : MCPServer) (req : MCPRequest) (p : ToolCallParams)
  (t : Trace) :
  json_Unmarshal (Params req) = Some p ->
  (Name p = "list_tables" /\
   handleToolCall CaseRanges s req t = listTables s (req_ID req) t)
  \/ (Name p = "describe_table" /\
      exists tableName,
        assert_string (Arguments p !! "table_name") = Some tableName /\
        handleToolCall CaseRanges s req t = describeTable s (req_ID req) tableName t)
  \/ (Name p = "query_table" /\
      exists tableName,
        assert_string (Arguments p !! "table_name") = Some tableName /\
        handleToolCall CaseRanges s req t =
        executeQuery CaseRanges s (req_ID req)
          (queryTable_statement tableName (Arguments p)) t)
  \/ (Name p = "execute_query" /\
      exists query,
        assert_string (Arguments p !! "query") = Some query /\
        handleToolCall CaseRanges s req t =
        executeQuery CaseRanges s (req_ID req) query t)
  \/ (Name p = "show_table_indexes" /\
      exists tableName,
        assert_string (Arguments p !! "table_name") = Some tableName /\
        handleToolCall CaseRanges s req t =
        showTableIndexes s (req_ID req) tableName t)
  \/ (In (Name p) ["describe_table"; "query_table"; "show_table_indexes"] /\
      assert_string (Arguments p !! "table_name") = None /\
      handleToolCall CaseRanges s req t =
      (errorResponse (req_ID req) "table_name is required", t))
  \/ (Name p = "execute_query" /\
      assert_string (Arguments p !! "query") = None /\
      handleToolCall CaseRanges s req t =
      (errorResponse (req_ID req) "query is required", t))
  \/ (~ In (Name p) ["list_tables"; "describe_table"; "query_table";
                     "execute_query"; "show_table_indexes"] /\
      handleToolCall CaseRanges s req t =
      (errorResponse (req_ID req) "Unknown tool", t)).
Proof.
  intros Hp. unfold handleToolCall. rewrite Hp.
  destruct (String.eqb_spec (Name p) "list_tables") as [E1|N1]; [auto|].
  destruct (String.eqb_spec (Name p) "describe_table") as [E2|N2].
  { destruct (assert_string (Arguments p !! "table_name")) as [tn|] eqn:Ha.
    - right; left. eauto.
    - do 5 right; left. rewrite E2. simpl. auto. }
  destruct (String.eqb_spec (Name p) "query_table") as [E3|N3].
  { unfold queryTable.
    destruct (assert_string (Arguments p !! "table_name")) as [tn|] eqn:Ha.
    - do 2 right; left. eauto.
    - do 5 right; left. rewrite E3. simpl. auto. }
  destruct (String.eqb_spec (Name p) "execute_query") as [E4|N4].
  { destruct (assert_string (Arguments p !! "query")) as [q|] eqn:Ha.
    - do 3 right; left. eauto.
    - do 6 right; left. auto. }
  destruct (String.eqb_spec (Name p) "show_table_indexes") as [E5|N5].
  { destruct (assert_string (Arguments p !! "table_name")) as [tn|] eqn:Ha.
    - do 4 right; left. eauto.
    - do 5 right; left. rewrite E5. simpl. auto. }
  do 7 right. split; [|reflexivity].
  simpl. intros [H|[H|[H|[H|[H|[]]]]]]; congruence.
Qed.

Lemma executeQuery_answer (s : MCPServer) (id : JSON) (query : string) (t : Trace) :
  tool_answer id (fst (executeQuery CaseRanges s id query t)).
Proof.
  unfold executeQuery, bind, emit, ret, db_Query.
  destruct (gate_rejects CaseRanges query); [right; eexists; reflexivity|].
  destruct (db s _ query) as [err|rows]; [right; eexists; reflexivity|].
  destruct (rows_Columns rows); [right|left]; eexists; reflexivity.
Qed.

Lemma handleToolCall_answer (s : MCPServer) (req : MCPRequest) (p : ToolCallParams)
  (t : Trace) :
  json_Unmarshal (Params req) = Some p ->
  tool_answer (req_ID req) (fst (handleToolCall CaseRanges s req t)).
Proof.
  intros Hp.
  destruct (handleToolCall_cases s req p t Hp)
    as [(_ & ->)|[(_ & tn & _ & ->)|[(_ & tn & _ & ->)|[(_ & q & _ & ->)|
        [(_ & tn & _ & ->)|[(_ & _ & ->)|[(_ & _ & ->)|(_ & ->)]]]]]]].
  - destruct (listTables_run s (req_ID req) t) as (r & -> & Hr). simpl.
    destruct (db s _ _); [subst r; right|destruct Hr as [x ->]; left]; eauto.
  - destruct (describeTable_run s (req_ID req) tn t) as (r & -> & Hr). simpl.
    destruct (db s _ _); [subst r; right|destruct Hr as [x ->]; left]; eauto.
  - apply executeQuery_answer.
  - apply executeQuery_answer.
  - destruct (showTableIndexes_run s (req_ID req) tn t) as (r & -> & Hr). simpl.
    destruct (db s _ _); [subst r; right|destruct Hr as [x ->]; left]; eauto.
  - right. eexists. reflexivity.
  - right. eexists. reflexivity.
  - right. eexists. reflexivity.
Qed.

(** The switch of handleRequest. *)
Lemma handleRequest_cases (s : MCPServer) (req : MCPRequest) (t : Trace) :
  (Method req = "initialize" /\
   handleRequest CaseRanges s req t =
   ({| Jsonrpc := "2.0"; ID := req_ID req;
       Result := Some (ResultInitialize "2024-11-05" "mysql-mcp-server" "1.0.0");
       Error := None |}, t))
  \/ (Method req = "tools/list" /\
      handleRequest CaseRanges s req t =
      ({| Jsonrpc := "2.0"; ID := req_ID req;
          Result := Some (ResultTools tools); Error := None |}, t))
  \/ (Method req = "tools/call" /\ json_Unmarshal (Params req) = None /\
      handleRequest CaseRanges s req t =
      ({| Jsonrpc := "2.0"; ID := req_ID req; Result := None;
          Error := Some {| Code := -32602; Message := "Invalid params" |} |}, t))
  \/ (Method req = "tools/call" /\
      (exists p, json_Unmarshal (Params req) = Some p) /\
      handleRequest CaseRanges s req t = handleToolCall CaseRanges s req t)
  \/ (~ In (Method req) ["initialize"; "tools/list"; "tools/call"] /\
      handleRequest CaseRanges s req t =
      ({| Jsonrpc := "2.0"; ID := req_ID req; Result := None;
          Error := Some {| Code := -32601; Message := "Method not found" |} |}, t)).
Proof.
  unfold handleRequest.
  destruct (String.eqb_spec (Method req) "initialize") as [E1|N1]; [auto|].
  destruct (String.eqb_spec (Method req) "tools/list") as [E2|N2]; [auto|].
  destruct (String.eqb_spec (Method req) "tools/call") as [E3|N3].
  - destruct (json_Unmarshal (Params req)) as [p|] eqn:Hp.
    + do 3 right; left. eauto.
    + do 2 right; left. unfold handleToolCall. rewrite Hp. auto.
  - do 4 right. split; [|reflexivity].
    simpl. intros [H|[H|[H|[]]]]; congruence.
Qed.

(** C3.  Whatever the method and whatever the outcome, a result or an
    error, the response carries the identifier of the request (the value nil
    of a request without one included: [req_ID] ranges over all decoded
    values). *)
Theorem response_ID_echoes_request (s : MCPServer) (req : MCPRequest) (t : Trace) :
  ID (fst (handleRequest CaseRanges s req t)) = req_ID req.
Proof.
  destruct (handleRequest_cases s req t)
    as [(_ & ->)|[(_ & ->)|[(_ & _ & ->)|[(_ & (p & Hp) & ->)|(_ & ->)]]]];
    try reflexivity.
  apply tool_answer_ID. apply (handleToolCall_answer s req p t Hp).
Qed.

Lemma assert_string_None (args : gmap string JSON) (field : string) :
  (forall x, args !! field <> Some (JString x)) ->
  assert_string (args !! field) = None.
Proof.
  intros H. destruct (args !! field) as [[]|] eqn:E; try reflexivity.
  exfalso. eapply H. reflexivity.
Qed.

Lemma missing_argument_response (s : MCPServer) (req : MCPRequest)
  (p : ToolCallParams) (field : string) (t : Trace) :
  Method req = "tools/call" -> json_Unmarshal (Params req) = Some p ->
  In (Name p, field) required_argument ->
  assert_string (Arguments p !! field) = None ->
  handleRequest CaseRanges s req t =
  (errorResponse (req_ID req) (field +:+ " is required"), t).
Proof.
  intros Hm Hp Hin Ha.
  destruct (handleRequest_cases s req t)
    as [(E & _)|[(E & _)|[(_ & E & _)|[(_ & _ & ->)|(N & _)]]]];
    try congruence.
  2:{ exfalso. apply N. rewrite Hm. simpl. auto. }
  unfold handleToolCall. rewrite Hp.
  destruct p as [name args]. unfold required_argument in Hin. simpl in *.
  destruct Hin as [H|[H|[H|[H|[]]]]]; inversion H; subst name field; simpl;
    unfold queryTable; rewrite ?Ha; reflexivity.
Qed.

(** C7.  A call of describe_table, execute_query, show_table_indexes or
    query_table whose required argument is absent from the arguments, or is
    not a string, is answered by an error response with the identifier of
    the request and a message that names the argument; nothing is sent to the
    database, the loop of run is not left, and it handles the request that
    follows. *)
Theorem missing_argument_reported_loop_continues
  (s : MCPServer) (st : Session) (req next : MCPRequest) (p : ToolCallParams)
  (field : string) (rest : list InputUnit) :
  input (decoder st) = UnitRequest req :: UnitRequest next :: rest ->
  dec_err (decoder st) = None ->
  Method req = "tools/call" ->
  json_Unmarshal (Params req) = Some p ->
  In (Name p, field) required_argument ->
  (forall x, Arguments p !! field <> Some (JString x)) ->
  exists st1 st2,
    iteration CaseRanges s st = Some st1
    /\ stdout st1 =
       stdout st ++ [errorResponse (req_ID req) (field +:+ " is required")]
    /\ Error (errorResponse (req_ID req) (field +:+ " is required")) =
       Some {| Code := -32603; Message := field +:+ " is required" |}
    /\ trace st1 = trace st
    /\ iteration CaseRanges s st1 = Some st2
    /\ stdout st2 =
       stdout st1 ++ [fst (handleRequest CaseRanges s next (trace st1))]
    /\ input (decoder st2) = rest.
Proof.
  intros Hin Herr Hm Hp Hreq Hmiss.
  pose proof (missing_argument_response s req p field (trace st) Hm Hp Hreq
                (assert_string_None _ _ Hmiss)) as Hr.
  set (st1 :=
         {| decoder := {| input := UnitRequest next :: rest;
                          truncated := truncated (decoder st);
                          dec_err := None |};
            stdout := stdout st ++
                      [errorResponse (req_ID req) (field +:+ " is required")];
            logged := logged st;
            trace := trace st |}).
  assert (H1 : iteration CaseRanges s st = Some st1).
  { unfold iteration, Decode. rewrite Herr, Hin, Hr. reflexivity. }
  destruct (handleRequest CaseRanges s next (trace st)) as [r2 t2] eqn:Hn.
  exists st1,
    {| decoder := {| input := rest; truncated := truncated (decoder st);
                     dec_err := None |};
       stdout := stdout st1 ++ [r2];
       logged := logged st;
       trace := t2 |}.
  split; [exact H1|]. split; [reflexivity|]. split; [reflexivity|].
  split; [reflexivity|]. split.
  - unfold iteration, Decode. simpl. rewrite Hn. reflexivity.
  - simpl. rewrite Hn. auto.
Qed.

Lemma statements_one_more (t new : Trace) (stmt : string) :
  statements (t ++ new) = statements t ++ [stmt] -> statements new = [stmt].
Proof.
  rewrite statements_app. intros H. apply app_inv_head in H. exact H.
Qed.

(** Where the handlers report a failure of db.Query. *)
Lemma database_failure_response (s : MCPServer) (req : MCPRequest)
  (p : ToolCallParams) (t : Trace) (stmt err : string) :
  json_Unmarshal (Params req) = Some p ->
  statements (snd (handleToolCall CaseRanges s req t)) = statements t ++ [stmt] ->
  db s (statements t) stmt = QueryFails err ->
  exists prefix,
    fst (handleToolCall CaseRanges s req t) =
    errorResponse (req_ID req) (prefix +:+ err).
Proof.
  intros Hp Hs Hdb.
  assert (Hno : statements t <> statements t ++ [stmt]).
  { intros H. apply (f_equal (@length string)) in H.
    rewrite length_app in H. simpl in H. lia. }
  assert (Hex : forall q,
             handleToolCall CaseRanges s req t =
             executeQuery CaseRanges s (req_ID req) q t ->
             exists prefix, fst (executeQuery CaseRanges s (req_ID req) q t) =
                            errorResponse (req_ID req) (prefix +:+ err)).
  { intros q E. rewrite E in Hs.
    destruct (gate_rejects CaseRanges q) eqn:G.
    - rewrite executeQuery_rejected in Hs by assumption. simpl in Hs.
      rewrite statements_app in Hs. simpl in Hs. rewrite app_nil_r in Hs.
      contradiction.
    - destruct (executeQuery_run CaseRanges s (req_ID req) q t G) as (x & Hx & Hm).
      rewrite Hx in Hs |- *. simpl in Hs. apply statements_one_more in Hs.
      simpl in Hs. inversion Hs; subst q. rewrite Hdb in Hm. subst x.
      eexists. reflexivity. }
  destruct (handleToolCall_cases s req p t Hp)
    as [(_ & E)|[(_ & tn & _ & E)|[(_ & tn & _ & E)|[(_ & q & _ & E)|
        [(_ & tn & _ & E)|[(_ & _ & E)|[(_ & _ & E)|(_ & E)]]]]]]].
  - rewrite E in Hs |- *.
    destruct (listTables_run s (req_ID req) t) as (r & Hr & Hm).
    rewrite Hr in Hs |- *. simpl in Hs. apply statements_one_more in Hs.
    simpl in Hs. inversion Hs; subst stmt. rewrite Hdb in Hm. subst r.
    eexists. reflexivity.
  - rewrite E in Hs |- *.
    destruct (describeTable_run s (req_ID req) tn t) as (r & Hr & Hm).
    rewrite Hr in Hs |- *. simpl in Hs. apply statements_one_more in Hs.
    simpl in Hs. inversion Hs; subst stmt. rewrite Hdb in Hm. subst r.
    eexists. reflexivity.
  - rewrite E. apply Hex. exact E.
  - rewrite E. apply Hex. exact E.
  - rewrite E in Hs |- *.
    destruct (showTableIndexes_run s (req_ID req) tn t) as (r & Hr & Hm).
    rewrite Hr in Hs |- *. simpl in Hs. apply statements_one_more in Hs.
    simpl in Hs. inversion Hs; subst stmt. rewrite Hdb in Hm. subst r.
    eexists. reflexivity.
  - rewrite E in Hs. simpl in Hs. contradiction.
  - rewrite E in Hs. simpl in Hs. contradiction.
  - rewrite E in Hs. simpl in Hs. contradiction.
Qed.

(** C10.  An error response of handleRequest has one of three codes.  The
    code is -32601 only for a method that is not known and -32602 only for
    a tools/call whose params do not decode; every other error is built by
    errorResponse and has the code -32603.  That holds for the errors of
    the tool level alike: a required argument that is missing or not a
    string, a tool that is not known, a query refused by the safety check,
    and a failure of the database. *)
Theorem tool_errors_all_have_code_32603 :
  (forall (s : MCPServer) (req : MCPRequest) (t : Trace),
      match Error (fst (handleRequest CaseRanges s req t)) with
      | None => True
      | Some e =>
        (Code e = (-32603)%Z /\ Method req = "tools/call" /\
         json_Unmarshal (Params req) <> None /\
         fst (handleRequest CaseRanges s req t) =
         errorResponse (req_ID req) (Message e))
        \/ (Code e = (-32602)%Z /\ Method req = "tools/call" /\
            json_Unmarshal (Params req) = None)
        \/ (Code e = (-32601)%Z /\
            ~ In (Method req) ["initialize"; "tools/list"; "tools/call"])
      end)
  /\ (forall (s : MCPServer) (req : MCPRequest) (p : ToolCallParams) (t : Trace),
        Method req = "tools/call" ->
        json_Unmarshal (Params req) = Some p ->
        (forall field,
            In (Name p, field) required_argument ->
            (forall x, Arguments p !! field <> Some (JString x)) ->
            fst (handleRequest CaseRanges s req t) =
            errorResponse (req_ID req) (field +:+ " is required"))
        /\ (~ In (Name p) ["list_tables"; "describe_table"; "query_table";
                           "execute_query"; "show_table_indexes"] ->
            fst (handleRequest CaseRanges s req t) =
            errorResponse (req_ID req) "Unknown tool")
        /\ (forall query,
               Name p = "execute_query" ->
               Arguments p !! "query" = Some (JString query) ->
               gate_rejects CaseRanges query = true ->
               fst (handleRequest CaseRanges s req t) =
               errorResponse (req_ID req) gate_message)
        /\ (forall stmt err,
               statements (snd (handleRequest CaseRanges s req t)) =
               statements t ++ [stmt] ->
               db s (statements t) stmt = QueryFails err ->
               exists prefix,
                 fst (handleRequest CaseRanges s req t) =
                 errorResponse (req_ID req) (prefix +:+ err))).
Proof.
  split.
  - intros s req t.
    destruct (handleRequest_cases s req t)
      as [(_ & ->)|[(_ & ->)|[(Hm & Hp & ->)|[(Hm & (p & Hp) & E)|(N & ->)]]]];
      simpl; auto.
    destruct (Error (fst (handleRequest CaseRanges s req t))) as [e|] eqn:He; [|exact I].
    left. rewrite E in He |- *.
    destruct (tool_answer_error _ _ e (handleToolCall_answer s req p t Hp) He)
      as [Hc Hr].
    repeat split; try assumption. congruence.
  - intros s req p t Hm Hp.
    assert (E : handleRequest CaseRanges s req t = handleToolCall CaseRanges s req t).
    { destruct (handleRequest_cases s req t)
        as [(E & _)|[(E & _)|[(_ & E & _)|[(_ & _ & E)|(N & _)]]]];
        try congruence.
      exfalso. apply N. rewrite Hm. simpl. auto. }
    repeat split.
    + intros field Hin Hmiss.
      rewrite (missing_argument_response s req p field t Hm Hp Hin
                 (assert_string_None _ _ Hmiss)).
      reflexivity.
    + intros Hn. rewrite E.
      destruct (handleToolCall_cases s req p t Hp)
        as [(H & _)|[(H & _)|[(H & _)|[(H & _)|[(H & _)|[(H & _)|[(H & _)|(_ & ->)]]]]]]];
        try reflexivity; exfalso; apply Hn; try (rewrite H; simpl; tauto).
      simpl in H. simpl. tauto.
    + intros query Hn Hq Hg. rewrite E. unfold handleToolCall. rewrite Hp, Hn.
      simpl. rewrite Hq. simpl.
      rewrite executeQuery_rejected by assumption. reflexivity.
    + intros stmt err Hs Hdb. rewrite E in Hs |- *.
      apply (database_failure_response s req p t stmt err Hp Hs Hdb).
Qed.

Lemma gate_accepts_direct_statements (tableName : string) :
  gate_rejects CaseRanges "SHOW TABLES" = false /\
  gate_rejects CaseRanges ("DESCRIBE " +:+ tableName) = false /\
  gate_rejects CaseRanges ("SHOW INDEX FROM " +:+ tableName) = false.
Proof.
  split; [reflexivity|]. split.
  - apply (gate_accepts_keyword CaseRanges "DESCRIBE" (" " +:+ tableName)).
    simpl. auto.
  - apply (gate_accepts_keyword CaseRanges "SHOW" (" INDEX FROM " +:+ tableName)).
    simpl. auto.
Qed.

(** The premises of the branches of C2 that a given call does not take. *)
Ltac other_branch :=
  match goal with
  | Hn : Name ?p = _, H : Name ?p = _ |- _ =>
      rewrite Hn in H; discriminate H
  | Hs : assert_string ?a = Some _, H : assert_string ?a = None |- _ =>
      rewrite Hs in H; discriminate H
  | Hn : Name ?p = _, H : In (Name ?p) _ |- _ =>
      rewrite Hn in H; simpl in H; decompose [or] H; discriminate || contradiction
  | Hn : Name ?p = _, H : ~ In (Name ?p) _ |- _ =>
      exfalso; apply H; rewrite Hn; simpl; tauto
  | Hn : Name ?p = _, H : In (Name ?p, _) required_argument |- _ =>
      rewrite Hn in H; simpl in H; decompose [or] H; try contradiction;
      repeat match goal with
             | E : (_, _) = (_, _) |- _ => inversion E; clear E; subst
             end;
      try discriminate; try congruence
  end.

(** C2, as the code has it.  One request makes handleRequest send at most
    one statement to the database, and what it does depends on the tool.
    list_tables, describe_table and show_table_indexes send SHOW TABLES,
    DESCRIBE <table_name> and SHOW INDEX FROM <table_name> without
    evaluating the allow-list check: their trace is the statement alone.
    execute_query evaluates the check on its query and sends the query
    behind it when the check accepts it; query_table evaluates the check on
    the statement it builds and sends it.  A call without its required
    argument, a call of an unknown tool and any other request do neither.
    Every statement that reaches the database is one the check accepts. *)
Theorem statements_sent_satisfy_allow_list
  (s : MCPServer) (req : MCPRequest) (t : Trace) :
  exists new : Trace,
    snd (handleRequest CaseRanges s req t) = t ++ new
    /\ Forall (fun stmt => gate_rejects CaseRanges stmt = false) (statements new)
    /\ (length (statements new) <= 1)%nat
    /\ (Method req <> "tools/call" \/ json_Unmarshal (Params req) = None ->
        new = [])
    /\ (forall p,
          Method req = "tools/call" ->
          json_Unmarshal (Params req) = Some p ->
          (Name p = "list_tables" -> new = [EvQuery "SHOW TABLES"])
          /\ (forall tableName,
                Name p = "describe_table" ->
                assert_string (Arguments p !! "table_name") = Some tableName ->
                new = [EvQuery ("DESCRIBE " +:+ tableName)])
          /\ (forall tableName,
                Name p = "show_table_indexes" ->
                assert_string (Arguments p !! "table_name") = Some tableName ->
                new = [EvQuery ("SHOW INDEX FROM " +:+ tableName)])
          /\ (forall query,
                Name p = "execute_query" ->
                assert_string (Arguments p !! "query") = Some query ->
                new = EvGate query
                      :: (if gate_rejects CaseRanges query then []
                          else [EvQuery query]))
          /\ (forall tableName,
                Name p = "query_table" ->
                assert_string (Arguments p !! "table_name") = Some tableName ->
                new = [EvGate (queryTable_statement tableName (Arguments p));
                       EvQuery (queryTable_statement tableName (Arguments p))])
          /\ (forall field,
                In (Name p, field) required_argument ->
                assert_string (Arguments p !! field) = None ->
                new = [])
          /\ (~ In (Name p) ["list_tables"; "describe_table"; "query_table";
                             "execute_query"; "show_table_indexes"] ->
              new = [])).
Proof.
  destruct (handleRequest_cases s req t)
    as [(Hm & ->)|[(Hm & ->)|[(Hm & Hnone & ->)|[(Hm & (p & Hp) & ->)|(Hm & ->)]]]].
  1, 2, 3, 5:
    exists []; cbn [snd]; rewrite app_nil_r;
    split; [reflexivity|]; split; [constructor|]; split; [simpl; lia|];
    split; [reflexivity|];
    intros p' Hm' Hp'; exfalso;
    try (rewrite Hm in Hm'; discriminate Hm');
    try (rewrite Hnone in Hp'; discriminate Hp');
    apply Hm; rewrite Hm'; simpl; tauto.
  assert (Hcall : forall new : Trace,
            ~ (Method req <> "tools/call" \/ json_Unmarshal (Params req) = None)).
  { intros _ [H|H]; [apply H; exact Hm|rewrite Hp in H; discriminate H]. }
  destruct (handleToolCall_cases s req p t Hp)
    as [(Hn & ->)|[(Hn & tn & Ha & ->)|[(Hn & tn & Ha & ->)|[(Hn & q & Ha & ->)|
        [(Hn & tn & Ha & ->)|[(Hin & Ha & ->)|[(Hn & Ha & ->)|(Hnot & ->)]]]]]]].
  - (* list_tables *)
    destruct (listTables_run s (req_ID req) t) as (r & -> & _).
    exists [EvQuery "SHOW TABLES"]. cbn [snd].
    split; [reflexivity|].
    split; [constructor; [reflexivity|constructor]|].
    split; [simpl; lia|].
    split; [intros H; destruct (Hcall [] H)|].
    intros p' _ Hp'. rewrite Hp in Hp'. inversion Hp'; subst p'.
    repeat split; intros; try reflexivity; other_branch.
  - (* describe_table *)
    destruct (describeTable_run s (req_ID req) tn t) as (r & -> & _).
    exists [EvQuery ("DESCRIBE " +:+ tn)]. cbn [snd].
    split; [reflexivity|].
    split; [constructor;
            [apply (proj1 (proj2 (gate_accepts_direct_statements tn)))
            |constructor]|].
    split; [simpl; lia|].
    split; [intros H; destruct (Hcall [] H)|].
    intros p' _ Hp'. rewrite Hp in Hp'. inversion Hp'; subst p'.
    repeat split; intros; try congruence; other_branch.
  - (* query_table *)
    destruct (executeQuery_run CaseRanges s (req_ID req)
                (queryTable_statement tn (Arguments p)) t
                (queryTable_statement_accepted CaseRanges tn (Arguments p)))
      as (r & -> & _).
    exists [EvGate (queryTable_statement tn (Arguments p));
            EvQuery (queryTable_statement tn (Arguments p))]. cbn [snd].
    split; [reflexivity|].
    split; [constructor;
            [apply queryTable_statement_accepted|constructor]|].
    split; [simpl; lia|].
    split; [intros H; destruct (Hcall [] H)|].
    intros p' _ Hp'. rewrite Hp in Hp'. inversion Hp'; subst p'.
    repeat split; intros; try congruence; other_branch.
  - (* execute_query *)
    exists (EvGate q :: (if gate_rejects CaseRanges q then [] else [EvQuery q])).
    destruct (gate_rejects CaseRanges q) eqn:G.
    + rewrite executeQuery_rejected by assumption. cbn [snd].
      split; [reflexivity|]. split; [constructor|]. split; [simpl; lia|].
      split; [intros H; destruct (Hcall [] H)|].
      intros p' _ Hp'. rewrite Hp in Hp'. inversion Hp'; subst p'.
      repeat split; intros;
        try (match goal with
             | H : assert_string (Arguments p !! "query") = Some ?x |- _ =>
                 rewrite Ha in H; inversion H; subst x; rewrite G; reflexivity
             end);
        other_branch.
    + destruct (executeQuery_run CaseRanges s (req_ID req) q t G) as (r & -> & _).
      cbn [snd].
      split; [reflexivity|].
      split; [constructor; [exact G|constructor]|].
      split; [simpl; lia|].
      split; [intros H; destruct (Hcall [] H)|].
      intros p' _ Hp'. rewrite Hp in Hp'. inversion Hp'; subst p'.
      repeat split; intros;
        try (match goal with
             | H : assert_string (Arguments p !! "query") = Some ?x |- _ =>
                 rewrite Ha in H; inversion H; subst x; rewrite G; reflexivity
             end);
        other_branch.
  - (* show_table_indexes *)
    destruct (showTableIndexes_run s (req_ID req) tn t) as (r & -> & _).
    exists [EvQuery ("SHOW INDEX FROM " +:+ tn)]. cbn [snd].
    split; [reflexivity|].
    split; [constructor;
            [apply (proj2 (proj2 (gate_accepts_direct_statements tn)))
            |constructor]|].
    split; [simpl; lia|].
    split; [intros H; destruct (Hcall [] H)|].
    intros p' _ Hp'. rewrite Hp in Hp'. inversion Hp'; subst p'.
    repeat split; intros; try congruence; other_branch.
  - (* table_name is missing *)
    exists []. cbn [snd]. rewrite app_nil_r.
    split; [reflexivity|]. split; [constructor|]. split; [simpl; lia|].
    split; [reflexivity|].
    intros p' _ Hp'. rewrite Hp in Hp'. inversion Hp'; subst p'.
    repeat split; intros; try reflexivity; try congruence;
      simpl in Hin; decompose [or] Hin; try contradiction;
      match goal with E : _ = Name p |- _ => symmetry in E end;
      other_branch.
  - (* query is missing *)
    exists []. cbn [snd]. rewrite app_nil_r.
    split; [reflexivity|]. split; [constructor|]. split; [simpl; lia|].
    split; [reflexivity|].
    intros p' _ Hp'. rewrite Hp in Hp'. inversion Hp'; subst p'.
    repeat split; intros; try reflexivity; try congruence; other_branch.
  - (* unknown tool *)
    exists []. cbn [snd]. rewrite app_nil_r.
    split; [reflexivity|]. split; [constructor|]. split; [simpl; lia|].
    split; [reflexivity|].
    intros p' _ Hp'. rewrite Hp in Hp'. inversion Hp'; subst p'.
    repeat split; intros; try reflexivity;
      exfalso; apply Hnot;
      match goal with H : Name p = _ |- _ => rewrite H; simpl; tauto end.
Qed.

End Dispatch.

(** ** The tabular renderer *)

Lemma width_of_insert (m : gmap string nat) (c col : string) (w : nat) :
  width_of (<[c := w]> m) col = if decide (c = col) then w else width_of m col.
Proof.
  unfold width_of. rewrite lookup_insert.
  destruct (decide (c = col)); reflexivity.
Qed.

Lemma width_of_init (columns : list string) (m : gmap string nat) (col : string) :
  In col columns ->
  width_of (foldl (fun colWidths c => <[c := String.length c]> colWidths) m columns)
           col = String.length col.
Proof.
  revert m. induction columns as [|c cs IH]; intros m Hin; [destruct Hin|].
  simpl. destruct (in_dec string_dec col cs) as [Hcs|Hcs]; [apply IH; assumption|].
  destruct Hin as [->|Hin]; [|contradiction].
  clear IH. revert m. induction cs as [|d ds IHd]; intros m; simpl.
  - rewrite width_of_insert. destruct (decide (col = col)); congruence.
  - assert (Hd : d <> col) by (intros ->; apply Hcs; left; reflexivity).
    rewrite insert_insert_ne by congruence.
    apply IHd. intros H. apply Hcs. right. exact H.
Qed.

Lemma width_of_widen (row : gmap string Value) (m : gmap string nat) (c col : string) :
  width_of (widen row m c) col =
  if decide (c = col)
  then Nat.max (width_of m col) (String.length (valueStr row col))
  else width_of m col.
Proof.
  unfold widen.
  destruct (width_of m c <? String.length (valueStr row c))%nat eqn:E.
  - apply Nat.ltb_lt in E. rewrite width_of_insert.
    destruct (decide (c = col)) as [->|]; [lia|reflexivity].
  - apply Nat.ltb_ge in E.
    destruct (decide (c = col)) as [->|]; [lia|reflexivity].
Qed.

Lemma width_of_row (row : gmap string Value) (columns : list string)
  (m : gmap string nat) (col : string) :
  width_of (foldl (widen row) m columns) col =
  if in_dec string_dec col columns
  then Nat.max (width_of m col) (String.length (valueStr row col))
  else width_of m col.
Proof.
  revert m. induction columns as [|c cs IH]; intros m; [reflexivity|].
  simpl foldl. rewrite IH, width_of_widen.
  destruct (in_dec string_dec col cs) as [Hcs|Hcs];
    destruct (in_dec string_dec col (c :: cs)) as [Hc|Hc];
    destruct (decide (c = col)) as [->|Hne]; simpl in *; try lia; try tauto.
Qed.

Lemma width_of_rows (columns : list string) (results : list (gmap string Value))
  (m : gmap string nat) (col : string) :
  In col columns ->
  width_of (foldl (fun colWidths row => foldl (widen row) colWidths columns)
                  m results) col =
  Nat.max (width_of m col) (longest_value results col).
Proof.
  intros Hin. revert m. induction results as [|row rs IH]; intros m.
  - simpl. lia.
  - simpl foldl. rewrite IH, width_of_row.
    destruct (in_dec string_dec col columns); [|contradiction].
    simpl. lia.
Qed.

Lemma clamp_width_spec (w : nat) : clamp_width w = Nat.min 30 (Nat.max 8 w).
Proof.
  unfold clamp_width. cbv zeta.
  destruct (Nat.ltb_spec w 8) as [H8|H8].
  - destruct (Nat.ltb_spec 30 8) as [H|H]; lia.
  - destruct (Nat.ltb_spec 30 w) as [H|H]; lia.
Qed.

(** The width the three loops of executeQuery use for a column. *)
Lemma computed_width (columns : list string) (results : list (gmap string Value))
  (col : string) :
  In col columns ->
  clamp_width (width_of (compute_widths columns results) col) =
  column_width results col.
Proof.
  intros Hin. unfold compute_widths, column_width.
  rewrite clamp_width_spec, width_of_rows by assumption.
  unfold init_widths. rewrite width_of_init by assumption. reflexivity.
Qed.

Lemma foldl_append (A : Type) (f : A -> string) (l : list A) (acc : string) :
  foldl (fun text x => text +:+ f x) acc l = acc +:+ flat (map f l).
Proof.
  revert acc. induction l as [|x l IH]; intros acc; simpl.
  - rewrite append_nil_r. reflexivity.
  - rewrite IH, append_assoc. reflexivity.
Qed.

Lemma total_width_sum (colWidths : gmap string nat) (columns : list string) :
  total_width colWidths columns =
  (list_sum (map (fun col => clamp_width (width_of colWidths col)) columns)
   + length columns)%nat.
Proof.
  unfold total_width.
  assert (H : forall acc,
             foldl (fun totalWidth col =>
                      (totalWidth + (clamp_width (width_of colWidths col) + 1))%nat)
                   acc columns =
             (acc + (list_sum (map (fun col => clamp_width (width_of colWidths col))
                                   columns) + length columns))%nat).
  { induction columns as [|c cs IH]; intros acc; simpl; [lia|]. rewrite IH. lia. }
  rewrite H. reflexivity.
Qed.

Lemma table_line_ext (w1 w2 : string -> nat) (columns : list string)
  (cell : string -> string) :
  (forall col, In col columns -> w1 col = w2 col) ->
  table_line w1 columns cell = table_line w2 columns cell.
Proof.
  intros H. unfold table_line. f_equal. apply map_ext_in.
  intros col Hin. rewrite H by assumption. reflexivity.
Qed.

(** The text of a result set that is not empty: title, header, separator
    and one line per row, with the widths of the specification. *)
Lemma render_result_rows (columns : list string) (row : gmap string Value)
  (rest : list (gmap string Value)) :
  let results := row :: rest in
  render_result columns results =
  result_title (length results)
  +:+ table_line (column_width results) columns (fun col => col) +:+ nl
  +:+ strings.Repeat "-"
        (list_sum (map (column_width results) columns) + length columns) +:+ nl
  +:+ flat (map (fun r => table_line (column_width results) columns (cellStr r) +:+ nl)
                results).
Proof.
  intros results. unfold render_result.
  change (0 <? length results)%nat with true. cbv iota.
  set (colWidths := compute_widths columns results).
  assert (Hw : forall col, In col columns ->
                 clamp_width (width_of colWidths col) = column_width results col).
  { intros col Hin. apply computed_width. exact Hin. }
  unfold header_line. rewrite foldl_append.
  rewrite total_width_sum.
  rewrite (map_ext_in _ (column_width results) columns Hw).
  assert (Hrow : forall r text,
             data_row colWidths columns text r =
             text +:+ (table_line (column_width results) columns (cellStr r) +:+ nl)).
  { intros r text. unfold data_row. rewrite foldl_append, append_assoc.
    f_equal. f_equal.
    apply (table_line_ext (fun col => clamp_width (width_of colWidths col))).
    exact Hw. }
  assert (Hrows : forall l text,
             foldl (data_row colWidths columns) text l =
             text +:+ flat (map (fun r => table_line (column_width results) columns
                                            (cellStr r) +:+ nl) l)).
  { induction l as [|r l IH]; intros text; simpl.
    - rewrite append_nil_r. reflexivity.
    - rewrite IH, Hrow, append_assoc. reflexivity. }
  rewrite Hrows.
  assert (Hhead :
            flat (map (fun col =>
                         fmt.pad_left_justified
                           (clamp_width (width_of colWidths col)) col +:+ " ")
                      columns) =
            table_line (column_width results) columns (fun col => col)).
  { apply (table_line_ext (fun col => clamp_width (width_of colWidths col))
             (column_width results) columns (fun col => col) Hw). }
  rewrite Hhead, !append_assoc. reflexivity.
Qed.

Lemma cellStr_truncates (row : gmap string Value) (col : string) (v : Value) :
  row !! col = Some v -> is_nil v = false ->
  (30 < String.length (fmt_v v))%nat ->
  cellStr row col = take_bytes 27 (fmt_v v) +:+ "..." /\
  String.length (cellStr row col) = 30%nat.
Proof.
  intros Hv Hn Hl. unfold cellStr. rewrite Hv, Hn.
  apply Nat.ltb_lt in Hl. rewrite Hl. split; [reflexivity|].
  rewrite length_append, length_take_bytes. apply Nat.ltb_lt in Hl.
  change (String.length "...") with 3%nat. lia.
Qed.

Lemma cellStr_length (row : gmap string Value) (col : string) :
  (String.length (cellStr row col) <= 30)%nat.
Proof.
  unfold cellStr. destruct (row !! col) as [v|]; [|simpl; lia].
  destruct (is_nil v); [simpl; lia|].
  destruct (30 <? String.length (fmt_v v))%nat eqn:E.
  - rewrite length_append, length_take_bytes.
    change (String.length "...") with 3%nat. lia.
  - apply Nat.ltb_ge in E. exact E.
Qed.

(** C4.  For a result set that is not empty, the width executeQuery uses for
    a column is the longer of the length of its name and the length of its
    longest stringified value, clamped to the interval from 8 to 30 (lengths
    count bytes, as len does); a value whose text is longer than 30 is
    rendered as its first 27 bytes followed by three dots, 30 in all; and
    the separator line is made of dashes, as many as the widths of all
    columns add up to plus one per column. *)
Theorem column_widths_truncation_and_separator
  (columns : list string) (row0 : gmap string Value)
  (rest : list (gmap string Value)) :
  let results := row0 :: rest in
  (forall col, In col columns ->
     clamp_width (width_of (compute_widths columns results) col) =
     Nat.min 30 (Nat.max 8 (Nat.max (String.length col)
                                    (longest_value results col))))
  /\ (forall row col v,
        row !! col = Some v -> is_nil v = false ->
        (30 < String.length (fmt_v v))%nat ->
        cellStr row col = take_bytes 27 (fmt_v v) +:+ "..." /\
        String.length (cellStr row col) = 30%nat)
  /\ (forall row col, (String.length (cellStr row col) <= 30)%nat)
  /\ render_result columns results =
     result_title (length results)
     +:+ table_line (column_width results) columns (fun col => col) +:+ nl
     +:+ strings.Repeat "-"
           (list_sum (map (column_width results) columns) + length columns) +:+ nl
     +:+ flat (map (fun r => table_line (column_width results) columns (cellStr r)
                             +:+ nl) results)
  /\ String.length
       (strings.Repeat "-"
          (list_sum (map (column_width results) columns) + length columns)) =
     (list_sum (map (column_width results) columns) + length columns)%nat.
Proof.
  intros results. split; [|split; [|split; [|split]]].
  - intros col Hin. apply (computed_width columns results col Hin).
  - apply cellStr_truncates.
  - apply cellStr_length.
  - apply render_result_rows.
  - apply length_Repeat_char.
Qed.

Lemma flat_app (a b : list string) : flat (a ++ b) = flat a +:+ flat b.
Proof.
  induction a as [|x a IH]; [reflexivity|].
  simpl. rewrite IH, append_assoc. reflexivity.
Qed.

Lemma penultimate_append (a b : string) :
  (2 <= String.length b)%nat -> penultimate (a +:+ b) = penultimate b.
Proof.
  intros Hb. induction a as [|c a IH]; [reflexivity|].
  rewrite append_cons.
  destruct (a +:+ b) as [|x [|y z]] eqn:E.
  - apply (f_equal String.length) in E. rewrite length_append in E. simpl in E. lia.
  - apply (f_equal String.length) in E. rewrite length_append in E. simpl in E. lia.
  - exact IH.
Qed.

Lemma ends_with_two_line_feeds (k : nat) (a : string) :
  exists pre, a +:+ nl +:+ strings.Repeat nl (S k) = pre +:+ String (ascii_of_nat 10) nl.
Proof.
  revert a. induction k as [|k IH]; intros a.
  - exists a. reflexivity.
  - destruct (IH (a +:+ nl)) as [pre Hpre]. exists pre.
    rewrite <- Hpre, append_assoc. reflexivity.
Qed.

(** The text of a result set that is not empty ends with a space and a line
    feed (the last cell of the last row), or with two line feeds when there
    is no column. *)
Lemma render_result_end (columns : list string) (row : gmap string Value)
  (rest : list (gmap string Value)) :
  exists pre b,
    render_result columns (row :: rest) = pre +:+ String b nl /\
    (b = " "%char \/ b = ascii_of_nat 10).
Proof.
  assert (Hlast : forall (A : Type) (f : A -> string) (l : list A),
             l <> [] -> exists y a, flat (map f l) = y +:+ f a).
  { intros A f l Hl. destruct (exists_last Hl) as (before & a & ->).
    exists (flat (map f before)), a.
    rewrite map_app, flat_app. simpl. rewrite append_nil_r. reflexivity. }
  rewrite render_result_rows. cbv zeta.
  destruct columns as [|c cs].
  - (* no column: every line is a line feed *)
    assert (Hnl : forall l : list (gmap string Value),
               flat (map (fun r => table_line (column_width (row :: rest)) []
                                     (cellStr r) +:+ nl) l) =
               strings.Repeat nl (length l)).
    { induction l as [|r l IH]; [reflexivity|]. simpl. rewrite IH. reflexivity. }
    rewrite Hnl. simpl length.
    assert (E : forall t h d r : string,
               t +:+ h +:+ nl +:+ d +:+ nl +:+ r = (t +:+ h +:+ nl +:+ d) +:+ nl +:+ r).
    { intros. rewrite !append_assoc. reflexivity. }
    rewrite E.
    match goal with
    | |- exists pre b, ?a +:+ nl +:+ ?r = _ /\ _ =>
        destruct (ends_with_two_line_feeds (length rest) a) as [pre Hpre]
    end.
    exists pre, (ascii_of_nat 10). split; [exact Hpre|right; reflexivity].
  - destruct (Hlast _ (fun r => table_line (column_width (row :: rest)) (c :: cs)
                                    (cellStr r) +:+ nl) (row :: rest))
      as (y & last & ->); [discriminate|].
    unfold table_line at 2.
    destruct (Hlast _ (fun col =>
                         fmt.pad_left_justified (column_width (row :: rest) col)
                           (cellStr last col) +:+ " ") (c :: cs))
      as (z & cl & ->); [discriminate|].
    eexists. exists " "%char. split; [|left; reflexivity].
    change (String " " nl) with (" " +:+ nl).
    rewrite <- !append_assoc. reflexivity.
Qed.

(** *** The lines of the rendered text *)

Lemma scan_results_scanned (columns : list string) (data : list (list Value)) :
  scan_results columns data = map (make_row columns) (scanned_rows columns data).
Proof.
  unfold scanned_rows. induction data as [|values data IH]; [reflexivity|].
  cbn [scan_results List.filter].
  destruct (length values =? length columns)%nat; cbn [map]; rewrite IH; reflexivity.
Qed.

Lemma scanned_rows_all (columns : list string) (data : list (list Value)) :
  Forall (fun values => length values = length columns) data ->
  scanned_rows columns data = data.
Proof.
  unfold scanned_rows. induction 1 as [|values data Hv _ IH]; [reflexivity|].
  cbn [List.filter]. rewrite Hv, Nat.eqb_refl, IH. reflexivity.
Qed.

Lemma lines_nonempty (s : string) : lines s <> [].
Proof.
  destruct s as [|c t]; cbn [lines]; [discriminate|].
  destruct (Ascii.eqb c (ascii_of_nat 10)); [discriminate|].
  destruct (lines t); discriminate.
Qed.

Lemma lines_append_nl (a b : string) :
  lines (a +:+ nl +:+ b) = lines a ++ lines b.
Proof.
  induction a as [|c a IH]; [reflexivity|].
  rewrite append_cons. cbn [lines].
  destruct (Ascii.eqb c (ascii_of_nat 10)); [rewrite IH; reflexivity|].
  rewrite IH. pose proof (lines_nonempty a) as Hne.
  destruct (lines a) as [|l ls]; [congruence|reflexivity].
Qed.

Lemma lines_one (a : string) : has_line_feed a = false -> lines a = [a].
Proof.
  unfold has_line_feed. induction a as [|c a IH]; [reflexivity|].
  cbn [has_byte lines]. intros H. apply orb_false_iff in H as [Hc Ha].
  rewrite Hc, (IH Ha). reflexivity.
Qed.

Lemma has_byte_append (b : ascii) (x y : string) :
  has_byte b (x +:+ y) = has_byte b x || has_byte b y.
Proof.
  induction x as [|c x IH]; [reflexivity|].
  rewrite append_cons. cbn [has_byte]. rewrite IH, orb_assoc. reflexivity.
Qed.

Lemma has_byte_Repeat (b c : ascii) (n : nat) :
  Ascii.eqb c b = false -> has_byte b (strings.Repeat (String c "") n) = false.
Proof.
  intros Hc. induction n as [|n IH]; [reflexivity|].
  change (strings.Repeat (String c "") (S n))
    with (String c (strings.Repeat (String c "") n)).
  cbn [has_byte]. rewrite Hc, IH. reflexivity.
Qed.

Lemma has_line_feed_uint (d : Decimal.uint) :
  has_line_feed (NilEmpty.string_of_uint d) = false.
Proof.
  unfold has_line_feed.
  induction d; cbn [NilEmpty.string_of_uint has_byte]; [reflexivity|..];
    rewrite IHd; reflexivity.
Qed.

Lemma has_line_feed_Itoa (n : Z) : has_line_feed (strconv.Itoa n) = false.
Proof.
  unfold strconv.Itoa.
  destruct (Z.to_int n) as [d|d]; cbn [NilZero.string_of_int];
    unfold NilZero.string_of_uint;
    pose proof (has_line_feed_uint d) as Hd;
    destruct d; try reflexivity; try exact Hd;
    unfold has_line_feed in *; cbn [has_byte]; rewrite Hd; reflexivity.
Qed.

Lemma table_line_one_line (width : string -> nat) (columns : list string)
  (cell : string -> string) :
  (forall col, In col columns -> has_line_feed (cell col) = false) ->
  has_line_feed (table_line width columns cell) = false.
Proof.
  unfold table_line, has_line_feed.
  induction columns as [|c cs IH]; intros H; [reflexivity|].
  cbn [map]. change (flat (?x :: ?l)) with (x +:+ flat l).
  rewrite !has_byte_append.
  rewrite IH by (intros col Hcol; apply H; right; exact Hcol).
  unfold fmt.pad_left_justified.
  rewrite has_byte_append, has_byte_Repeat by reflexivity.
  rewrite (H c (or_introl eq_refl)).
  reflexivity.
Qed.

(** No line of the table is the sentinel: a line with a cell holds a space,
    a line without one is empty. *)
Lemma table_line_not_sentinel (width : string -> nat) (columns : list string)
  (cell : string -> string) :
  table_line width columns cell <> sentinel.
Proof.
  unfold table_line. destruct columns as [|c cs]; [discriminate|].
  intros E. apply (f_equal (has_byte " ")) in E.
  cbn [map] in E. change (flat (?x :: ?l)) with (x +:+ flat l) in E.
  rewrite !has_byte_append in E.
  change (has_byte " " " ") with true in E.
  change (has_byte " " sentinel) with false in E.
  rewrite orb_true_r in E. discriminate E.
Qed.

Lemma lines_of_rows (f : gmap string Value -> string)
  (results : list (gmap string Value)) :
  (forall r, In r results -> has_line_feed (f r) = false) ->
  lines (flat (map (fun r => f r +:+ nl) results)) = map f results ++ [""].
Proof.
  induction results as [|r results IH]; intros H; [reflexivity|].
  cbn [map]. change (flat (?x :: ?l)) with (x +:+ flat l).
  rewrite append_assoc, lines_append_nl.
  rewrite lines_one by (apply H; left; reflexivity).
  rewrite IH by (intros r' Hr'; apply H; right; exact Hr').
  reflexivity.
Qed.

(** The lines of the text of a result set that is not empty, when no column
    name and no cell holds a line feed: the title, an empty line, the
    header, the separator, one line per row, and the empty line behind the
    last line feed. *)
Lemma lines_of_table (columns : list string) (results : list (gmap string Value))
  (dashes : nat) :
  (forall col, In col columns -> has_line_feed col = false) ->
  (forall r col, In r results -> In col columns ->
                 has_line_feed (cellStr r col) = false) ->
  lines (result_title (length results)
         +:+ table_line (column_width results) columns (fun col => col) +:+ nl
         +:+ strings.Repeat "-" dashes +:+ nl
         +:+ flat (map (fun r => table_line (column_width results) columns
                                   (cellStr r) +:+ nl) results)) =
  ["查询结果 (" +:+ strconv.Itoa (Z.of_nat (length results)) +:+ " 行):";
   "";
   table_line (column_width results) columns (fun col => col);
   strings.Repeat "-" dashes]
  ++ map (fun r => table_line (column_width results) columns (cellStr r)) results
  ++ [""].
Proof.
  intros Hcols Hcells.
  set (title := "查询结果 (" +:+ strconv.Itoa (Z.of_nat (length results)) +:+ " 行):").
  set (header := table_line (column_width results) columns (fun col => col)).
  set (rule := strings.Repeat "-" dashes).
  set (body := flat (map (fun r => table_line (column_width results) columns
                                     (cellStr r) +:+ nl) results)).
  assert (E : result_title (length results) +:+ header +:+ nl +:+ rule +:+ nl +:+ body
              = title +:+ nl +:+ "" +:+ nl +:+ header +:+ nl +:+ rule +:+ nl +:+ body).
  { unfold result_title, title. rewrite !append_assoc. reflexivity. }
  rewrite E. clear E.
  assert (Htitle : has_line_feed title = false).
  { unfold title, has_line_feed. rewrite !has_byte_append.
    fold (has_line_feed (strconv.Itoa (Z.of_nat (length results)))).
    rewrite has_line_feed_Itoa. reflexivity. }
  assert (Hheader : has_line_feed header = false)
    by (apply table_line_one_line; exact Hcols).
  assert (Hrule : has_line_feed rule = false)
    by (apply has_byte_Repeat; reflexivity).
  rewrite (lines_append_nl title), (lines_append_nl ""),
          (lines_append_nl header), (lines_append_nl rule).
  rewrite (lines_one title Htitle), (lines_one header Hheader),
          (lines_one rule Hrule).
  unfold body. rewrite lines_of_rows.
  - reflexivity.
  - intros r Hr. apply table_line_one_line. intros col Hcol. apply Hcells; assumption.
Qed.

Lemma sentinel_not_in_table (columns : list string)
  (results : list (gmap string Value)) (dashes : nat) :
  ~ In sentinel
       (["查询结果 (" +:+ strconv.Itoa (Z.of_nat (length results)) +:+ " 行):";
         "";
         table_line (column_width results) columns (fun col => col);
         strings.Repeat "-" dashes]
        ++ map (fun r => table_line (column_width results) columns (cellStr r))
               results
        ++ [""]).
Proof.
  intros H. apply in_app_or in H as [H|H].
  - destruct H as [H|[H|[H|[H|[]]]]].
    + apply (f_equal (String.get 1)) in H. cbv [String.append] in H.
      cbn [String.get] in H. discriminate H.
    + discriminate H.
    + exact (table_line_not_sentinel _ _ _ H).
    + destruct dashes as [|k]; [discriminate H|].
      change (strings.Repeat "-" (S k))
        with (String "-" (strings.Repeat "-" k)) in H.
      discriminate H.
  - apply in_app_or in H as [H|H].
    + apply in_map_iff in H as (r & Hr & _).
      exact (table_line_not_sentinel _ _ _ Hr).
    + destruct H as [H|[]]. discriminate H.
Qed.

(** C5, as the code has it.  executeQuery renders the rows that rows.Scan
    accepts, those with as many values as there are columns (all of them,
    with a driver that hands over one value per column).  When there is no
    such row the text is the title and the sentinel line, and nothing else:
    no header, no separator, no row.  When there is one, the text is the
    title with the number of rows, the header, the separator and one line
    per row; it does not end with the sentinel line, and no line of it is
    the sentinel as long as no column name and no cell holds a line feed. *)
Theorem empty_result_renders_sentinel_only
  (CaseRanges : rune -> rune) (s : MCPServer) (id : JSON) (query : string)
  (t : Trace) (rows : Rows) (columns : list string) :
  gate_rejects CaseRanges query = false ->
  db s (statements t) query = QueryReturns rows ->
  rows_Columns rows = inr columns ->
  let scanned := scanned_rows columns (rows_data rows) in
  let results := map (make_row columns) scanned in
  exists text,
    fst (executeQuery CaseRanges s id query t) = contentResponse id text
    /\ (Forall (fun values => length values = length columns) (rows_data rows) ->
        scanned = rows_data rows)
    /\ (scanned = [] ->
        text = "查询结果 (0 行):" +:+ nl +:+ nl +:+ sentinel +:+ nl
        /\ lines text = ["查询结果 (0 行):"; ""; sentinel; ""])
    /\ (scanned <> [] ->
        text =
          result_title (length scanned)
          +:+ table_line (column_width results) columns (fun col => col) +:+ nl
          +:+ strings.Repeat "-"
                (list_sum (map (column_width results) columns) + length columns)
          +:+ nl
          +:+ flat (map (fun r => table_line (column_width results) columns
                                    (cellStr r) +:+ nl) results)
        /\ ~ (exists pre, text = pre +:+ no_rows_line)
        /\ ((forall col, In col columns -> has_line_feed col = false) ->
            (forall r col, In r results -> In col columns ->
                           has_line_feed (cellStr r col) = false) ->
            lines text =
              ["查询结果 (" +:+ strconv.Itoa (Z.of_nat (length scanned)) +:+ " 行):";
               "";
               table_line (column_width results) columns (fun col => col);
               strings.Repeat "-"
                 (list_sum (map (column_width results) columns) + length columns)]
              ++ map (fun r => table_line (column_width results) columns (cellStr r))
                     results
              ++ [""]
            /\ ~ In sentinel (lines text))).
Proof.
  intros Hg Hdb Hcols scanned results.
  destruct (executeQuery_run CaseRanges s id query t Hg) as (r & Hrun & Hr).
  rewrite Hdb, Hcols in Hr. rewrite Hrun. cbn [fst].
  rewrite scan_results_scanned in Hr. fold scanned in Hr. fold results in Hr.
  eexists. split; [exact Hr|].
  split; [apply scanned_rows_all|].
  split.
  - intros Hnone. unfold results. rewrite Hnone. split; reflexivity.
  - intros Hsome.
    assert (Hlen : length results = length scanned)
      by (unfold results; apply length_map).
    destruct results as [|row rest] eqn:Hres.
    { destruct scanned; [congruence|discriminate Hres]. }
    rewrite <- Hlen.
    split; [apply render_result_rows|].
    split.
    + intros [pre Hpre].
      destruct (render_result_end columns row rest) as (pre' & b & Hend & Hb).
      rewrite Hend in Hpre.
      apply (f_equal penultimate) in Hpre.
      rewrite !penultimate_append in Hpre by (simpl; lia).
      destruct Hb as [-> | ->]; vm_compute in Hpre; discriminate.
    + intros Hnames Hcells.
      rewrite render_result_rows. cbv zeta.
      rewrite lines_of_table by assumption.
      split; [reflexivity|]. apply sentinel_not_in_table.
Qed.

(** ** query_table *)

Section QueryTable.

Variable CaseRanges : rune -> rune.

Lemma queryTable_statement_text (tableName : string) (args : gmap string JSON) :
  queryTable_statement tableName args =
  "SELECT * FROM `" +:+ tableName +:+ "`" +:+ where_part args
  +:+ " LIMIT " +:+ strconv.Itoa (limit_argument args).
Proof.
  unfold queryTable_statement, where_part, limit_argument, assert_string, assert_float64.
  destruct (args !! "limit") as [[]|];
    (destruct (args !! "where_clause") as [[|wb|wf|w|wl|wm]|];
     [| | | destruct (String.eqb w ""); simpl negb; cbv iota | | |];
     rewrite !append_assoc; reflexivity).
Qed.

(** C6, as the code has it.  For a query_table call whose table_name is a
    string, the one statement sent to the database is SELECT * FROM
    `table_name`, the name between backquotes, followed by WHERE and the
    where_clause exactly when the where_clause is a string that is not empty,
    followed by LIMIT and the limit: the supplied limit converted to an
    integer when it is a number, and 10 otherwise. *)
Theorem queryTable_statement_sent
  (s : MCPServer) (id : JSON) (args : gmap string JSON) (t : Trace)
  (tableName : string) :
  args !! "table_name" = Some (JString tableName) ->
  let stmt :=
    "SELECT * FROM `" +:+ tableName +:+ "`" +:+ where_part args
    +:+ " LIMIT " +:+ strconv.Itoa (limit_argument args) in
  queryTable_statement tableName args = stmt
  /\ queryTable CaseRanges s id args t = executeQuery CaseRanges s id stmt t
  /\ snd (queryTable CaseRanges s id args t) = t ++ [EvGate stmt; EvQuery stmt]
  /\ statements (snd (queryTable CaseRanges s id args t)) = statements t ++ [stmt].
Proof.
  intros Hname stmt.
  assert (Hs : queryTable_statement tableName args = stmt)
    by apply queryTable_statement_text.
  assert (Hq : queryTable CaseRanges s id args t = executeQuery CaseRanges s id stmt t).
  { unfold queryTable. rewrite Hname. simpl. rewrite Hs. reflexivity. }
  split; [exact Hs|]. split; [exact Hq|].
  rewrite Hq.
  destruct (executeQuery_run CaseRanges s id stmt t) as (r & -> & _).
  { rewrite <- Hs. apply queryTable_statement_accepted. }
  simpl. split; [reflexivity|]. rewrite statements_app. reflexivity.
Qed.

End QueryTable.

(** ** The session loop *)

Section RunClaims.

Variable CaseRanges : rune -> rune.

Lemma syntax_error_is_not_EOF (detail : string) :
  String.eqb (Error_text (ErrSyntax detail)) "EOF" = false.
Proof. reflexivity. Qed.

Lemma run_S (s : MCPServer) (fuel : nat) (st : Session) :
  run CaseRanges (S fuel) s st =
  match iteration CaseRanges s st with
  | None => (true, st)
  | Some st' => run CaseRanges fuel s st'
  end.
Proof. reflexivity. Qed.

(** Once the decoder has stored a syntax error, every pass of the loop
    gets that error again, logs it and goes round. *)
Lemma run_stuck (s : MCPServer) (detail : string) (fuel : nat) (st : Session) :
  dec_err (decoder st) = Some (ErrSyntax detail) ->
  run CaseRanges fuel s st =
  (false,
   {| decoder := decoder st;
      stdout := stdout st;
      logged := logged st ++
                repeat ("解码请求错误: " +:+ Error_text (ErrSyntax detail)) fuel;
      trace := trace st |}).
Proof.
  revert st. induction fuel as [|fuel IH]; intros st Herr.
  - simpl. rewrite app_nil_r. destruct st; reflexivity.
  - rewrite run_S. unfold iteration, Decode. rewrite Herr.
    rewrite syntax_error_is_not_EOF.
    rewrite IH by (simpl; exact Herr).
    simpl. rewrite <- app_assoc. reflexivity.
Qed.

(** C8 (a malformed unit is logged and skipped, and the loop goes on with
    the requests behind it) fails at this input.  When standard input holds
    bytes that are not JSON followed by a well-formed request, run logs the
    syntax error on every pass, never answers the request that follows and
    never returns, however many passes it is given: json.Decoder keeps the
    syntax error and returns it again on each call of Decode. *)
Theorem run_spins_on_malformed_input
  (s : MCPServer) (detail : string) (req : MCPRequest) (fuel : nat) :
  let result :=
    run CaseRanges fuel s (start [UnitMalformed detail; UnitRequest req] false) in
  fst result = false
  /\ stdout (snd result) = []
  /\ logged (snd result) =
     repeat ("解码请求错误: invalid character " +:+ detail) fuel
  /\ input (decoder (snd result)) = [UnitMalformed detail; UnitRequest req].
Proof.
  destruct fuel as [|fuel]; [simpl; auto|].
  cbv zeta.
  assert (H1 : iteration CaseRanges s
                 (start [UnitMalformed detail; UnitRequest req] false) =
               Some {| decoder :=
                         {| input := [UnitMalformed detail; UnitRequest req];
                            truncated := false;
                            dec_err := Some (ErrSyntax detail) |};
                       stdout := [];
                       logged := ["解码请求错误: " +:+ Error_text (ErrSyntax detail)];
                       trace := [] |}) by reflexivity.
  rewrite run_S, H1, (run_stuck s detail) by reflexivity.
  simpl. auto.
Qed.

(** On an input without malformed bytes that ends cleanly, run answers
    every request in order and returns. *)
Lemma run_serves (s : MCPServer) (units : list InputUnit) (st : Session) :
  forallb (fun u => negb (is_malformed u)) units = true ->
  decoder st = NewDecoder units false ->
  exists st',
    run CaseRanges (S (length units)) s st = (true, st') /\
    stdout st' = stdout st ++ serve CaseRanges s units (trace st).
Proof.
  revert st. induction units as [|u units IH]; intros st Hok Hdec.
  - exists st. simpl length. rewrite run_S.
    unfold iteration, Decode. rewrite Hdec. simpl.
    rewrite app_nil_r. auto.
  - simpl in Hok. apply andb_true_iff in Hok as [Hu Hok].
    simpl length. rewrite run_S.
    unfold iteration, Decode. rewrite Hdec. simpl.
    destruct u as [req|detail|detail]; [| |discriminate].
    + destruct (handleRequest CaseRanges s req (trace st)) as [r t1] eqn:Hr.
      destruct (IH {| decoder := NewDecoder units false;
                      stdout := stdout st ++ [r];
                      logged := logged st; trace := t1 |} Hok eq_refl)
        as (st' & Hrun & Hout).
      exists st'. split; [exact Hrun|].
      rewrite Hout. simpl. rewrite <- app_assoc. reflexivity.
    + destruct (IH {| decoder := NewDecoder units false;
                      stdout := stdout st;
                      logged := logged st ++
                                ["解码请求错误: " +:+
                                 Error_text (ErrUnmarshalType detail)];
                      trace := trace st |} Hok eq_refl)
        as (st' & Hrun & Hout).
      exists st'. split; [exact Hrun|]. exact Hout.
Qed.

End RunClaims.

(** * Further properties of the code *)

(** ** The safety check as a prefix check *)

Lemma asciiSpace_below_RuneSelf (b : Z) :
  strings.asciiSpace b = true -> (utf8.RuneSelf <=? b)%Z = false.
Proof.
  unfold strings.asciiSpace, utf8.RuneSelf. intros H.
  apply Z.leb_gt.
  repeat (apply orb_true_iff in H as [H|H]); apply Z.eqb_eq in H; lia.
Qed.

Lemma TrimSpace_leading_spaces (ws s : string) :
  ascii_spaces ws = true -> strings.TrimSpace (ws +:+ s) = strings.TrimSpace s.
Proof.
  induction ws as [|c ws IH]; intros H; [reflexivity|].
  simpl in H. apply andb_true_iff in H as [Hc Hws].
  rewrite append_cons. cbn [strings.TrimSpace].
  rewrite (asciiSpace_below_RuneSelf _ Hc), Hc. apply IH. exact Hws.
Qed.

Lemma TrimSpace_only_spaces (ws : string) :
  ascii_spaces ws = true -> strings.TrimSpace ws = "".
Proof.
  intros H. rewrite <- (append_nil_r ws).
  rewrite TrimSpace_leading_spaces by assumption. reflexivity.
Qed.

Lemma upper_prefix_of_word (CaseRanges : rune -> rune) (ws p rest : string) :
  ascii_spaces ws = true -> p <> "" -> ascii_word p = true ->
  exists k,
    strings.ToUpper CaseRanges (strings.TrimSpace (ws +:+ p +:+ rest)) =
    strings.upperASCII p +:+ k.
Proof.
  intros Hws Hne Hp.
  rewrite TrimSpace_leading_spaces by assumption.
  destruct (TrimSpace_word p rest Hne Hp) as [k ->].
  apply ToUpper_ascii_prefix. apply ascii_word_isASCII. exact Hp.
Qed.

(** X1.  The safety check of executeQuery looks at the beginning of the
    query only.  After any run of ASCII white space, a word that spells one
    of the four keywords in upper or lower case letters makes the query
    pass, whatever text follows the word: a second statement, for one. *)
Theorem gate_accepts_any_text_after_keyword
  (CaseRanges : rune -> rune) (ws p rest : string) :
  ascii_spaces ws = true ->
  ascii_word p = true ->
  In (strings.upperASCII p) ["SELECT"; "SHOW"; "DESCRIBE"; "DESC"] ->
  gate_rejects CaseRanges (ws +:+ p +:+ rest) = false.
Proof.
  intros Hws Hp Hkw.
  assert (Hne : p <> "").
  { intros ->. simpl in Hkw. destruct Hkw as [H|[H|[H|[H|[]]]]]; discriminate. }
  destruct (upper_prefix_of_word CaseRanges ws p rest Hws Hne Hp) as [k Hk].
  unfold gate_rejects. rewrite Hk. unfold strings.HasPrefix.
  simpl in Hkw. destruct Hkw as [<-|[<-|[<-|[<-|[]]]]].
  - rewrite (prefix_append_l "SELECT" _ k) by reflexivity. reflexivity.
  - rewrite (prefix_append_l "SHOW" _ k) by reflexivity.
    rewrite !andb_false_r. reflexivity.
  - rewrite (prefix_append_l "DESCRIBE" _ k) by reflexivity.
    rewrite !andb_false_r. reflexivity.
  - rewrite (prefix_append_l "DESC" _ k) by reflexivity.
    rewrite !andb_false_r. reflexivity.
Qed.

Lemma byte_val_inj (c d : ascii) : byte_val c = byte_val d -> c = d.
Proof.
  intros H. rewrite <- (byte_chr_val c), <- (byte_chr_val d), H. reflexivity.
Qed.

Lemma upperASCII_first (c : ascii) :
  c <> "s"%char -> c <> "S"%char -> c <> "d"%char -> c <> "D"%char ->
  exists c', strings.upperASCII (String c "") = String c' "" /\
             c' <> "S"%char /\ c' <> "D"%char.
Proof.
  intros Hs HS Hd HD. simpl.
  destruct ((97 <=? byte_val c)%Z && (byte_val c <=? 122)%Z) eqn:E.
  - apply andb_true_iff in E as [E1 E2].
    apply Z.leb_le in E1. apply Z.leb_le in E2.
    eexists. split; [reflexivity|].
    assert (Hv : byte_val (byte_chr (byte_val c - 32)) = (byte_val c - 32)%Z).
    { unfold byte_chr, byte_val at 1.
      rewrite Z.mod_small by lia.
      rewrite N_ascii_embedding by lia. lia. }
    split; intros H; apply (f_equal byte_val) in H; rewrite Hv in H.
    + apply Hs. apply byte_val_inj. change (byte_val "s") with 115%Z.
      change (byte_val "S") with 83%Z in H. lia.
    + apply Hd. apply byte_val_inj. change (byte_val "d") with 100%Z.
      change (byte_val "D") with 68%Z in H. lia.
  - exists c. auto.
Qed.

Lemma prefix_cons_ne (a b : ascii) (p s : string) :
  a <> b -> String.prefix (String a p) (String b s) = false.
Proof.
  intros H.
  change (String.prefix (String a p) (String b s))
    with (if ascii_dec a b then String.prefix p s else false).
  destruct (ascii_dec a b); [contradiction|reflexivity].
Qed.

(** X2.  A query whose first byte after ASCII white space is an ASCII byte
    other than S or D, in either case, is refused: a comment, a bracket or
    any other verb in front of the keyword.  A query of white space alone is
    refused as well. *)
Theorem gate_refuses_other_first_byte
  (CaseRanges : rune -> rune) (ws rest : string) (c : ascii) :
  ascii_spaces ws = true ->
  (byte_val c < utf8.RuneSelf)%Z ->
  strings.asciiSpace (byte_val c) = false ->
  ~ In c ["s"; "S"; "d"; "D"]%char ->
  gate_rejects CaseRanges (ws +:+ String c rest) = true
  /\ gate_rejects CaseRanges ws = true.
Proof.
  intros Hws Hc Hsp Hnot. split.
  - assert (Hw : ascii_word (String c "") = true).
    { simpl. apply Z.ltb_lt in Hc. rewrite Hc, Hsp. reflexivity. }
    destruct (upper_prefix_of_word CaseRanges ws (String c "") rest Hws
                ltac:(discriminate) Hw) as [k Hk].
    change (String c rest) with (String c "" +:+ rest).
    destruct (upperASCII_first c) as (c' & Hu & HS & HD);
      try (intros ->; apply Hnot; simpl; tauto).
    unfold gate_rejects. rewrite Hk, Hu.
    unfold strings.HasPrefix. rewrite append_cons.
    rewrite !prefix_cons_ne by congruence. reflexivity.
  - unfold gate_rejects. rewrite TrimSpace_only_spaces by assumption.
    reflexivity.
Qed.

(** ** The responses of the dispatcher *)

Section DispatchMore.

Variable CaseRanges : rune -> rune.

Lemma handleRequest_ID (s : MCPServer) (req : MCPRequest) (t : Trace) :
  ID (fst (handleRequest CaseRanges s req t)) = req_ID req.
Proof.
  destruct (handleRequest_cases CaseRanges s req t)
    as [(_ & ->)|[(_ & ->)|[(_ & _ & ->)|[(_ & (p & Hp) & ->)|(_ & ->)]]]];
    try reflexivity.
  apply tool_answer_ID. apply (handleToolCall_answer CaseRanges s req p t Hp).
Qed.

(** X3.  Every response carries the version 2.0 and either a result or an
    error, never both and never neither. *)
Theorem response_has_result_or_error_not_both
  (s : MCPServer) (req : MCPRequest) (t : Trace) :
  Jsonrpc (fst (handleRequest CaseRanges s req t)) = "2.0"
  /\ ((Result (fst (handleRequest CaseRanges s req t)) = None /\
       Error (fst (handleRequest CaseRanges s req t)) <> None)
      \/ (Result (fst (handleRequest CaseRanges s req t)) <> None /\
          Error (fst (handleRequest CaseRanges s req t)) = None)).
Proof.
  destruct (handleRequest_cases CaseRanges s req t)
    as [(_ & ->)|[(_ & ->)|[(_ & _ & ->)|[(_ & (p & Hp) & ->)|(_ & ->)]]]];
    simpl; try (split; [reflexivity|]; (left + right); split; congruence).
  destruct (handleToolCall_answer CaseRanges s req p t Hp) as [[x ->]|[x ->]];
    simpl; (split; [reflexivity|]); [right|left]; split; congruence.
Qed.

(** X4.  Only a tools/call whose params decode can reach the database: any
    other request is answered without a check and without a statement, and
    its answer is the same whatever the database is and whatever was sent
    before. *)
Theorem other_requests_leave_database_alone
  (s : MCPServer) (req : MCPRequest) (t : Trace) :
  Method req <> "tools/call" \/ json_Unmarshal (Params req) = None ->
  snd (handleRequest CaseRanges s req t) = t
  /\ forall (s' : MCPServer) (t' : Trace),
       fst (handleRequest CaseRanges s' req t') =
       fst (handleRequest CaseRanges s req t).
Proof.
  intros H.
  assert (Hcase : forall s0 t0,
             exists r, handleRequest CaseRanges s0 req t0 = (r, t0) /\
                       r = fst (handleRequest CaseRanges s req t)).
  { intros s0 t0.
    destruct (handleRequest_cases CaseRanges s0 req t0)
      as [(Hm & E0)|[(Hm & E0)|[(Hm & Hp & E0)|[(Hm & (p & Hp) & _)|(Hm & E0)]]]];
      [| | |exfalso; destruct H as [H|H]; congruence|];
      (destruct (handleRequest_cases CaseRanges s req t)
        as [(Hm' & E)|[(Hm' & E)|[(Hm' & Hp' & E)|[(Hm' & (p' & Hp') & _)|(Hm' & E)]]]];
       [| | |exfalso; destruct H as [H|H]; congruence|]);
      rewrite E0, E; simpl; try (eexists; split; reflexivity);
      try congruence;
      try (exfalso; apply Hm'; rewrite Hm; simpl; tauto);
      try (exfalso; apply Hm; rewrite Hm'; simpl; tauto). }
  split.
  - destruct (Hcase s t) as (r & -> & _). reflexivity.
  - intros s' t'. destruct (Hcase s' t') as (r & -> & ->). reflexivity.
Qed.

(** The forms the message of a tool error can take. *)
Lemma tool_error_forms (s : MCPServer) (req : MCPRequest) (p : ToolCallParams)
  (t : Trace) :
  json_Unmarshal (Params req) = Some p ->
  (exists text,
      fst (handleToolCall CaseRanges s req t) = contentResponse (req_ID req) text)
  \/ exists message,
       fst (handleToolCall CaseRanges s req t) =
       errorResponse (req_ID req) message /\
       ((message = "Unknown tool" /\
         ~ In (Name p) ["list_tables"; "describe_table"; "query_table";
                        "execute_query"; "show_table_indexes"])
        \/ (exists field,
              In (Name p, field) required_argument /\
              assert_string (Arguments p !! field) = None /\
              message = field +:+ " is required")
        \/ (In (Name p) ["list_tables"; "describe_table"; "show_table_indexes"] /\
            exists err, message = "Database error: " +:+ err)
        \/ (In (Name p) ["query_table"; "execute_query"] /\
            (message = gate_message \/
             (exists err, message = "查询错误: " +:+ err) \/
             (exists err, message = "获取列信息错误: " +:+ err)))).
Proof.
  intros Hp.
  assert (Hexec : forall q,
             In (Name p) ["query_table"; "execute_query"] ->
             (exists text,
                 fst (executeQuery CaseRanges s (req_ID req) q t) =
                 contentResponse (req_ID req) text)
             \/ exists message,
                  fst (executeQuery CaseRanges s (req_ID req) q t) =
                  errorResponse (req_ID req) message /\
                  ((message = "Unknown tool" /\
                    ~ In (Name p) ["list_tables"; "describe_table"; "query_table";
                                   "execute_query"; "show_table_indexes"])
                   \/ (exists field,
                         In (Name p, field) required_argument /\
                         assert_string (Arguments p !! field) = None /\
                         message = field +:+ " is required")
                   \/ (In (Name p) ["list_tables"; "describe_table";
                                    "show_table_indexes"] /\
                       exists err, message = "Database error: " +:+ err)
                   \/ (In (Name p) ["query_table"; "execute_query"] /\
                       (message = gate_message \/
                        (exists err, message = "查询错误: " +:+ err) \/
                        (exists err, message = "获取列信息错误: " +:+ err))))).
  { intros q Hn. destruct (gate_rejects CaseRanges q) eqn:G.
    - rewrite executeQuery_rejected by assumption. right.
      eexists. split; [reflexivity|]. do 3 right. auto.
    - destruct (executeQuery_run CaseRanges s (req_ID req) q t G) as (r & -> & Hr).
      simpl. destruct (db s (statements t) q) as [err|rows].
      + right. eexists. split; [exact Hr|]. do 3 right. eauto.
      + destruct (rows_Columns rows) as [err|columns].
        * right. eexists. split; [exact Hr|]. do 3 right. eauto 6.
        * left. eauto. }
  destruct (handleToolCall_cases CaseRanges s req p t Hp)
    as [(Hn & ->)|[(Hn & tn & _ & ->)|[(Hn & tn & _ & ->)|[(Hn & q & _ & ->)|
        [(Hn & tn & _ & ->)|[(Hn & Ha & ->)|[(Hn & Ha & ->)|(Hn & ->)]]]]]]].
  - destruct (listTables_run s (req_ID req) t) as (r & -> & Hr). simpl.
    destruct (db s _ _) as [err|rows]; [right|left; exact Hr].
    eexists. split; [exact Hr|]. do 2 right. left. rewrite Hn. simpl. eauto.
  - destruct (describeTable_run s (req_ID req) tn t) as (r & -> & Hr). simpl.
    destruct (db s _ _) as [err|rows]; [right|left; exact Hr].
    eexists. split; [exact Hr|]. do 2 right. left. rewrite Hn. simpl. eauto.
  - apply Hexec. rewrite Hn. simpl. auto.
  - apply Hexec. rewrite Hn. simpl. auto.
  - destruct (showTableIndexes_run s (req_ID req) tn t) as (r & -> & Hr). simpl.
    destruct (db s _ _) as [err|rows]; [right|left; exact Hr].
    eexists. split; [exact Hr|]. do 2 right. left. rewrite Hn. simpl. eauto 6.
  - right. eexists. split; [reflexivity|]. right; left.
    exists "table_name". split; [|auto].
    unfold required_argument. simpl in Hn |- *.
    destruct Hn as [<-|[<-|[<-|[]]]]; auto.
  - right. eexists. split; [reflexivity|]. right; left.
    exists "query". rewrite Hn. unfold required_argument. simpl. auto.
  - right. eexists. split; [reflexivity|]. left. auto.
Qed.

(** X5.  The message of an error a tool call is answered with has one of
    six forms: the tool is not known; a required argument is missing or not
    a string; the database failed in list_tables, describe_table or
    show_table_indexes; and, for query_table and execute_query, the
    statement was refused, the query failed, or the columns could not be
    read. *)
Theorem tool_error_messages_are_of_six_forms
  (s : MCPServer) (req : MCPRequest) (p : ToolCallParams) (t : Trace)
  (message : string) :
  Method req = "tools/call" ->
  json_Unmarshal (Params req) = Some p ->
  fst (handleRequest CaseRanges s req t) = errorResponse (req_ID req) message ->
  (message = "Unknown tool" /\
   ~ In (Name p) ["list_tables"; "describe_table"; "query_table";
                  "execute_query"; "show_table_indexes"])
  \/ (exists field,
        In (Name p, field) required_argument /\
        assert_string (Arguments p !! field) = None /\
        message = field +:+ " is required")
  \/ (In (Name p) ["list_tables"; "describe_table"; "show_table_indexes"] /\
      exists err, message = "Database error: " +:+ err)
  \/ (In (Name p) ["query_table"; "execute_query"] /\
      (message = gate_message \/
       (exists err, message = "查询错误: " +:+ err) \/
       (exists err, message = "获取列信息错误: " +:+ err))).
Proof.
  intros Hm Hp Hr.
  assert (E : handleRequest CaseRanges s req t = handleToolCall CaseRanges s req t).
  { destruct (handleRequest_cases CaseRanges s req t)
      as [(E & _)|[(E & _)|[(_ & E & _)|[(_ & _ & E)|(N & _)]]]];
      try congruence.
    exfalso. apply N. rewrite Hm. simpl. auto. }
  rewrite E in Hr.
  destruct (tool_error_forms s req p t Hp) as [[text Ht]|(m & Hm' & Hforms)].
  - rewrite Ht in Hr. discriminate.
  - rewrite Hm' in Hr. inversion Hr; subst m. exact Hforms.
Qed.

Lemma tools_call_is_handleToolCall (s : MCPServer) (req : MCPRequest) (t : Trace) :
  Method req = "tools/call" ->
  handleRequest CaseRanges s req t = handleToolCall CaseRanges s req t.
Proof.
  intros Hm. unfold handleRequest. rewrite Hm. reflexivity.
Qed.

(** X6.  The dispatcher knows exactly the tools that tools/list advertises:
    a call is answered with the error Unknown tool if and only if its name
    is not the name of an advertised tool. *)
Theorem unknown_tool_iff_not_advertised
  (s : MCPServer) (req : MCPRequest) (p : ToolCallParams) (t : Trace) :
  Method req = "tools/call" ->
  json_Unmarshal (Params req) = Some p ->
  (fst (handleRequest CaseRanges s req t) =
   errorResponse (req_ID req) "Unknown tool"
   <-> ~ In (Name p) (map tool_Name tools)).
Proof.
  intros Hm Hp. rewrite (tools_call_is_handleToolCall s req t Hm).
  change (map tool_Name tools)
    with ["list_tables"; "describe_table"; "query_table"; "execute_query";
          "show_table_indexes"].
  split.
  - intros Hr.
    destruct (tool_error_forms s req p t Hp) as [[text Ht]|(m & Hm' & Hforms)].
    + rewrite Ht in Hr. discriminate.
    + rewrite Hm' in Hr. inversion Hr as [Hmsg]. subst m.
      destruct Hforms as [(_ & Hn)|[(f & Hin & _ & Hf)|[(_ & err & He)|(_ & Hq)]]].
      * exact Hn.
      * exfalso. unfold required_argument in Hin. simpl in Hin.
        destruct Hin as [H|[H|[H|[H|[]]]]]; inversion H; subst f; discriminate.
      * exfalso. revert He. cbv [String.append]. discriminate.
      * exfalso. destruct Hq as [H|[[err H]|[err H]]]; revert H;
          unfold gate_message; cbv [String.append]; discriminate.
  - intros Hn.
    destruct (handleToolCall_cases CaseRanges s req p t Hp)
      as [(H & _)|[(H & _)|[(H & _)|[(H & _)|[(H & _)|[(H & _)|[(H & _)|(_ & ->)]]]]]]];
      try reflexivity; exfalso; apply Hn; try (rewrite H; simpl; tauto).
    simpl in H. simpl. tauto.
Qed.

(** X7.  The required arguments the dispatcher demands are the ones
    tools/list advertises.  For an advertised tool, every argument in the
    required list of its schema is declared there as a string; a call that
    leaves one out, or gives it another type, is answered with the error
    that names it and sends nothing to the database; and a call that gives
    them all as strings is never answered with a missing-argument error. *)
Theorem advertised_required_arguments_are_enforced
  (tool : Tool) (s : MCPServer) (req : MCPRequest) (p : ToolCallParams)
  (t : Trace) :
  In tool tools ->
  Method req = "tools/call" ->
  json_Unmarshal (Params req) = Some p ->
  Name p = tool_Name tool ->
  (forall field, In field (Required (InputSchema tool)) ->
     exists description,
       In (field, ("string", description)) (Properties (InputSchema tool)))
  /\ (forall field, In field (Required (InputSchema tool)) ->
        (forall x, Arguments p !! field <> Some (JString x)) ->
        handleRequest CaseRanges s req t =
        (errorResponse (req_ID req) (field +:+ " is required"), t))
  /\ ((forall field, In field (Required (InputSchema tool)) ->
         exists x, Arguments p !! field = Some (JString x)) ->
      forall name field,
        In (name, field) required_argument ->
        fst (handleRequest CaseRanges s req t) <>
        errorResponse (req_ID req) (field +:+ " is required")).
Proof.
  intros Htool Hm Hp Hname.
  assert (Hreq : forall field,
             In field (Required (InputSchema tool)) <->
             In (Name p, field) required_argument).
  { intros field. rewrite Hname. unfold tools in Htool. simpl in Htool.
    destruct Htool as [<-|[<-|[<-|[<-|[<-|[]]]]]];
      unfold required_argument; simpl; split;
      intros H; repeat (destruct H as [H|H]); try inversion H; subst; tauto. }
  split; [|split].
  - intros field Hin. unfold tools in Htool. simpl in Htool.
    destruct Htool as [<-|[<-|[<-|[<-|[<-|[]]]]]]; simpl in Hin |- *;
      try contradiction; destruct Hin as [<-|[]]; eexists; eauto.
  - intros field Hin Hmiss.
    apply (missing_argument_response CaseRanges s req p field t Hm Hp).
    + apply Hreq. exact Hin.
    + apply assert_string_None. exact Hmiss.
  - intros Hall name field Hin Hr.
    rewrite (tools_call_is_handleToolCall s req t Hm) in Hr.
    assert (Hfield : exists c rest, field +:+ " is required" = String c rest /\
                                    (c = "t"%char \/ c = "q"%char)).
    { unfold required_argument in Hin. simpl in Hin.
      destruct Hin as [H|[H|[H|[H|[]]]]]; inversion H; subst;
        eexists; eexists; split; try reflexivity; auto. }
    destruct Hfield as (c & rest & Hf & Hc). rewrite Hf in Hr.
    destruct (tool_error_forms s req p t Hp) as [[text Ht]|(m & Hm' & Hforms)].
    + rewrite Ht in Hr. discriminate.
    + rewrite Hm' in Hr. inversion Hr as [Hmsg]. subst m.
      destruct Hforms as [(Hu & _)|[(f & Hin' & Hnone & _)|[(_ & err & He)|(_ & Hq)]]].
      * revert Hu. destruct Hc as [-> | ->]; discriminate.
      * apply Hreq in Hin'. destruct (Hall f Hin') as [x Hx].
        rewrite Hx in Hnone. discriminate.
      * revert He. cbv [String.append]. destruct Hc as [-> | ->]; discriminate.
      * destruct Hq as [H|[[err H]|[err H]]]; revert H;
          unfold gate_message; cbv [String.append];
          destruct Hc as [-> | ->]; discriminate.
Qed.

End DispatchMore.

(** ** The session loop on whole inputs *)

Section RunMore.

Variable CaseRanges : rune -> rune.

Lemma serve_IDs (s : MCPServer) (units : list InputUnit) (t : Trace) :
  map ID (serve CaseRanges s units t) = map req_ID (requests units).
Proof.
  revert t. induction units as [|u units IH]; intros t; [reflexivity|].
  destruct u as [req|detail|detail]; simpl; try apply IH.
  pose proof (handleRequest_ID CaseRanges s req t) as Hid.
  destruct (handleRequest CaseRanges s req t) as [r t1]. simpl in *.
  rewrite Hid, IH. reflexivity.
Qed.

Lemma run_serves_log (s : MCPServer) (units : list InputUnit) (st : Session) :
  forallb (fun u => negb (is_malformed u)) units = true ->
  decoder st = NewDecoder units false ->
  exists st',
    run CaseRanges (S (length units)) s st = (true, st') /\
    stdout st' = stdout st ++ serve CaseRanges s units (trace st) /\
    logged st' = logged st ++ mistyped_log units.
Proof.
  revert st. induction units as [|u units IH]; intros st Hok Hdec.
  - exists st. simpl length. rewrite run_S.
    unfold iteration, Decode. rewrite Hdec. simpl.
    rewrite !app_nil_r. auto.
  - simpl in Hok. apply andb_true_iff in Hok as [Hu Hok].
    simpl length. rewrite run_S.
    unfold iteration, Decode. rewrite Hdec. simpl.
    destruct u as [req|detail|detail]; [| |discriminate].
    + destruct (handleRequest CaseRanges s req (trace st)) as [r t1] eqn:Hr.
      destruct (IH {| decoder := NewDecoder units false;
                      stdout := stdout st ++ [r];
                      logged := logged st; trace := t1 |} Hok eq_refl)
        as (st' & Hrun & Hout & Hlog).
      exists st'. split; [exact Hrun|]. split; [|exact Hlog].
      rewrite Hout. simpl. rewrite <- app_assoc. reflexivity.
    + destruct (IH {| decoder := NewDecoder units false;
                      stdout := stdout st;
                      logged := logged st ++
                                ["解码请求错误: " +:+
                                 Error_text (ErrUnmarshalType detail)];
                      trace := trace st |} Hok eq_refl)
        as (st' & Hrun & Hout & Hlog).
      exists st'. split; [exact Hrun|]. split; [exact Hout|].
      rewrite Hlog. simpl. rewrite <- app_assoc. reflexivity.
Qed.

(** X8.  On an input of well-formed JSON values that ends cleanly, run
    returns after one pass per value and one more.  It has then written one
    response per request, in the order the requests were read and each with
    the identifier of its request, and logged one line per value that is not
    a request; nothing else is written or logged. *)
Theorem run_answers_requests_in_order (s : MCPServer) (units : list InputUnit) :
  forallb (fun u => negb (is_malformed u)) units = true ->
  exists st',
    run CaseRanges (S (length units)) s (start units false) = (true, st')
    /\ stdout st' = serve CaseRanges s units []
    /\ map ID (stdout st') = map req_ID (requests units)
    /\ logged st' = mistyped_log units.
Proof.
  intros Hok.
  destruct (run_serves_log s units (start units false) Hok eq_refl)
    as (st' & Hrun & Hout & Hlog).
  exists st'. simpl in Hout, Hlog.
  split; [exact Hrun|]. split; [exact Hout|]. split; [|exact Hlog].
  rewrite Hout. apply serve_IDs.
Qed.

Lemma iteration_never_ends (s : MCPServer) (st : Session) :
  never_ends (decoder st) = true ->
  exists st', iteration CaseRanges s st = Some st' /\
              never_ends (decoder st') = true.
Proof.
  unfold never_ends, iteration, Decode.
  destruct (dec_err (decoder st)) as [e|] eqn:He.
  - intros H. apply negb_true_iff in H. rewrite H.
    eexists. split; [reflexivity|]. simpl. rewrite He, H. reflexivity.
  - destruct (input (decoder st)) as [|[req|detail|detail] rest] eqn:Hin.
    + simpl. rewrite orb_false_r. intros ->.
      eexists. split; reflexivity.
    + intros H. destruct (handleRequest CaseRanges s req (trace st)) as [r t1].
      eexists. split; [reflexivity|]. exact H.
    + intros H. eexists. split; [reflexivity|]. exact H.
    + intros _. eexists. split; reflexivity.
Qed.

Lemma run_never_ends (s : MCPServer) (fuel : nat) (st : Session) :
  never_ends (decoder st) = true -> fst (run CaseRanges fuel s st) = false.
Proof.
  revert st. induction fuel as [|fuel IH]; intros st H; [reflexivity|].
  rewrite run_S.
  destruct (iteration_never_ends s st H) as (st' & -> & H').
  apply IH. exact H'.
Qed.

(** X9.  run returns exactly when its input holds no bytes that are not
    JSON and ends between two values.  On an input with malformed bytes
    anywhere, or cut inside a value, the loop is never left, whatever the
    number of passes: requests before that point are answered, then the same
    decode error is logged on every pass. *)
Theorem run_returns_iff_input_is_clean
  (s : MCPServer) (units : list InputUnit) (cut : bool) :
  (exists fuel, fst (run CaseRanges fuel s (start units cut)) = true)
  <-> (cut = false /\ forallb (fun u => negb (is_malformed u)) units = true).
Proof.
  split.
  - intros [fuel Hret].
    destruct (never_ends (decoder (start units cut))) eqn:Hn.
    + rewrite (run_never_ends s fuel _ Hn) in Hret. discriminate.
    + unfold never_ends in Hn. simpl in Hn.
      apply orb_false_iff in Hn as [-> Hm]. split; [reflexivity|].
      clear Hret. induction units as [|u units IH]; [reflexivity|].
      simpl in Hm |- *. apply orb_false_iff in Hm as [-> Hm].
      simpl. apply IH. exact Hm.
  - intros [-> Hok].
    destruct (run_serves_log s units (start units false) Hok eq_refl)
      as (st' & Hrun & _).
    exists (S (length units)). rewrite Hrun. reflexivity.
Qed.

(** What one request adds to the trace. *)
Lemma handleRequest_adds (s : MCPServer) (req : MCPRequest) (t : Trace) :
  exists new : Trace,
    snd (handleRequest CaseRanges s req t) = t ++ new
    /\ Forall (fun stmt => gate_rejects CaseRanges stmt = false) (statements new)
    /\ (length (statements new) <= 1)%nat.
Proof.
  assert (Hnone : exists new : Trace,
             t = t ++ new
             /\ Forall (fun stmt => gate_rejects CaseRanges stmt = false)
                       (statements new)
             /\ (length (statements new) <= 1)%nat).
  { exists []. rewrite app_nil_r. simpl. auto. }
  assert (Hexec : forall q, exists new : Trace,
             snd (executeQuery CaseRanges s (req_ID req) q t) = t ++ new
             /\ Forall (fun stmt => gate_rejects CaseRanges stmt = false)
                       (statements new)
             /\ (length (statements new) <= 1)%nat).
  { intros q. destruct (gate_rejects CaseRanges q) eqn:G.
    - rewrite executeQuery_rejected by assumption. exists [EvGate q]. simpl. auto.
    - destruct (executeQuery_run CaseRanges s (req_ID req) q t G) as (r & -> & _).
      exists [EvGate q; EvQuery q]. simpl. auto. }
  destruct (handleRequest_cases CaseRanges s req t)
    as [(_ & ->)|[(_ & ->)|[(_ & _ & ->)|[(_ & (p & Hp) & ->)|(_ & ->)]]]];
    try exact Hnone.
  destruct (handleToolCall_cases CaseRanges s req p t Hp)
    as [(Hn & ->)|[(Hn & tn & _ & ->)|[(_ & tn & _ & ->)|[(_ & q & _ & ->)|
        [(Hn & tn & _ & ->)|[(_ & _ & ->)|[(_ & _ & ->)|(_ & ->)]]]]]]];
    try exact Hnone; try apply Hexec.
  - destruct (listTables_run s (req_ID req) t) as (r & -> & _).
    eexists. split; [reflexivity|]. simpl.
    split; [constructor; [reflexivity|constructor]|lia].
  - destruct (describeTable_run s (req_ID req) tn t) as (r & -> & _).
    eexists. split; [reflexivity|]. simpl.
    split; [constructor;
            [apply (proj1 (proj2 (gate_accepts_direct_statements CaseRanges tn)))
            |constructor]|lia].
  - destruct (showTableIndexes_run s (req_ID req) tn t) as (r & -> & _).
    eexists. split; [reflexivity|]. simpl.
    split; [constructor;
            [apply (proj2 (proj2 (gate_accepts_direct_statements CaseRanges tn)))
            |constructor]|lia].
Qed.

Lemma iteration_keeps_invariant (s : MCPServer) (st st' : Session) (n : nat) :
  iteration CaseRanges s st = Some st' ->
  Forall (fun stmt => gate_rejects CaseRanges stmt = false) (statements (trace st)) ->
  (length (statements (trace st)) <= length (stdout st))%nat ->
  (length (stdout st) + length (requests (input (decoder st))) <= n)%nat ->
  Forall (fun stmt => gate_rejects CaseRanges stmt = false) (statements (trace st'))
  /\ (length (statements (trace st')) <= length (stdout st'))%nat
  /\ (length (stdout st') + length (requests (input (decoder st'))) <= n)%nat.
Proof.
  unfold iteration, Decode. intros Hit Hall Hlen Hn.
  destruct (dec_err (decoder st)) as [e|] eqn:He.
  - destruct (String.eqb (Error_text e) "EOF"); [discriminate|].
    inversion Hit; subst st'; simpl. auto.
  - destruct (input (decoder st)) as [|[req|detail|detail] rest] eqn:Hin.
    + destruct (truncated (decoder st)); simpl in Hit; [|discriminate].
      inversion Hit; subst st'; simpl. auto.
    + destruct (handleRequest_adds s req (trace st)) as (new & Hnew & Hacc & H1).
      destruct (handleRequest CaseRanges s req (trace st)) as [r t1].
      simpl in Hnew. subst t1. inversion Hit; subst st'; simpl.
      rewrite statements_app, !length_app. simpl in Hn |- *.
      split; [apply Forall_app; auto|]. split; lia.
    + simpl in Hit. inversion Hit; subst st'; simpl. auto.
    + simpl in Hit. inversion Hit; subst st'; simpl. auto.
Qed.

Lemma run_keeps_invariant (s : MCPServer) (n fuel : nat) (st : Session) :
  Forall (fun stmt => gate_rejects CaseRanges stmt = false) (statements (trace st)) ->
  (length (statements (trace st)) <= length (stdout st))%nat ->
  (length (stdout st) + length (requests (input (decoder st))) <= n)%nat ->
  Forall (fun stmt => gate_rejects CaseRanges stmt = false)
         (statements (trace (snd (run CaseRanges fuel s st))))
  /\ (length (statements (trace (snd (run CaseRanges fuel s st))))
      <= length (stdout (snd (run CaseRanges fuel s st))))%nat
  /\ (length (stdout (snd (run CaseRanges fuel s st))) <= n)%nat.
Proof.
  revert st. induction fuel as [|fuel IH]; intros st Hall Hlen Hn.
  - simpl. split; [exact Hall|]. split; [exact Hlen|]. lia.
  - rewrite run_S. destruct (iteration CaseRanges s st) as [st'|] eqn:Hit.
    + destruct (iteration_keeps_invariant s st st' n Hit Hall Hlen Hn)
        as (H1 & H2 & H3).
      apply IH; assumption.
    + simpl. split; [exact Hall|]. split; [exact Hlen|]. lia.
Qed.

(** X10.  Whatever the input and however long run goes on, every
    statement it has sent to the database is one the allow-list check of
    executeQuery accepts, it has sent at most one statement per response
    written, and it has written at most one response per request of the
    input. *)
Theorem run_sends_only_accepted_statements
  (s : MCPServer) (units : list InputUnit) (cut : bool) (fuel : nat) :
  Forall (fun stmt => gate_rejects CaseRanges stmt = false)
         (statements (trace (snd (run CaseRanges fuel s (start units cut)))))
  /\ (length (statements (trace (snd (run CaseRanges fuel s (start units cut)))))
      <= length (stdout (snd (run CaseRanges fuel s (start units cut)))))%nat
  /\ (length (stdout (snd (run CaseRanges fuel s (start units cut))))
      <= length (requests units))%nat.
Proof.
  apply run_keeps_invariant; simpl; auto.
Qed.

End RunMore.

(** ** Rows and columns of a result *)

Lemma foldl_insert_other (col : string) (l : list (string * Value))
  (m : gmap string Value) :
  ~ In col (map fst l) ->
  foldl (fun row cv => <[cv.1 := store_value cv.2]> row) m l !! col = m !! col.
Proof.
  revert m. induction l as [|[k v] l IH]; intros m Hn; [reflexivity|].
  simpl in Hn |- *. rewrite IH by tauto.
  apply lookup_insert_ne. intros ->. apply Hn. left. reflexivity.
Qed.

Lemma zip_keys (after : list string) (values : list Value) (col : string) :
  ~ In col after -> ~ In col (map fst (zip after values)).
Proof.
  revert values. induction after as [|c cs IH]; intros values Hn; [auto|].
  destruct values as [|v vs]; [auto|].
  simpl in Hn |- *. intros [H|H]; [tauto|]. apply (IH vs); tauto.
Qed.

(** X11.  When two columns of a result carry the same name, the row
    executeQuery builds keeps one value under that name, the value of the
    last of them: the values of the earlier columns of that name are lost,
    and every column of that name shows the last one. *)
Theorem duplicate_column_name_keeps_last_value
  (before after : list string) (col : string) (values : list Value) (v : Value) :
  ~ In col after ->
  values !! length before = Some v ->
  make_row (before ++ col :: after) values !! col = Some (store_value v).
Proof.
  intros Hafter Hv.
  apply list_elem_of_split_length in Hv as (v1 & v2 & -> & Hlen).
  unfold make_row.
  rewrite zip_with_app by congruence. simpl zip_with.
  rewrite foldl_app. simpl foldl.
  rewrite foldl_insert_other by (apply zip_keys; exact Hafter).
  apply lookup_insert_eq.
Qed.






(** ** Rune counts of the lines of the table *)

Lemma DecodeRune_append_ascii (s b : string) (c : ascii) :
  s <> "" -> (byte_val c < utf8.RuneSelf)%Z ->
  utf8.DecodeRuneInString (s +:+ String c b) = utf8.DecodeRuneInString s.
Proof.
  intros Hne Hc. destruct s as [|c0 t0]; [congruence|].
  rewrite append_cons. unfold utf8.DecodeRuneInString.
  destruct (byte_val c0 <? utf8.RuneSelf)%Z; [reflexivity|].
  destruct (utf8.first (byte_val c0)) as [[[sz lo] hi]|] eqn:Hf; [|reflexivity].
  apply first_Some in Hf as (_ & Hsz & Hlo).
  unfold utf8.is_cont, utf8.RuneSelf in *.
  destruct t0 as [|c1 [|c2 [|c3 t3]]]; rewrite ?append_cons, ?append_nil_l;
    cbn [String.length];
    repeat match goal with
    | |- context [if ?x then _ else _] => destruct x eqn:?
    end; try reflexivity; exfalso; bool_hyps; lia.
Qed.

Lemma DecodeRune_width (s : string) :
  s <> "" ->
  (1 <= snd (utf8.DecodeRuneInString s) <= String.length s)%nat.
Proof.
  intros Hne. destruct s as [|c0 t0]; [congruence|].
  unfold utf8.DecodeRuneInString.
  destruct (byte_val c0 <? utf8.RuneSelf)%Z; [simpl; lia|].
  destruct (utf8.first (byte_val c0)) as [[[sz lo] hi]|] eqn:Hf; [|simpl; lia].
  apply first_Some in Hf as (_ & Hsz & Hlo).
  destruct t0 as [|c1 [|c2 [|c3 t3]]]; cbn [String.length];
    repeat match goal with
    | |- context [if ?x then _ else _] => destruct x eqn:?
    end; cbn [snd]; lia.
Qed.

Lemma drop_bytes_append (n : nat) (s t : string) :
  (n <= String.length s)%nat -> drop_bytes n (s +:+ t) = drop_bytes n s +:+ t.
Proof.
  revert s. induction n as [|n IH]; intros s H; [reflexivity|].
  destruct s as [|c s]; simpl in H; [lia|].
  rewrite append_cons. simpl. apply IH. lia.
Qed.

Lemma length_drop_bytes (n : nat) (s : string) :
  String.length (drop_bytes n s) = (String.length s - n)%nat.
Proof.
  revert s. induction n as [|n IH]; intros s; [simpl; lia|].
  destruct s as [|c s]; simpl; [reflexivity|]. apply IH.
Qed.

Lemma range_fuel_step (fuel : nat) (s : string) :
  s <> "" ->
  utf8.range_fuel (S fuel) s =
  utf8.DecodeRuneInString s
  :: utf8.range_fuel fuel (drop_bytes (snd (utf8.DecodeRuneInString s)) s).
Proof.
  intros Hne. destruct s as [|c t]; [congruence|].
  cbn [utf8.range_fuel].
  destruct (utf8.DecodeRuneInString (String c t)) as [r w]. reflexivity.
Qed.

Lemma range_fuel_nil (fuel : nat) : utf8.range_fuel fuel "" = [].
Proof. destruct fuel; reflexivity. Qed.

Lemma range_fuel_surplus (fuel : nat) (s : string) :
  (String.length s <= fuel)%nat -> utf8.range_fuel fuel s = utf8.range s.
Proof.
  unfold utf8.range.
  remember (String.length s) as n eqn:Hn.
  revert s Hn fuel.
  induction n as [n IH] using lt_wf_ind. intros s Hn fuel Hf.
  destruct s as [|c t]; [simpl in Hn; subst; apply range_fuel_nil|].
  destruct n as [|n]; [simpl in Hn; lia|].
  destruct fuel as [|fuel]; [lia|].
  rewrite !range_fuel_step by congruence. f_equal.
  pose proof (DecodeRune_width (String c t) ltac:(congruence)) as Hw.
  set (w := snd (utf8.DecodeRuneInString (String c t))) in *.
  pose proof (length_drop_bytes w (String c t)) as Hl.
  rewrite (IH (String.length (drop_bytes w (String c t))))
    by (try reflexivity; lia).
  symmetry. apply (IH (String.length (drop_bytes w (String c t))));
    try reflexivity; lia.
Qed.

Lemma range_append_ascii (s b : string) (c : ascii) :
  (byte_val c < utf8.RuneSelf)%Z ->
  utf8.range (s +:+ String c b) = utf8.range s ++ utf8.range (String c b).
Proof.
  intros Hc.
  remember (String.length s) as n eqn:Hn. revert s Hn.
  induction n as [n IH] using lt_wf_ind. intros s Hn.
  destruct s as [|c0 t0]; [reflexivity|].
  pose proof (DecodeRune_width (String c0 t0) ltac:(congruence)) as Hw.
  unfold utf8.range at 1 2.
  rewrite length_append. cbn [String.length Nat.add].
  rewrite !range_fuel_step by (rewrite ?append_cons; congruence).
  rewrite DecodeRune_append_ascii by (assumption || congruence).
  set (w := snd (utf8.DecodeRuneInString (String c0 t0))) in *.
  rewrite <- app_comm_cons. f_equal.
  rewrite drop_bytes_append by lia.
  pose proof (length_drop_bytes w (String c0 t0)) as Hl.
  cbn [String.length] in Hl, Hw.
  rewrite !range_fuel_surplus
    by (rewrite ?length_append, ?Hl; cbn [String.length]; lia).
  apply (IH (String.length (drop_bytes w (String c0 t0)))); [|reflexivity].
  rewrite Hl, Hn. cbn [String.length]. lia.
Qed.

Lemma RuneCount_ascii_cons (c : ascii) (s : string) :
  (byte_val c < utf8.RuneSelf)%Z ->
  utf8.RuneCountInString (String c s) = S (utf8.RuneCountInString s).
Proof.
  intros Hc. unfold utf8.RuneCountInString, utf8.range.
  cbn [String.length].
  rewrite range_fuel_step by congruence.
  assert (Hd : utf8.DecodeRuneInString (String c s) = (byte_val c, 1%nat)).
  { unfold utf8.DecodeRuneInString.
    apply Z.ltb_lt in Hc. rewrite Hc. reflexivity. }
  rewrite Hd. reflexivity.
Qed.

Lemma RuneCount_append_ascii (s b : string) (c : ascii) :
  (byte_val c < utf8.RuneSelf)%Z ->
  utf8.RuneCountInString (s +:+ String c b) =
  S (utf8.RuneCountInString s + utf8.RuneCountInString b).
Proof.
  intros Hc. unfold utf8.RuneCountInString at 1.
  rewrite range_append_ascii by assumption.
  rewrite length_app.
  change (length (utf8.range s)) with (utf8.RuneCountInString s).
  change (length (utf8.range (String c b)))
    with (utf8.RuneCountInString (String c b)).
  rewrite RuneCount_ascii_cons by assumption. lia.
Qed.

Lemma RuneCount_le_length (s : string) :
  (utf8.RuneCountInString s <= String.length s)%nat.
Proof.
  unfold utf8.RuneCountInString, utf8.range.
  generalize (String.length s) at 1 as fuel. intros fuel.
  remember (String.length s) as n eqn:Hn. revert s Hn fuel.
  induction n as [n IH] using lt_wf_ind. intros s Hn fuel.
  destruct fuel as [|fuel]; [simpl; lia|].
  destruct s as [|c t]; [simpl; lia|].
  rewrite range_fuel_step by congruence.
  pose proof (DecodeRune_width (String c t) ltac:(congruence)) as Hw.
  set (w := snd (utf8.DecodeRuneInString (String c t))) in *.
  pose proof (length_drop_bytes w (String c t)) as Hl.
  cbn [length].
  specialize (IH (String.length (drop_bytes w (String c t)))
                 ltac:(lia) _ eq_refl fuel).
  lia.
Qed.

Lemma RuneCount_Repeat_ascii (c : ascii) (n : nat) (rest : string) :
  (byte_val c < utf8.RuneSelf)%Z ->
  utf8.RuneCountInString (strings.Repeat (String c "") n +:+ rest) =
  (n + utf8.RuneCountInString rest)%nat.
Proof.
  intros Hc. induction n as [|n IH]; [reflexivity|].
  change (strings.Repeat (String c "") (S n))
    with (String c "" +:+ strings.Repeat (String c "") n).
  rewrite append_assoc, append_cons, append_nil_l.
  rewrite RuneCount_ascii_cons by assumption. rewrite IH. reflexivity.
Qed.

(** A cell written by [%-*s ] in front of [rest]. *)
Lemma RuneCount_cell (width : nat) (x rest : string) :
  utf8.RuneCountInString
    ((fmt.pad_left_justified width x +:+ " ") +:+ rest) =
  (Nat.max width (utf8.RuneCountInString x) + 1
   + utf8.RuneCountInString rest)%nat.
Proof.
  unfold fmt.pad_left_justified.
  rewrite !append_assoc.
  change (" " +:+ rest) with (String " " rest).
  assert (Hsp : (byte_val " " < utf8.RuneSelf)%Z) by reflexivity.
  destruct (width - utf8.RuneCountInString x)%nat as [|k] eqn:Hk.
  - cbn [strings.Repeat]. rewrite append_nil_l.
    rewrite RuneCount_append_ascii by assumption. lia.
  - change (strings.Repeat " " (S k)) with (" " +:+ strings.Repeat " " k).
    rewrite append_assoc.
    change (" " +:+ strings.Repeat " " k +:+ String " " rest)
      with (String " " (strings.Repeat " " k +:+ String " " rest)).
    rewrite RuneCount_append_ascii by assumption.
    rewrite RuneCount_Repeat_ascii by assumption.
    rewrite RuneCount_ascii_cons by assumption. lia.
Qed.

Lemma RuneCount_cells (width : string -> nat) (cell : string -> string)
  (columns : list string) (rest : string) :
  utf8.RuneCountInString
    (flat (map (fun col => fmt.pad_left_justified (width col) (cell col) +:+ " ")
               columns) +:+ rest) =
  (list_sum (map (fun col => Nat.max (width col)
                                     (utf8.RuneCountInString (cell col)))
                 columns)
   + length columns + utf8.RuneCountInString rest)%nat.
Proof.
  induction columns as [|col columns IH]; [reflexivity|].
  cbn [map length].
  change (flat (?x :: ?l)) with (x +:+ flat l).
  change (list_sum (?x :: ?l)) with (x + list_sum l)%nat.
  rewrite append_assoc, RuneCount_cell, IH. lia.
Qed.

Lemma longest_value_ge (results : list (gmap string Value))
  (row : gmap string Value) (col : string) :
  In row results ->
  (String.length (valueStr row col) <= longest_value results col)%nat.
Proof.
  induction results as [|r results IH]; intros Hin; [destruct Hin|].
  unfold longest_value in *. cbn [foldr].
  destruct Hin as [->|Hin]; [lia|]. specialize (IH Hin). lia.
Qed.

Lemma cellStr_le_valueStr (row : gmap string Value) (col : string) :
  (String.length (cellStr row col) <= String.length (valueStr row col))%nat.
Proof.
  unfold cellStr, valueStr. destruct (row !! col) as [v|]; [|lia].
  destruct (is_nil v); [lia|].
  destruct (30 <? String.length (fmt_v v))%nat eqn:E; [|lia].
  apply Nat.ltb_lt in E.
  rewrite length_append, length_take_bytes.
  change (String.length "...") with 3%nat. lia.
Qed.

Lemma cell_fits (columns : list string) (results : list (gmap string Value))
  (row : gmap string Value) (col : string) :
  In row results -> In col columns ->
  (utf8.RuneCountInString (cellStr row col)
   <= clamp_width (width_of (compute_widths columns results) col))%nat.
Proof.
  intros Hrow Hcol. rewrite computed_width by assumption.
  unfold column_width.
  pose proof (RuneCount_le_length (cellStr row col)).
  pose proof (cellStr_length row col).
  pose proof (cellStr_le_valueStr row col).
  pose proof (longest_value_ge results row col Hrow).
  lia.
Qed.

Lemma list_sum_le (A : Type) (f g : A -> nat) (l : list A) :
  (forall x, In x l -> (f x <= g x)%nat) ->
  (list_sum (map f l) <= list_sum (map g l))%nat.
Proof.
  induction l as [|x l IH]; intros H; [reflexivity|].
  cbn [map].
  change (list_sum (?x :: ?l)) with (x + list_sum l)%nat.
  pose proof (H x (or_introl eq_refl)).
  specialize (IH (fun y Hy => H y (or_intror Hy))). lia.
Qed.

(** X13.  The lines of the table are aligned when they are counted in
    characters (runes): the text a data row adds is, before its line feed,
    exactly as many runes long as the separator has dashes, whatever bytes
    the values hold.  The header is at least that long, and it is exactly
    that long when no column name has more than 30 runes. *)
Theorem table_lines_have_as_many_runes_as_dashes
  (columns : list string) (results : list (gmap string Value))
  (row : gmap string Value) (text : string) :
  In row results ->
  let colWidths := compute_widths columns results in
  let dashes := total_width colWidths columns in
  utf8.RuneCountInString (strings.Repeat "-" dashes) = dashes
  /\ (exists line,
        data_row colWidths columns text row = text +:+ line +:+ nl
        /\ utf8.RuneCountInString line = dashes)
  /\ (exists line,
        header_line colWidths columns text = text +:+ line
        /\ (dashes <= utf8.RuneCountInString line)%nat
        /\ ((forall col, In col columns ->
                         (utf8.RuneCountInString col <= 30)%nat) ->
            utf8.RuneCountInString line = dashes)).
Proof.
  intros Hrow colWidths dashes.
  split; [|split].
  - rewrite <- (append_nil_r (strings.Repeat "-" dashes)).
    rewrite RuneCount_Repeat_ascii by reflexivity. change (utf8.RuneCountInString "") with 0%nat. lia.
  - unfold data_row.
    rewrite (foldl_append _
               (fun col => fmt.pad_left_justified
                             (clamp_width (width_of colWidths col))
                             (cellStr row col) +:+ " ")).
    eexists. split; [rewrite append_assoc; reflexivity|].
    rewrite <- (append_nil_r (flat _)), RuneCount_cells. cbv beta.
    unfold dashes. rewrite total_width_sum.
    rewrite (map_ext_in _ (fun col => clamp_width (width_of colWidths col))).
    + change (utf8.RuneCountInString "") with 0%nat. lia.
    + intros col Hcol. cbv beta.
      pose proof (cell_fits columns results row col Hrow Hcol).
      fold colWidths in H. lia.
  - unfold header_line.
    rewrite (foldl_append _
               (fun col => fmt.pad_left_justified
                             (clamp_width (width_of colWidths col)) col
                           +:+ " ")).
    eexists. split; [reflexivity|].
    rewrite <- (append_nil_r (flat _)), RuneCount_cells. cbv beta.
    unfold dashes. rewrite total_width_sum.
    split.
    + assert (Hle : (list_sum (map (fun col => clamp_width (width_of colWidths col))
                                   columns)
                     <= list_sum
                          (map (fun col =>
                                  Nat.max (clamp_width (width_of colWidths col))
                                          (utf8.RuneCountInString col))
                               columns))%nat)
        by (apply list_sum_le; intros col _; cbv beta; lia).
      change (utf8.RuneCountInString "") with 0%nat. lia.
    + intros Hshort.
      rewrite (map_ext_in _ (fun col => clamp_width (width_of colWidths col))).
      * change (utf8.RuneCountInString "") with 0%nat. lia.
      * intros col Hcol. cbv beta.
        pose proof (Hshort col Hcol).
        pose proof (RuneCount_le_length col).
        unfold colWidths. rewrite computed_width by assumption.
        unfold column_width. lia.
Qed.

(** * Start-up *)

(** ** getEnv and getEnvInt *)

Lemma digits_of_uint_acc (d : Decimal.uint) (acc : positive) :
  digits (Z.pos acc) (NilEmpty.string_of_uint d) =
  Some (Z.pos (Pos.of_uint_acc d acc)).
Proof.
  revert acc. induction d as [|d IH|d IH|d IH|d IH|d IH|d IH|d IH|d IH|d IH|d IH];
    intros acc; [reflexivity|..];
    cbn [NilEmpty.string_of_uint digits Pos.of_uint_acc];
    match goal with
    | |- context [digit ?c] =>
        let v := eval vm_compute in (digit c) in change (digit c) with v
    end; cbv iota beta;
    match goal with
    | |- digits ?n _ = Some (Z.pos (Pos.of_uint_acc _ ?p)) =>
        replace n with (Z.pos p) by lia
    end; apply IH.
Qed.

Lemma digits_of_uint (d : Decimal.uint) :
  digits 0 (NilEmpty.string_of_uint d) = Some (Z.of_N (Pos.of_uint d)).
Proof.
  induction d as [|d IH|d IH|d IH|d IH|d IH|d IH|d IH|d IH|d IH|d IH];
    [reflexivity|exact IH|..];
    cbn [NilEmpty.string_of_uint digits Pos.of_uint];
    match goal with
    | |- context [digit ?c] =>
        let v := eval vm_compute in (digit c) in change (digit c) with v
    end; cbv iota beta;
    apply digits_of_uint_acc.
Qed.

(** The decimal text of a positive number starts with a digit. *)
Lemma string_of_uint_head (d : Decimal.uint) :
  d <> Decimal.Nil ->
  exists c t, NilEmpty.string_of_uint d = String c t
              /\ Ascii.eqb c "-" = false /\ Ascii.eqb c "+" = false.
Proof.
  intros Hd. destruct d; [congruence|..];
    cbn [NilEmpty.string_of_uint]; eexists _, _; repeat split; reflexivity.
Qed.

Lemma Atoi_Itoa (n : Z) :
  (min_int64 <= n <= max_int64)%Z -> strconv_Atoi (strconv.Itoa n) = Some n.
Proof.
  unfold min_int64, max_int64, strconv.Itoa. intros Hn.
  destruct n as [|p|p]; [reflexivity|..];
    pose proof (DecimalPos.Unsigned.to_uint_nonnil p) as Hnil;
    pose proof (digits_of_uint (Pos.to_uint p)) as Hd;
    rewrite DecimalPos.Unsigned.of_to in Hd;
    destruct (string_of_uint_head _ Hnil) as (c & t & Hs & Hm & Hp);
    cbn [Z.to_int NilZero.string_of_int]; unfold NilZero.string_of_uint;
    destruct (Pos.to_uint p) eqn:Hu; try congruence; rewrite <- ?Hu in *.
  all: try (rewrite Hs in *; unfold strconv_Atoi; rewrite Hm, Hp;
            cbn [orb]; rewrite Hd; cbn [Z.of_N];
            destruct (Z.ltb_spec (2 ^ 63) (Z.pos p));
            destruct (Z.leb_spec (2 ^ 63) (Z.pos p)); try lia; reflexivity).
  all: unfold strconv_Atoi;
    change (Ascii.eqb "-" "-") with true; cbn [orb];
    rewrite Hs in *; rewrite Hd; cbn [Z.of_N];
    destruct (Z.ltb_spec (2 ^ 63) (Z.pos p)); try lia; reflexivity.
Qed.

Lemma Getenv_lookup (env : os.Environ) (key value : string) :
  env !! key = Some value -> os.Getenv env key = value.
Proof. unfold os.Getenv. intros ->. reflexivity. Qed.

Lemma Itoa_nonempty (n : Z) : strconv.Itoa n <> "".
Proof.
  unfold strconv.Itoa. destruct n as [|p|p]; cbn [Z.to_int NilZero.string_of_int];
    [discriminate| |discriminate].
  unfold NilZero.string_of_uint.
  pose proof (DecimalPos.Unsigned.to_uint_nonnil p) as Hnil.
  destruct (string_of_uint_head _ Hnil) as (c & t & Hs & _).
  destruct (Pos.to_uint p); try discriminate; rewrite Hs; discriminate.
Qed.

(** X14.  getEnvInt reads back the decimal text of any int: when the
    variable holds what strconv.Itoa (the verb %d) prints for a number of
    64 bits, getEnvInt returns that number and not the default. *)
Theorem getEnvInt_reads_decimal_text
  (env : os.Environ) (key : string) (n defaultValue : Z) :
  (min_int64 <= n <= max_int64)%Z ->
  env !! key = Some (strconv.Itoa n) ->
  getEnvInt env key defaultValue = n.
Proof.
  intros Hn Hkey. unfold getEnvInt.
  rewrite (Getenv_lookup _ _ _ Hkey).
  destruct (String.eqb (strconv.Itoa n) "") eqn:E.
  - apply String.eqb_eq in E. destruct (Itoa_nonempty n E).
  - cbn [negb]. rewrite Atoi_Itoa by assumption. reflexivity.
Qed.

Lemma digits_stops (n : Z) (a b : string) (c : ascii) :
  digit c = None -> digits n (a +:+ String c b) = None.
Proof.
  intros Hc. revert n. induction a as [|x a IH]; intros n.
  - rewrite append_nil_l. cbn [digits]. rewrite Hc. reflexivity.
  - rewrite append_cons. cbn [digits]. destruct (digit x); [apply IH|reflexivity].
Qed.

Lemma Atoi_refuses (a b : string) (c : ascii) :
  digit c = None ->
  a <> "" \/ (c <> "-"%char /\ c <> "+"%char) ->
  strconv_Atoi (a +:+ String c b) = None.
Proof.
  intros Hc Hpos. destruct a as [|x a].
  - destruct Hpos as [Hne|[Hm Hp]]; [congruence|].
    rewrite append_nil_l. unfold strconv_Atoi.
    apply Ascii.eqb_neq in Hm, Hp. rewrite Hm, Hp. cbn [orb].
    cbn [digits]. rewrite Hc. reflexivity.
  - rewrite append_cons. unfold strconv_Atoi.
    destruct (Ascii.eqb x "-" || Ascii.eqb x "+").
    + rewrite digits_stops by assumption.
      destruct (a +:+ String c b); reflexivity.
    + rewrite <- append_cons, digits_stops by assumption. reflexivity.
Qed.

(** X15.  getEnvInt falls back on the default, without a word, when the
    variable holds anything but an optional sign and decimal digits: one
    byte that is no digit (a space, a letter, an underscore, a point), other
    than a sign in the first place, is enough. *)
Theorem getEnvInt_falls_back_on_other_text
  (env : os.Environ) (key a b : string) (c : ascii) (defaultValue : Z) :
  env !! key = Some (a +:+ String c b) ->
  digit c = None ->
  a <> "" \/ (c <> "-"%char /\ c <> "+"%char) ->
  getEnvInt env key defaultValue = defaultValue.
Proof.
  intros Hkey Hc Hpos. unfold getEnvInt.
  rewrite (Getenv_lookup _ _ _ Hkey), Atoi_refuses by assumption.
  destruct (negb _); reflexivity.
Qed.

Lemma getEnv_nonempty (env : os.Environ) (key defaultValue : string) :
  defaultValue <> "" -> getEnv env key defaultValue <> "".
Proof.
  intros Hd. unfold getEnv.
  destruct (String.eqb (os.Getenv env key) "") eqn:E; cbn [negb]; [assumption|].
  apply String.eqb_neq in E. exact E.
Qed.

Lemma Getenv_empty_is_unset (env : os.Environ) (key k : string) :
  os.Getenv (<[key := ""]> env) k = os.Getenv (delete key env) k.
Proof.
  unfold os.Getenv. destruct (decide (key = k)) as [->|Hne].
  - rewrite lookup_insert_eq, lookup_delete_eq. reflexivity.
  - rewrite lookup_insert_ne, lookup_delete_ne by assumption. reflexivity.
Qed.

(** X16.  loadConfig cannot tell a variable that is set to the empty string
    from one that is not set, so no field of the configuration that is a
    string is ever empty: an empty MYSQL_PASSWORD gives the password that is
    built in, not an empty password. *)
Theorem loadConfig_takes_empty_for_unset (env : os.Environ) :
  (forall key, loadConfig (<[key := ""]> env) = loadConfig (delete key env))
  /\ Host (loadConfig env) <> "" /\ User (loadConfig env) <> ""
  /\ Password (loadConfig env) <> "" /\ Database (loadConfig env) <> ""
  /\ Password (loadConfig (<["MYSQL_PASSWORD" := ""]> env)) = "Aa130069711".
Proof.
  split.
  { intros key. unfold loadConfig, getEnv, getEnvInt.
    rewrite !Getenv_empty_is_unset. reflexivity. }
  do 4 (split; [apply getEnv_nonempty; discriminate|]).
  unfold loadConfig, getEnv, os.Getenv. cbn [Password].
  rewrite lookup_insert_eq. reflexivity.
Qed.

(** ** createSampleTables and initDatabase *)

Lemma createSampleTables_cases (h : Handle) (sent : list string) :
  exists k, (k < 4)%nat
    /\ snd (createSampleTables h sent) = sent ++ firstn (S k) sample_statements
    /\ (forall j, (j < k)%nat ->
          Exec h (sent ++ firstn j sample_statements) (sample_statement j) = None)
    /\ fst (createSampleTables h sent) =
       Exec h (sent ++ firstn k sample_statements) (sample_statement k)
    /\ ((k < 3)%nat -> fst (createSampleTables h sent) <> None).
Proof.
  unfold createSampleTables, db_Exec.
  assert (H0 : sent ++ firstn 0 sample_statements = sent) by apply app_nil_r.
  assert (H1 : sent ++ firstn 1 sample_statements = sent ++ [create_users_table])
    by reflexivity.
  assert (H2 : sent ++ firstn 2 sample_statements =
               (sent ++ [create_users_table]) ++ [create_orders_table])
    by (rewrite <- app_assoc; reflexivity).
  assert (H3 : sent ++ firstn 3 sample_statements =
               ((sent ++ [create_users_table]) ++ [create_orders_table])
               ++ [insert_users])
    by (rewrite <- !app_assoc; reflexivity).
  assert (H4 : sent ++ firstn 4 sample_statements =
               (((sent ++ [create_users_table]) ++ [create_orders_table])
                ++ [insert_users]) ++ [insert_orders])
    by (rewrite <- !app_assoc; reflexivity).
  destruct (Exec h sent create_users_table) as [e0|] eqn:E0.
  { exists 0%nat. rewrite H0, H1. cbn [fst snd].
    repeat split; try lia; try congruence; auto. }
  destruct (Exec h (sent ++ [create_users_table]) create_orders_table)
    as [e1|] eqn:E1.
  { exists 1%nat. rewrite H1, H2. cbn [fst snd].
    split; [lia|]. split; [reflexivity|]. split.
    - intros [|j] Hj; [rewrite H0; exact E0|lia].
    - split; [symmetry; exact E1|discriminate]. }
  destruct (Exec h ((sent ++ [create_users_table]) ++ [create_orders_table])
                 insert_users) as [e2|] eqn:E2.
  { exists 2%nat. rewrite H2, H3. cbn [fst snd].
    split; [lia|]. split; [reflexivity|]. split.
    - intros [|[|j]] Hj; [rewrite H0; exact E0|rewrite H1; exact E1|lia].
    - split; [symmetry; exact E2|discriminate]. }
  exists 3%nat. rewrite H3, H4. cbn [fst snd].
  split; [lia|]. split; [reflexivity|]. split.
  - intros [|[|[|j]]] Hj;
      [rewrite H0; exact E0|rewrite H1; exact E1|rewrite H2; exact E2|lia].
  - split; [reflexivity|lia].
Qed.

(** X17.  createSampleTables sends its four statements in the order of the
    source and stops at the first one that fails: it has sent the first k+1
    of them, the first k succeeded, what it returns is the outcome of the
    last one sent, and when it has sent fewer than four that outcome is an
    error.  No statement is sent after a failure. *)
Theorem createSampleTables_stops_at_first_failure
  (h : Handle) (sent : list string) :
  exists k, (k < 4)%nat
    /\ snd (createSampleTables h sent) = sent ++ firstn (S k) sample_statements
    /\ (forall j, (j < k)%nat ->
          Exec h (sent ++ firstn j sample_statements) (sample_statement j) = None)
    /\ fst (createSampleTables h sent) =
       Exec h (sent ++ firstn k sample_statements) (sample_statement k)
    /\ ((k < 3)%nat -> fst (createSampleTables h sent) <> None).
Proof. exact (createSampleTables_cases h sent). Qed.

Lemma initDatabase_ok (sql_Open : Driver) (env : os.Environ) :
  init_err (initDatabase sql_Open env) = None <->
  exists h, sql_Open "mysql" (dsn (loadConfig env)) = inr h /\ Ping h = None.
Proof.
  unfold initDatabase.
  destruct (sql_Open "mysql" (dsn (loadConfig env))) as [err|h] eqn:Hopen.
  - cbn [init_err]. split; [discriminate|].
    intros (h & Hh & _). discriminate.
  - destruct (Ping h) as [err|] eqn:Hping.
    + cbn [init_err]. split; [discriminate|].
      intros (h' & Hh & Hp). inversion Hh; subst h'. congruence.
    + destruct (createSampleTables h []) as [err sent].
      cbn [init_err]. split; [|reflexivity]. intros _. exists h. auto.
Qed.

Lemma initDatabase_sent (sql_Open : Driver) (env : os.Environ) :
  (init_err (initDatabase sql_Open env) <> None /\
   init_sent (initDatabase sql_Open env) = [])
  \/ (init_err (initDatabase sql_Open env) = None /\
      exists h k, init_db (initDatabase sql_Open env) = Some h /\ (k < 4)%nat /\
        init_sent (initDatabase sql_Open env) = firstn (S k) sample_statements).
Proof.
  unfold initDatabase.
  destruct (sql_Open "mysql" (dsn (loadConfig env))) as [err|h] eqn:Hopen.
  - left. cbn [init_err init_sent]. split; [discriminate|reflexivity].
  - destruct (Ping h) as [err|] eqn:Hping.
    + left. cbn [init_err init_sent]. split; [discriminate|reflexivity].
    + right. destruct (createSampleTables_cases h []) as (k & Hk & Hs & _).
      destruct (createSampleTables h []) as [err sent].
      cbn [init_err init_sent init_db]. split; [reflexivity|].
      exists h, k. cbn [snd] in Hs. rewrite app_nil_l in Hs. auto.
Qed.

(** X18.  initDatabase returns an error exactly when sql.Open or db.Ping
    fails; the text of the error then begins with one of two fixed phrases
    and no statement has been sent.  When both succeed it returns nil
    whatever becomes of createSampleTables, whose error is logged in one
    line at most; between one and four statements have been sent. *)
Theorem initDatabase_fails_only_without_connection
  (sql_Open : Driver) (env : os.Environ) :
  let init := initDatabase sql_Open env in
  (init_err init = None <->
   exists h, sql_Open "mysql" (dsn (loadConfig env)) = inr h /\ Ping h = None)
  /\ (forall err, init_err init = Some err ->
        (strings.HasPrefix err "连接数据库失败: " = true
         \/ strings.HasPrefix err "数据库连接测试失败: " = true)
        /\ init_sent init = [] /\ init_log init = [])
  /\ (init_err init = None ->
        (1 <= length (init_sent init) <= 4)%nat
        /\ (length (init_log init) <= 1)%nat
        /\ init_db init <> None)
  /\ init_config init = loadConfig env.
Proof.
  intros init. split; [apply initDatabase_ok|].
  unfold init, initDatabase.
  destruct (sql_Open "mysql" (dsn (loadConfig env))) as [e|h] eqn:Hopen.
  - cbn [init_err init_sent init_log init_config].
    split; [|split; [discriminate|reflexivity]].
    intros err Herr. inversion Herr; subst err.
    split; [left; apply prefix_append|auto].
  - destruct (Ping h) as [e|] eqn:Hping.
    + cbn [init_err init_sent init_log init_config].
      split; [|split; [discriminate|reflexivity]].
      intros err Herr. inversion Herr; subst err.
      split; [right; apply prefix_append|auto].
    + destruct (createSampleTables_cases h []) as (k & Hk & Hs & _).
      destruct (createSampleTables h []) as [err sent].
      cbn [init_err init_sent init_log init_config init_db].
      split; [discriminate|]. split; [|reflexivity].
      intros _. cbn [snd] in Hs. subst sent. rewrite app_nil_l.
      split; [|split; [destruct err; simpl; lia|discriminate]].
      rewrite length_firstn. cbn [sample_statements length]. lia.
Qed.

Lemma sample_statements_refused (CaseRanges : rune -> rune) :
  Forall (fun stmt => gate_rejects CaseRanges stmt = true) sample_statements.
Proof.
  unfold sample_statements. repeat constructor; vm_compute; reflexivity.
Qed.

(** ** main *)

Section MainMore.

Variable CaseRanges : rune -> rune.

Lemma main_fatal (sql_Open : Driver) (env : os.Environ)
  (units : list InputUnit) (cut : bool) (fuel : nat) (err : string) :
  init_err (initDatabase sql_Open env) = Some err ->
  main CaseRanges sql_Open env units cut fuel =
  {| exit := Fatal; proc_stdout := [];
     proc_log := init_log (initDatabase sql_Open env)
                 ++ ["初始化数据库失败: " +:+ err];
     proc_sent := init_sent (initDatabase sql_Open env);
     proc_trace := []; closed := false |}.
Proof. unfold main. intros ->. reflexivity. Qed.

Lemma main_runs (sql_Open : Driver) (env : os.Environ)
  (units : list InputUnit) (cut : bool) (fuel : nat) (h : Handle) :
  init_err (initDatabase sql_Open env) = None ->
  init_db (initDatabase sql_Open env) = Some h ->
  let init := initDatabase sql_Open env in
  let server := {| db := Query h (init_sent init);
                   config := init_config init |} in
  let r := run CaseRanges fuel server (start units cut) in
  main CaseRanges sql_Open env units cut fuel =
  {| exit := if fst r then Returned else Looping;
     proc_stdout := stdout (snd r);
     proc_log := (init_log init
                  ++ ["MySQL MCP Server 启动...";
                      "连接到: " +:+ Host (init_config init) +:+ ":"
                      +:+ strconv.Itoa (Port (init_config init)) +:+ "/"
                      +:+ Database (init_config init)])
                 ++ logged (snd r);
     proc_sent := init_sent init;
     proc_trace := trace (snd r);
     closed := fst r |}.
Proof.
  intros Herr Hdb init server r. unfold main.
  rewrite Herr, Hdb. fold init. fold server. fold r.
  destruct r as [ended session]. reflexivity.
Qed.

(** X19.  The allow-list check of executeQuery keeps the statements of the
    start-up and those of the tool calls apart.  Every statement
    createSampleTables has passed to db.Exec is one the check refuses, and
    every statement a tool call has passed to db.Query is one the check
    accepts, whatever the environment, the driver, the input and the number
    of passes of run: so no statement of the start-up is ever sent by a tool
    call.  (The check reads the first word only; it does not tell whether a
    statement it accepts writes.) *)
Theorem exec_statements_are_refused_query_statements_accepted
  (sql_Open : Driver) (env : os.Environ)
  (units : list InputUnit) (cut : bool) (fuel : nat) :
  let p := main CaseRanges sql_Open env units cut fuel in
  Forall (fun stmt => gate_rejects CaseRanges stmt = true) (proc_sent p)
  /\ Forall (fun stmt => gate_rejects CaseRanges stmt = false)
            (statements (proc_trace p))
  /\ (forall stmt, In stmt (proc_sent p) -> ~ In stmt (statements (proc_trace p)))
  /\ (exit p <> Fatal -> (1 <= length (proc_sent p) <= 4)%nat)
  /\ (length (statements (proc_trace p)) <= length (proc_stdout p))%nat.
Proof.
  intros p.
  assert (H : Forall (fun stmt => gate_rejects CaseRanges stmt = true) (proc_sent p)
              /\ Forall (fun stmt => gate_rejects CaseRanges stmt = false)
                        (statements (proc_trace p))
              /\ (exit p <> Fatal -> (1 <= length (proc_sent p) <= 4)%nat)
              /\ (length (statements (proc_trace p)) <= length (proc_stdout p))%nat).
  { unfold p.
    destruct (initDatabase_sent sql_Open env)
      as [[Herr Hsent]|(Herr & h & k & Hdb & Hk & Hsent)].
    - destruct (init_err (initDatabase sql_Open env)) as [err|] eqn:E;
        [|congruence].
      rewrite (main_fatal _ _ _ _ _ _ E).
      cbn [proc_sent proc_trace exit proc_stdout]. rewrite Hsent.
      split; [constructor|]. split; [constructor|].
      split; [congruence|reflexivity].
    - rewrite (main_runs _ _ _ _ _ _ Herr Hdb).
      cbn [proc_sent proc_trace exit proc_stdout]. rewrite Hsent.
      split; [apply Forall_take, sample_statements_refused|].
      match goal with
      | |- context [run CaseRanges fuel ?s ?st] =>
          destruct (run_keeps_invariant CaseRanges s (length (requests units))
                      fuel st) as (Hall & Hlen & _)
      end; [constructor|simpl; lia|simpl; lia|].
      split; [exact Hall|]. split; [|exact Hlen].
      intros _. rewrite length_firstn. cbn [sample_statements length]. lia. }
  destruct H as (Hexec & Hquery & Hcount & Hlen).
  split; [exact Hexec|]. split; [exact Hquery|].
  split; [|split; [exact Hcount|exact Hlen]].
  intros stmt Hin1 Hin2.
  pose proof (proj1 (List.Forall_forall _ _) Hexec stmt Hin1) as H1.
  pose proof (proj1 (List.Forall_forall _ _) Hquery stmt Hin2) as H2.
  cbv beta in H1, H2. rewrite H1 in H2. discriminate H2.
Qed.

(** X20.  main ends with log.Fatalf exactly when sql.Open or db.Ping
    fails.  It has then written no response and sent nothing to the
    database, its last line of log is the fatal one, and the deferred
    db.Close() does not run.  In no case does run start with a nil handle,
    and db.Close() has run exactly when main has returned. *)
Theorem main_is_fatal_only_without_connection
  (sql_Open : Driver) (env : os.Environ)
  (units : list InputUnit) (cut : bool) (fuel : nat) :
  let p := main CaseRanges sql_Open env units cut fuel in
  (exit p = Fatal <->
   ~ exists h, sql_Open "mysql" (dsn (loadConfig env)) = inr h /\ Ping h = None)
  /\ (exit p = Fatal ->
      proc_stdout p = [] /\ proc_trace p = [] /\ proc_sent p = []
      /\ closed p = false
      /\ exists err, last (proc_log p) = Some ("初始化数据库失败: " +:+ err))
  /\ exit p <> NilHandle
  /\ (closed p = true <-> exit p = Returned).
Proof.
  intros p. unfold p.
  pose proof (initDatabase_ok sql_Open env) as Hok.
  destruct (initDatabase_sent sql_Open env)
    as [[Herr Hsent]|(Herr & h & k & Hdb & Hk & Hsent)].
  - destruct (init_err (initDatabase sql_Open env)) as [err|] eqn:E;
      [|congruence].
    rewrite (main_fatal _ _ _ _ _ _ E).
    cbn [proc_sent proc_trace exit proc_stdout closed proc_log].
    split.
    { split; [|reflexivity]. intros _ Hex. apply Hok in Hex. discriminate. }
    split.
    { intros _. repeat split; auto. exists err. apply last_snoc. }
    split; [discriminate|]. split; discriminate.
  - rewrite (main_runs _ _ _ _ _ _ Herr Hdb).
    cbn [proc_sent proc_trace exit proc_stdout closed proc_log].
    match goal with
    | |- context [run CaseRanges fuel ?s ?st] =>
        destruct (run CaseRanges fuel s st) as [ended session]
    end.
    cbn [fst snd]. destruct ended.
    + split.
      { split; [discriminate|]. intros Hno. destruct Hno. apply Hok. exact Herr. }
      split; [discriminate|]. split; [discriminate|]. split; auto.
    + split.
      { split; [discriminate|]. intros Hno. destruct Hno. apply Hok. exact Herr. }
      split; [discriminate|]. split; [discriminate|]. split; discriminate.
Qed.

(** X21.  With a connection, and on an input of well-formed JSON values
    that ends cleanly, main returns after as many passes as there are
    values and one more: it has written one response per request, in the
    order of the requests and with their IDs, it has logged its two lines
    of start-up before the lines of run, and it has closed the handle. *)
Theorem main_answers_the_requests_and_returns
  (sql_Open : Driver) (env : os.Environ) (h : Handle)
  (units : list InputUnit) :
  sql_Open "mysql" (dsn (loadConfig env)) = inr h ->
  Ping h = None ->
  forallb (fun u => negb (is_malformed u)) units = true ->
  let p := main CaseRanges sql_Open env units false (S (length units)) in
  exit p = Returned
  /\ closed p = true
  /\ map ID (proc_stdout p) = map req_ID (requests units)
  /\ exists before,
       proc_log p =
       before
       ++ ["MySQL MCP Server 启动...";
           "连接到: " +:+ Host (loadConfig env) +:+ ":"
           +:+ strconv.Itoa (Port (loadConfig env)) +:+ "/"
           +:+ Database (loadConfig env)]
       ++ mistyped_log units
       /\ (length before <= 1)%nat.
Proof.
  intros Hopen Hping Hclean p. unfold p.
  assert (Herr : init_err (initDatabase sql_Open env) = None)
    by (apply initDatabase_ok; exists h; auto).
  assert (Hinit : init_db (initDatabase sql_Open env) = Some h
                  /\ init_config (initDatabase sql_Open env) = loadConfig env
                  /\ (length (init_log (initDatabase sql_Open env)) <= 1)%nat).
  { unfold initDatabase. rewrite Hopen, Hping.
    destruct (createSampleTables h []) as [err sent].
    cbn [init_db init_config init_log].
    repeat split. destruct err; simpl; lia. }
  destruct Hinit as (Hdb & Hcfg & Hlog).
  rewrite (main_runs _ _ _ _ _ _ Herr Hdb).
  match goal with
  | |- context [run CaseRanges (S (length units)) ?s ?st] =>
      destruct (run_serves_log CaseRanges s units st Hclean eq_refl)
        as (st' & Hrun & Hout & Hlogged)
  end.
  rewrite Hrun. cbn [fst snd exit closed proc_stdout proc_log].
  split; [reflexivity|]. split; [reflexivity|].
  split.
  - rewrite Hout. cbn [stdout start app]. apply serve_IDs.
  - exists (init_log (initDatabase sql_Open env)).
    split; [|exact Hlog].
    rewrite Hlogged, Hcfg. cbn [logged start app].
    rewrite <- app_assoc. reflexivity.
Qed.

End MainMore.

(** X22.  The connection string is put together without any escaping: a
    colon moved from the user name to the password gives the same string,
    so the driver cannot tell the two configurations apart. *)
Theorem dsn_does_not_separate_user_and_password
  (c : MySQLConfig) (user middle password : string) :
  dsn {| Host := Host c; Port := Port c; User := user +:+ ":" +:+ middle;
         Password := password; Database := Database c |} =
  dsn {| Host := Host c; Port := Port c; User := user;
         Password := middle +:+ ":" +:+ password; Database := Database c |}.
Proof.
  unfold dsn. cbn [User Password Host Port Database].
  rewrite !append_assoc. reflexivity.
Qed.

(** ** The properties at sample inputs *)

(** C2 as the specification states it: the allow-list check is evaluated on
    every statement before it reaches the database.  It fails for
    list_tables, describe_table and show_table_indexes: the trace of each
    holds its statement and no check. *)
Lemma direct_tools_bypass_check :
  (snd (handleRequest no_case_table unreachable_server
          (tool_call JNull "list_tables" ∅) []) = [EvQuery "SHOW TABLES"]
   /\ checked_before []
        (snd (handleRequest no_case_table unreachable_server
                (tool_call JNull "list_tables" ∅) [])) = false)
  /\ (snd (handleRequest no_case_table unreachable_server
             (tool_call JNull "describe_table" users_table) [])
      = [EvQuery "DESCRIBE users"]
      /\ checked_before []
           (snd (handleRequest no_case_table unreachable_server
                   (tool_call JNull "describe_table" users_table) [])) = false)
  /\ (snd (handleRequest no_case_table unreachable_server
             (tool_call JNull "show_table_indexes" users_table) [])
      = [EvQuery "SHOW INDEX FROM users"]
      /\ checked_before []
           (snd (handleRequest no_case_table unreachable_server
                   (tool_call JNull "show_table_indexes" users_table) [])) = false).
Proof. repeat split; vm_compute; reflexivity. Qed.

(** C6 as the specification states it: WHERE follows exactly when a
    where_clause is supplied.  With an empty where_clause supplied, the
    statement of queryTable holds no WHERE (and it quotes the table name). *)
Lemma empty_where_clause_adds_no_WHERE :
  users_where_empty !! "where_clause" = Some (JString "")
  /\ queryTable_statement "users" users_where_empty =
     "SELECT * FROM `users` LIMIT 10"
  /\ String.index 0 "WHERE" (queryTable_statement "users" users_where_empty) = None
  /\ spec_query_table_statement "users" users_where_empty =
     "SELECT * FROM users WHERE  LIMIT 10"
  /\ queryTable_statement "users" users_where_empty <>
     spec_query_table_statement "users" users_where_empty.
Proof.
  split; [reflexivity|]. split; [reflexivity|]. split; [reflexivity|].
  split; [reflexivity|].
  vm_compute. discriminate.
Qed.

(** C6 at table_name users and limit 2. *)
Lemma queryTable_users_limit_two :
  users_limit_two !! "table_name" = Some (JString "users")
  /\ statements
       (snd (queryTable no_case_table unreachable_server JNull users_limit_two []))
     = ["SELECT * FROM `users` LIMIT 2"].
Proof.
  assert (H : users_limit_two !! "table_name" = Some (JString "users"))
    by reflexivity.
  split; [exact H|].
  exact (proj2 (proj2 (proj2
           (queryTable_statement_sent no_case_table unreachable_server JNull
              users_limit_two [] "users" H)))).
Defined.

(** C7 at describe_table without arguments, followed by list_tables. *)
Lemma describe_table_without_table_name :
  exists st1 st2,
    iteration no_case_table unreachable_server
      (start [UnitRequest (tool_call (JString "a") "describe_table" ∅);
              UnitRequest (tool_call (JString "b") "list_tables" ∅)] false)
    = Some st1
    /\ stdout st1 = [errorResponse (JString "a") "table_name is required"]
    /\ trace st1 = []
    /\ iteration no_case_table unreachable_server st1 = Some st2
    /\ stdout st2 =
       [errorResponse (JString "a") "table_name is required";
        errorResponse (JString "b") "Database error: connection refused"]
    /\ input (decoder st2) = [].
Proof.
  destruct (missing_argument_reported_loop_continues no_case_table
              unreachable_server
              (start [UnitRequest (tool_call (JString "a") "describe_table" ∅);
                      UnitRequest (tool_call (JString "b") "list_tables" ∅)] false)
              (tool_call (JString "a") "describe_table" ∅)
              (tool_call (JString "b") "list_tables" ∅)
              {| Name := "describe_table"; Arguments := ∅ |}
              "table_name" [])
    as (st1 & st2 & H1 & H2 & _ & H3 & H4 & H5 & H6).
  - reflexivity.
  - reflexivity.
  - reflexivity.
  - reflexivity.
  - simpl. auto.
  - intros x H. vm_compute in H. discriminate H.
  - exists st1, st2. split; [exact H1|]. split; [exact H2|]. split; [exact H3|].
    split; [exact H4|]. split; [|exact H6].
    rewrite H5, H2, H3. reflexivity.
Defined.

(** C4 at the sample of the specification: the columns id and name, one row
    with the name Alice Smith.  The widths are 8 and 11. *)
Lemma alice_smith_column_widths :
  In "id" ["id"; "name"] /\ In "name" ["id"; "name"]
  /\ clamp_width (width_of (compute_widths ["id"; "name"] [alice_row]) "id") = 8%nat
  /\ clamp_width (width_of (compute_widths ["id"; "name"] [alice_row]) "name") = 11%nat
  /\ table_line (column_width [alice_row]) ["id"; "name"] (fun col => col) =
     "id       name        ".
Proof.
  assert (Hid : In "id" ["id"; "name"]) by (simpl; auto).
  assert (Hname : In "name" ["id"; "name"]) by (simpl; auto).
  pose proof (column_widths_truncation_and_separator ["id"; "name"] alice_row [])
    as (Hw & _).
  split; [exact Hid|]. split; [exact Hname|].
  split; [rewrite (Hw "id" Hid); reflexivity|].
  split; [rewrite (Hw "name" Hname); reflexivity|].
  reflexivity.
Defined.

(** C5 at a query whose result set is empty, and at one that returns the
    row of Alice Smith. *)
Lemma select_from_empty_table :
  fst (executeQuery no_case_table empty_table_server JNull "SELECT id FROM t" []) =
    contentResponse JNull
      ("查询结果 (0 行):" +:+ nl +:+ nl +:+ "没有找到数据" +:+ nl)
  /\ exists text,
       fst (executeQuery no_case_table alice_table_server JNull
              "SELECT * FROM users" []) = contentResponse JNull text
       /\ lines text =
          ["查询结果 (1 行):"; ""; "id       name        ";
           "---------------------"; "1        Alice Smith "; ""]
       /\ ~ In sentinel (lines text).
Proof.
  split.
  - pose proof (empty_result_renders_sentinel_only no_case_table
                  empty_table_server JNull "SELECT id FROM t" []
                  {| rows_Columns := inr ["id"]; rows_data := [] |} ["id"]
                  eq_refl eq_refl eq_refl) as H.
    cbv zeta in H. destruct H as (text & Htext & _ & Hnone & _).
    destruct (Hnone eq_refl) as (Hsentinel & _).
    rewrite Htext, Hsentinel. reflexivity.
  - pose proof (empty_result_renders_sentinel_only no_case_table
                  alice_table_server JNull "SELECT * FROM users" []
                  {| rows_Columns := inr ["id"; "name"];
                     rows_data := [[VInt64 1; VString "Alice Smith"]] |}
                  ["id"; "name"] eq_refl eq_refl eq_refl) as H.
    cbv zeta in H. destruct H as (text & Htext & _ & _ & Hsome).
    destruct (Hsome ltac:(discriminate)) as (_ & _ & Hlines).
    destruct Hlines as (Hlines & Habsent).
    + intros col [<-|[<-|[]]]; reflexivity.
    + intros r col [<-|[]] [<-|[<-|[]]]; vm_compute; reflexivity.
    + exists text. split; [exact Htext|]. split; [|exact Habsent].
      rewrite Hlines. vm_compute. reflexivity.
Defined.

(** C5 as the specification states it: for every result set that is not
    empty the sentinel line is absent.  It fails for a row whose value holds
    the text of the sentinel between two line feeds: the value is written
    out as it is, and the sentinel is a line of the text. *)
Lemma value_with_line_feeds_shows_the_sentinel_line :
  exists text,
    fst (executeQuery no_case_table sentinel_value_server JNull
           "SELECT note FROM t" []) = contentResponse JNull text
    /\ length (scanned_rows ["note"] [[VString (nl +:+ sentinel +:+ nl)]]) = 1%nat
    /\ existsb (String.eqb sentinel) (lines text) = true
    /\ In sentinel (lines text).
Proof.
  eexists. split; [reflexivity|]. split; [reflexivity|].
  split; [vm_compute; reflexivity|].
  vm_compute. do 5 right. left. reflexivity.
Qed.

(** C10 at a missing argument and at a failure of the database: both errors
    are built by errorResponse and have the code -32603. *)
Lemma argument_error_and_database_error_share_code :
  fst (handleRequest no_case_table unreachable_server
         (tool_call JNull "describe_table" ∅) []) =
    errorResponse JNull "table_name is required"
  /\ (exists prefix,
        fst (handleRequest no_case_table unreachable_server
               (tool_call JNull "list_tables" ∅) []) =
        errorResponse JNull (prefix +:+ "connection refused")).
Proof.
  split.
  - destruct (proj2 (tool_errors_all_have_code_32603 no_case_table)
                unreachable_server (tool_call JNull "describe_table" ∅)
                {| Name := "describe_table"; Arguments := ∅ |} []
                eq_refl eq_refl) as (Hmiss & _).
    apply (Hmiss "table_name").
    + simpl. auto.
    + intros x H. vm_compute in H. discriminate H.
  - destruct (proj2 (tool_errors_all_have_code_32603 no_case_table)
                unreachable_server (tool_call JNull "list_tables" ∅)
                {| Name := "list_tables"; Arguments := ∅ |} []
                eq_refl eq_refl) as (_ & _ & _ & Hdb).
    apply (Hdb "SHOW TABLES" "connection refused"); reflexivity.
Defined.

(** ** The further properties at sample inputs *)

(** X1 at a SELECT in lower case, after two spaces, with a second statement
    behind it. *)
Lemma select_followed_by_drop_is_accepted :
  gate_rejects no_case_table "  select 1; DROP TABLE users" = false.
Proof.
  exact (gate_accepts_any_text_after_keyword no_case_table
           "  " "select" " 1; DROP TABLE users"
           eq_refl eq_refl (or_introl eq_refl)).
Defined.

(** X2 at a SELECT behind a comment. *)
Lemma select_behind_comment_is_refused :
  gate_rejects no_case_table "/* x */ SELECT 1" = true
  /\ gate_rejects no_case_table "" = true.
Proof.
  apply (gate_refuses_other_first_byte no_case_table "" "* x */ SELECT 1" "/").
  - reflexivity.
  - reflexivity.
  - reflexivity.
  - intros [H|[H|[H|[H|[]]]]]; discriminate H.
Defined.

(** X4 at tools/list. *)
Lemma tools_list_leaves_database_alone :
  snd (handleRequest no_case_table unreachable_server tools_list_request []) = [].
Proof.
  apply (other_requests_leave_database_alone no_case_table unreachable_server
           tools_list_request []).
  left. discriminate.
Defined.

(** X5 at a tool that does not exist. *)
Lemma drop_table_error_is_unknown_tool :
  ("Unknown tool" = "Unknown tool" /\
   ~ In "drop_table" ["list_tables"; "describe_table"; "query_table";
                      "execute_query"; "show_table_indexes"])
  \/ (exists field,
        In ("drop_table", field) required_argument /\
        assert_string ((∅ : gmap string JSON) !! field) = None /\
        "Unknown tool" = field +:+ " is required")
  \/ (In "drop_table" ["list_tables"; "describe_table"; "show_table_indexes"] /\
      exists err, "Unknown tool" = "Database error: " +:+ err)
  \/ (In "drop_table" ["query_table"; "execute_query"] /\
      ("Unknown tool" = gate_message \/
       (exists err, "Unknown tool" = "查询错误: " +:+ err) \/
       (exists err, "Unknown tool" = "获取列信息错误: " +:+ err))).
Proof.
  exact (tool_error_messages_are_of_six_forms no_case_table unreachable_server
           (tool_call JNull "drop_table" ∅)
           {| Name := "drop_table"; Arguments := ∅ |} [] "Unknown tool"
           eq_refl eq_refl eq_refl).
Defined.

(** X6 at the same call. *)
Lemma drop_table_is_not_advertised :
  fst (handleRequest no_case_table unreachable_server
         (tool_call JNull "drop_table" ∅) []) =
  errorResponse JNull "Unknown tool"
  <-> ~ In "drop_table" (map tool_Name tools).
Proof.
  exact (unknown_tool_iff_not_advertised no_case_table unreachable_server
           (tool_call JNull "drop_table" ∅)
           {| Name := "drop_table"; Arguments := ∅ |} [] eq_refl eq_refl).
Defined.

(** X7 at describe_table without its table_name. *)
Lemma describe_table_demands_table_name :
  handleRequest no_case_table unreachable_server
    (tool_call JNull "describe_table" ∅) [] =
  (errorResponse JNull "table_name is required", []).
Proof.
  destruct (advertised_required_arguments_are_enforced no_case_table
              {| tool_Name := "describe_table";
                 Description := "获取指定表的结构信息";
                 InputSchema := {| schema_Type := "object";
                                   Properties := [table_name_property];
                                   Required := ["table_name"] |} |}
              unreachable_server (tool_call JNull "describe_table" ∅)
              {| Name := "describe_table"; Arguments := ∅ |} [])
    as (_ & Hmissing & _).
  - right. left. reflexivity.
  - reflexivity.
  - reflexivity.
  - reflexivity.
  - apply (Hmissing "table_name").
    + left. reflexivity.
    + intros x H. vm_compute in H. discriminate H.
Defined.

(** X8 at a request followed by a value of the wrong type. *)
Lemma request_then_mistyped_value :
  exists st',
    run no_case_table 3 unreachable_server
      (start [UnitRequest (tool_call (JString "a") "describe_table" ∅);
              UnitMistyped "number into Go value of type main.MCPRequest"]
             false) = (true, st')
    /\ stdout st' =
       serve no_case_table unreachable_server
         [UnitRequest (tool_call (JString "a") "describe_table" ∅);
          UnitMistyped "number into Go value of type main.MCPRequest"] []
    /\ map ID (stdout st') =
       map req_ID
         (requests [UnitRequest (tool_call (JString "a") "describe_table" ∅);
                    UnitMistyped "number into Go value of type main.MCPRequest"])
    /\ logged st' =
       mistyped_log
         [UnitRequest (tool_call (JString "a") "describe_table" ∅);
          UnitMistyped "number into Go value of type main.MCPRequest"].
Proof.
  exact (run_answers_requests_in_order no_case_table unreachable_server
           [UnitRequest (tool_call (JString "a") "describe_table" ∅);
            UnitMistyped "number into Go value of type main.MCPRequest"]
           eq_refl).
Defined.

(** X11 at SELECT 1 AS name, 2 AS name. *)
Lemma two_columns_called_name :
  make_row ["name"; "name"] [VInt64 1; VInt64 2] !! "name" = Some (VInt64 2).
Proof.
  apply (duplicate_column_name_keeps_last_value ["name"] [] "name"
           [VInt64 1; VInt64 2] (VInt64 2)).
  - intros [].
  - reflexivity.
Defined.

(** X13 at a name of two characters and six bytes. *)
Lemma li_lei_row_is_aligned :
  String.length "李雷" = 6%nat
  /\ exists line,
       data_row (compute_widths ["name"] [li_lei_row]) ["name"] "" li_lei_row =
       line +:+ nl
       /\ utf8.RuneCountInString line =
          total_width (compute_widths ["name"] [li_lei_row]) ["name"].
Proof.
  split; [reflexivity|].
  pose proof (table_lines_have_as_many_runes_as_dashes ["name"] [li_lei_row]
                li_lei_row "" (or_introl eq_refl)) as H.
  cbv zeta in H. destruct H as (_ & (line & Hrow & Hcount) & _).
  exists line. split; [exact Hrow|exact Hcount].
Defined.

(** X14 at MYSQL_PORT=3307. *)
Lemma port_3307_is_read :
  getEnvInt (<["MYSQL_PORT" := "3307"]> ∅) "MYSQL_PORT" 3306 = 3307%Z.
Proof.
  apply (getEnvInt_reads_decimal_text (<["MYSQL_PORT" := "3307"]> ∅)
           "MYSQL_PORT" 3307 3306).
  - unfold min_int64, max_int64. lia.
  - reflexivity.
Defined.

(** X15 at MYSQL_PORT=3307 followed by a space. *)
Lemma port_with_space_is_ignored :
  getEnvInt (<["MYSQL_PORT" := "3307 "]> ∅) "MYSQL_PORT" 3306 = 3306%Z.
Proof.
  apply (getEnvInt_falls_back_on_other_text (<["MYSQL_PORT" := "3307 "]> ∅)
           "MYSQL_PORT" "3307" "" " " 3306).
  - reflexivity.
  - reflexivity.
  - left. discriminate.
Defined.

(** X21 at one request, with the environment empty. *)
Lemma one_request_is_answered_and_main_returns :
  exit (main no_case_table sample_driver ∅
          [UnitRequest (tool_call (JString "a") "list_tables" ∅)] false 2)
  = Returned
  /\ map ID (proc_stdout
               (main no_case_table sample_driver ∅
                  [UnitRequest (tool_call (JString "a") "list_tables" ∅)]
                  false 2))
     = [JString "a"].
Proof.
  pose proof (main_answers_the_requests_and_returns no_case_table
                sample_driver ∅ sample_handle
                [UnitRequest (tool_call (JString "a") "list_tables" ∅)]
                eq_refl eq_refl eq_refl) as H.
  cbv zeta in H. destruct H as (Hexit & _ & Hids & _).
  split; [exact Hexit|exact Hids].
Defined.
